(** * Naive Bayes spam filter with a frequency override: model and properties

    Shallow embedding of [NaiveBayesSource/Source_NaiveBayesyClassfier.py].

    Modelling conventions.
    - A Python [dict] is an association list with unique keys, kept in
      insertion order.  A [set] is a duplicate-free list; the order in which
      a loop visits its members is left open ([SetOrder]).
    - Python exceptions are the [Raise] case of [result].
    - Floating-point numbers produced by [math.log] and added up by the
      scoring loop are kept abstract ([Numerics]): every statement proved for
      an arbitrary instance holds whatever the rounding is.  One instance,
      [Exact], computes with exact rationals.
    - Counts are [Z]; probabilities that are quotients of counts are [Q].
    - The module-level names [spam_frequent], [ham_frequent], [is_frequent]
      and [frequent_probdist] are the record [Globals]; an unbound name is
      [None]. *)

From Stdlib Require Import List String ZArith QArith Qminmax Bool Lia Permutation.
From Stdlib Require Import Sorting.Sorted.
Import ListNotations.

Local Open Scope string_scope.
Local Open Scope list_scope.
Local Open Scope Z_scope.

(** ** Python values *)

Definition label := string.
Definition fname := string.

(** A feature value; [None] is Python's [None], the value the trainer
    reserves for "feature absent". *)
Definition fval := option string.

Inductive exn : Type :=
| KeyError
| NameError
| ZeroDivisionError
| ValueError (msg : string).

Inductive result (A : Type) : Type :=
| Ok (a : A)
| Raise (e : exn).

Arguments Ok {A} a.
Arguments Raise {A} e.

Definition bind {A B} (r : result A) (k : A -> result B) : result B :=
  match r with
  | Ok a => k a
  | Raise e => Raise e
  end.

Notation "x <- r ;; k" := (bind r (fun x => k))
  (at level 61, r at next level, right associativity).

(** Keys of dictionaries and members of sets: equality is decided by [eqb]. *)
Class Hashable (K : Type) := {
  eqb : K -> K -> bool;
  eqb_spec : forall x y, reflect (x = y) (eqb x y)
}.

#[export] Instance Hashable_string : Hashable string :=
  {| eqb := String.eqb; eqb_spec := String.eqb_spec |}.

#[export] Instance Hashable_option {A} `{Hashable A} : Hashable (option A).
Proof.
  refine {| eqb := fun x y =>
              match x, y with
              | Some a, Some b => eqb a b
              | None, None => true
              | _, _ => false
              end |}.
  intros [a|] [b|]; try (constructor; congruence).
  destruct (eqb_spec a b); constructor; congruence.
Defined.

#[export] Instance Hashable_pair {A B} `{Hashable A} `{Hashable B} : Hashable (A * B).
Proof.
  refine {| eqb := fun x y => eqb (fst x) (fst y) && eqb (snd x) (snd y) |}.
  intros [a b] [a' b']; simpl.
  destruct (eqb_spec a a'), (eqb_spec b b'); constructor; congruence.
Defined.

(** ** Dictionaries and sets *)

Section Dict.
Context {K V : Type} `{Hashable K}.

Definition dict := list (K * V).

Fixpoint dict_get (d : dict) (k : K) : option V :=
  match d with
  | [] => None
  | (k', v) :: d' => if eqb k' k then Some v else dict_get d' k
  end.

(** [d[k] = v]: overwrite in place, or append a new key. *)
Fixpoint dict_set (d : dict) (k : K) (v : V) : dict :=
  match d with
  | [] => [(k, v)]
  | (k', v') :: d' =>
      if eqb k' k then (k', v) :: d' else (k', v') :: dict_set d' k v
  end.

(** [del d[k]] *)
Definition dict_del (d : dict) (k : K) : dict :=
  filter (fun kv => negb (eqb (fst kv) k)) d.

(** [k in d] *)
Definition dict_in (d : dict) (k : K) : bool :=
  existsb (fun kv => eqb (fst kv) k) d.

Definition dict_keys (d : dict) : list K := map fst d.
Definition dict_values (d : dict) : list V := map snd d.

(** [d.get(k, dflt)], also the read of a [defaultdict] or [Counter]. *)
Definition dict_get_default (d : dict) (k : K) (dflt : V) : V :=
  match dict_get d k with
  | Some v => v
  | None => dflt
  end.
End Dict.

Arguments dict K V : clear implicits.

Section PySet.
Context {A : Type} `{Hashable A}.

Definition set_mem (s : list A) (x : A) : bool := existsb (eqb x) s.

Definition set_add (s : list A) (x : A) : list A :=
  if set_mem s x then s else s ++ [x].

Definition set_discard (s : list A) (x : A) : list A :=
  filter (fun y => negb (eqb y x)) s.
End PySet.

(** Iterating over a set visits its members once each, in an order Python
    leaves unspecified. *)
Class SetOrder := {
  set_iter : forall A : Type, list A -> list A;
  set_iter_perm : forall (A : Type) (s : list A), Permutation (set_iter A s) s
}.

(** The members in the order in which they were added. *)
Definition InsertionOrder : SetOrder :=
  {| set_iter := fun _ s => s;
     set_iter_perm := fun _ s => Permutation_refl s |}.

(** ** The numeric library the classifier is written against *)

(** [float] stands for the floats that hold log-probabilities, [math_log2 x]
    for [math.log(x, 2)] at a positive [x], [NINF] for [sum_logs([])], and
    [DictionaryProbDist tbl] for
    [DictionaryProbDist(tbl, normalize=True, log=True)], whose result offers
    [max()]. *)
Class Numerics := {
  float : Type;
  math_log2 : Q -> float;
  float_add : float -> float -> float;
  NINF : float;
  dist : Type;
  DictionaryProbDist : dict label float -> result dist;
  dist_max : dist -> label
}.

(** [math.log(x, 2)] raises [ValueError] on a non-positive argument. *)
Definition math_log `{Numerics} (x : Q) : result float :=
  if Qle_bool x 0 then Raise (ValueError "math domain error")
  else Ok (math_log2 x).

(** The interface [ProbDistI] as far as the classifier uses it. *)
Record ProbDistI `{Numerics} (S : Type) := {
  samples : list S;
  prob : S -> Q;
  logprob : S -> float
}.

Arguments samples {_ S} _.
Arguments prob {_ S} _ _.
Arguments logprob {_ S} _ _.

(** ** Module-level state shared with the association-rule collaborator *)

Record Globals := {
  spam_frequent : option (list (list fname));
  ham_frequent : option (list (list fname));
  is_frequent : option (dict fname bool);
  frequent_probdist : option (dict (label * fname) Q)
}.

(** No name bound: the module as it is right after import. *)
Definition unbound : Globals :=
  {| spam_frequent := None; ham_frequent := None;
     is_frequent := None; frequent_probdist := None |}.

(** Subscripting a global dictionary: [NameError] when the name is unbound,
    [KeyError] when the key is missing. *)
Definition global_item {K V} `{Hashable K}
    (g : option (dict K V)) (k : K) : result V :=
  match g with
  | None => Raise NameError
  | Some d =>
      match dict_get d k with
      | Some v => Ok v
      | None => Raise KeyError
      end
  end.

(** ** The classifier *)

Section Classifier.
Context `{Numerics}.

Record NaiveBayesClassifier := {
  _label_probdist : ProbDistI label;
  _feature_probdist : dict (label * fname) (ProbDistI fval);
  _labels : list label
}.

(** [__init__] *)
Definition init (label_probdist : ProbDistI label)
    (feature_probdist : dict (label * fname) (ProbDistI fval)) :=
  {| _label_probdist := label_probdist;
     _feature_probdist := feature_probdist;
     _labels := samples label_probdist |}.

Definition labels (self : NaiveBayesClassifier) := _labels self.

(** The [for label ... else] of lines 104-109: [true] when the inner loop
    ends without [break]. *)
Definition unseen (self : NaiveBayesClassifier) (f : fname) : bool :=
  forallb (fun l => negb (dict_in (_feature_probdist self) (l, f)))
          (_labels self).

(** Lines 103-109, on the copy. *)
Definition discard_unseen (self : NaiveBayesClassifier)
    (featureset : dict fname fval) : dict fname fval :=
  fold_left (fun fs f => if unseen self f then dict_del fs f else fs)
            (dict_keys featureset) featureset.

(** The body of the [try] of lines 122-126, given the model's own
    distribution [feature_probs] for the pair. *)
Definition try_override (g : Globals) (feature_probs : ProbDistI fval)
    (l : label) (f : fname) (v : fval) : result float :=
  frequent <- global_item (is_frequent g) f ;;
  if (frequent : bool) then
    p <- global_item (frequent_probdist g) (l, f) ;;
    math_log p
  else Ok (logprob feature_probs v).

(** The amount added to [logprob[label]] for one feature (lines 120-134):
    the bare [except] replaces any failure by the model's own estimate. *)
Definition feature_term (g : Globals) (self : NaiveBayesClassifier)
    (l : label) (f : fname) (v : fval) : float :=
  match dict_get (_feature_probdist self) (l, f) with
  | Some feature_probs =>
      match try_override g feature_probs l f v with
      | Ok x => x
      | Raise _ => logprob feature_probs v
      end
  | None => NINF
  end.

(** The same amount when no override is consulted for the pair. *)
Definition own_term (self : NaiveBayesClassifier)
    (l : label) (f : fname) (v : fval) : float :=
  match dict_get (_feature_probdist self) (l, f) with
  | Some feature_probs => logprob feature_probs v
  | None => NINF
  end.

(** The per-feature amount with the override of one pair switched off. *)
Definition without_override (g : Globals) (self : NaiveBayesClassifier)
    (l0 : label) (f0 : fname) : label -> fname -> fval -> float :=
  fun l f v =>
    if eqb (l, f) (l0, f0) then own_term self l f v
    else feature_term g self l f v.

(** [logprob[label] += x].  The key is always present, line 115 entered
    it; on a missing key the table is left as it is. *)
Definition add_to (tbl : dict label float) (l : label) (x : float) :=
  match dict_get tbl l with
  | Some old => dict_set tbl l (float_add old x)
  | None => tbl
  end.

(** Lines 113-134 for an arbitrary per-feature amount [term]. *)
Definition score_table_with (term : label -> fname -> fval -> float)
    (self : NaiveBayesClassifier) (featureset : dict fname fval)
    : dict label float :=
  let logprob0 :=
    fold_left (fun tbl l => dict_set tbl l (logprob (_label_probdist self) l))
              (_labels self) [] in
  fold_left
    (fun tbl l =>
       fold_left (fun tbl fv => add_to tbl l (term l (fst fv) (snd fv)))
                 featureset tbl)
    (_labels self) logprob0.

(** The table handed to [DictionaryProbDist] at line 136. *)
Definition score_table (g : Globals) (self : NaiveBayesClassifier)
    (featureset : dict fname fval) : dict label float :=
  score_table_with (feature_term g self) self (discard_unseen self featureset).

Definition prob_classify (g : Globals) (self : NaiveBayesClassifier)
    (featureset : dict fname fval) : result dist :=
  DictionaryProbDist (score_table g self featureset).

Definition classify (g : Globals) (self : NaiveBayesClassifier)
    (featureset : dict fname fval) : result label :=
  d <- prob_classify g self featureset ;;
  Ok (dist_max d).

(** *** [prob_classify] on a store of dictionary objects

    The caller's feature set is an object in a store; [featureset.copy()]
    allocates a new object and rebinds the local name to it. *)

Definition addr := nat.
Definition store := list (dict fname fval).

Definition deref (h : store) (a : addr) : dict fname fval := nth a h [].

Fixpoint assign (h : store) (a : addr) (d : dict fname fval) : store :=
  match h, a with
  | [], _ => []
  | _ :: h', O => d :: h'
  | x :: h', S a' => x :: assign h' a' d
  end.

Definition copy (h : store) (a : addr) : addr * store :=
  (List.length h, h ++ [deref h a]).

Definition del_item (h : store) (a : addr) (f : fname) : store :=
  assign h a (dict_del (deref h a) f).

Definition prob_classify_ref (g : Globals) (self : NaiveBayesClassifier)
    (featureset : addr) (h : store) : result dist * store :=
  let (featureset', h1) := copy h featureset in
  let h2 :=
    fold_left (fun h f => if unseen self f then del_item h featureset' f else h)
              (dict_keys (deref h1 featureset')) h1 in
  (DictionaryProbDist
     (score_table_with (feature_term g self) self (deref h2 featureset')),
   h2).
End Classifier.

(** ** Feature ranking *)

Definition feature := (fname * fval)%type.

(** Python's [max(p, q)] and [min(p, q)] on numbers: the first argument
    wins ties. *)
Definition py_max (p q : Q) : Q := if Qle_bool q p then p else q.
Definition py_min (p q : Q) : Q := if Qle_bool p q then p else q.

(** [lst[:n]] *)
Definition slice_to {A} (l : list A) (n : Z) : list A :=
  if n <? 0 then firstn (Z.to_nat (Z.of_nat (List.length l) + n)) l
  else firstn (Z.to_nat n) l.

(** [sorted] is stable; on keyed items it is insertion from the right. *)
Fixpoint insert_by_key {A} (x : Q * A) (l : list (Q * A)) : list (Q * A) :=
  match l with
  | [] => [x]
  | y :: l' =>
      if Qle_bool (fst x) (fst y) then x :: y :: l'
      else y :: insert_by_key x l'
  end.

Definition sorted_by_key {A} (l : list (Q * A)) : list (Q * A) :=
  fold_right insert_by_key [] l.

Fixpoint sequence {A} (l : list (result A)) : result (list A) :=
  match l with
  | [] => Ok []
  | r :: l' => x <- r ;; xs <- sequence l' ;; Ok (x :: xs)
  end.

Section Ranking.
Context `{Numerics} `{SetOrder}.

Record Scan := {
  features : list feature;
  maxprob : dict feature Q;
  minprob : dict feature Q
}.

(** Lines 180-185, for the pair [(fname, fval)] and its probability. *)
Definition scan_step (st : Scan) (o : feature * Q) : Scan :=
  let ft := fst o in
  let features1 := set_add (features st) ft in
  let p := snd o in
  let maxprob1 :=
    dict_set (maxprob st) ft (py_max p (dict_get_default (maxprob st) ft 0%Q)) in
  let minprob1 :=
    dict_set (minprob st) ft (py_min p (dict_get_default (minprob st) ft 1%Q)) in
  {| features :=
       if Qeq_bool (dict_get_default minprob1 ft 1%Q) 0
       then set_discard features1 ft else features1;
     maxprob := maxprob1;
     minprob := minprob1 |}.

(** Lines 179-185. *)
Definition scan_value (f : fname) (probdist : ProbDistI fval)
    (st : Scan) (v : fval) : Scan :=
  scan_step st ((f, v), prob probdist v).

(** Lines 171-185. *)
Definition scan (self : NaiveBayesClassifier) : Scan :=
  fold_left
    (fun st item =>
       fold_left (scan_value (snd (fst item)) (snd item))
                 (samples (snd item)) st)
    (_feature_probdist self)
    {| features := []; maxprob := []; minprob := [] |}.

(** The sort key of line 191; the division raises when [maxprob] is 0. *)
Definition rank_key (st : Scan) (ft : feature) : result Q :=
  let mx := dict_get_default (maxprob st) ft 0%Q in
  if Qeq_bool mx 0 then Raise ZeroDivisionError
  else Ok (dict_get_default (minprob st) ft 1%Q / mx)%Q.

Definition most_informative_features (self : NaiveBayesClassifier) (n : Z)
    : result (list feature) :=
  let st := scan self in
  keyed <- sequence (map (fun ft => k <- rank_key st ft ;; Ok (k, ft))
                         (set_iter _ (features st))) ;;
  Ok (slice_to (map snd (sorted_by_key keyed)) n).
End Ranking.

(** ** Training *)

(** [FreqDist] is a [Counter]: a missing sample reads as 0. *)
Definition FreqDist (S : Type) := dict S Z.

Section FreqDist.
Context {S : Type} `{Hashable S}.

Definition fd_count (fd : FreqDist S) (s : S) : Z := dict_get_default fd s 0.

(** [fd[s] += n] *)
Definition fd_inc (fd : FreqDist S) (s : S) (n : Z) : FreqDist S :=
  dict_set fd s (fd_count fd s + n).

(** [fd.N()] *)
Definition fd_N (fd : FreqDist S) : Z := fold_right Z.add 0 (dict_values fd).

(** [fd.B()] *)
Definition fd_B (fd : FreqDist S) : Z := Z.of_nat (List.length fd).
End FreqDist.

Record Tables := {
  label_freqdist : FreqDist label;
  feature_freqdist : dict (label * fname) (FreqDist fval);
  feature_values : dict fname (list fval);
  fnames : list fname
}.

Definition no_tables : Tables :=
  {| label_freqdist := []; feature_freqdist := [];
     feature_values := []; fnames := [] |}.

(** Lines 210-215. *)
Definition count_feature (l : label) (t : Tables) (fv : fname * fval) : Tables :=
  let f := fst fv in
  let v := snd fv in
  {| label_freqdist := label_freqdist t;
     feature_freqdist :=
       dict_set (feature_freqdist t) (l, f)
         (fd_inc (dict_get_default (feature_freqdist t) (l, f) []) v 1);
     feature_values :=
       dict_set (feature_values t) f
         (set_add (dict_get_default (feature_values t) f []) v);
     fnames := set_add (fnames t) f |}.

(** Lines 208-215. *)
Definition count_example (t : Tables) (ex : dict fname fval * label) : Tables :=
  let l := snd ex in
  fold_left (count_feature l) (fst ex)
    {| label_freqdist := fd_inc (label_freqdist t) l 1;
       feature_freqdist := feature_freqdist t;
       feature_values := feature_values t;
       fnames := fnames t |}.

(** Lines 225-230.  Reading [feature_freqdist[label, fname]] creates the
    entry when it is missing. *)
Definition impute_feature (l : label) (num_samples : Z) (t : Tables) (f : fname)
    : Tables :=
  let fd := dict_get_default (feature_freqdist t) (l, f) [] in
  let count := fd_N fd in
  if 0 <? num_samples - count then
    {| label_freqdist := label_freqdist t;
       feature_freqdist :=
         dict_set (feature_freqdist t) (l, f) (fd_inc fd None (num_samples - count));
       feature_values :=
         dict_set (feature_values t) f
           (set_add (dict_get_default (feature_values t) f []) None);
       fnames := fnames t |}
  else
    {| label_freqdist := label_freqdist t;
       feature_freqdist := dict_set (feature_freqdist t) (l, f) fd;
       feature_values := feature_values t;
       fnames := fnames t |}.

(** Lines 222-230. *)
Definition impute_label `{SetOrder} (t : Tables) (l : label) : Tables :=
  fold_left (impute_feature l (fd_count (label_freqdist t) l))
            (set_iter _ (fnames t)) t.

(** Lines 200-230: the tables the estimator is applied to. *)
Definition count_tables `{SetOrder}
    (labeled_featuresets : list (dict fname fval * label)) : Tables :=
  let t := fold_left count_example labeled_featuresets no_tables in
  fold_left impute_label (dict_keys (label_freqdist t)) t.

Section Train.
Context `{Numerics} `{SetOrder}.

(** An estimator takes a frequency table and, optionally, [bins]. *)
Definition Estimator :=
  forall S : Type, Hashable S -> FreqDist S -> option Z -> result (ProbDistI S).

(** The [bins] argument of line 238. *)
Definition bins_of (t : Tables) (f : fname) : Z :=
  Z.of_nat (List.length (dict_get_default (feature_values t) f [])).

(** Lines 236-239. *)
Definition fit_features (estimator : Estimator) (t : Tables)
    : result (dict (label * fname) (ProbDistI fval)) :=
  fold_left
    (fun acc item =>
       feature_probdist <- acc ;;
       probdist <- estimator fval _ (snd item)
                     (Some (bins_of t (snd (fst item)))) ;;
       Ok (dict_set feature_probdist (fst item) probdist))
    (feature_freqdist t) (Ok []).

Definition train (estimator : Estimator)
    (labeled_featuresets : list (dict fname fval * label))
    : result NaiveBayesClassifier :=
  let t := count_tables labeled_featuresets in
  label_probdist <- estimator label _ (label_freqdist t) None ;;
  feature_probdist <- fit_features estimator t ;;
  Ok (init label_probdist feature_probdist).

(** The expected-likelihood estimate of one sample. *)
Definition ele_prob (c N B : Z) : Q :=
  if B =? 0 then 0%Q
  else ((inject_Z c + (1 # 2)) / (inject_Z N + (1 # 2) * inject_Z B))%Q.

(** The logarithm of a probability, negative infinity at 0. *)
Definition log_of_prob (p : Q) : float :=
  if Qeq_bool p 0 then NINF else math_log2 p.

(** Modelled from the spec: [ELEProbDist] is imported from NLTK and is not
    part of the source file.  Section 4.1 gives
    [probability(v) = (count(v) + 0.5) / (total + 0.5 * B)], probability 0
    throughout when [B = 0], and a log-probability that is negative
    infinity at probability 0; section 7 makes [B] smaller than the number
    of observed values a validation error.  Without [bins], [B] is the
    number of observed values. *)
Definition ELEProbDist : Estimator :=
  fun S _ freqdist bins =>
    let B := match bins with Some b => b | None => fd_B freqdist end in
    if B <? fd_B freqdist
    then Raise (ValueError "bins is smaller than the number of observed values")
    else
      let p := fun s => ele_prob (fd_count freqdist s) (fd_N freqdist) B in
      Ok {| samples := dict_keys freqdist;
            prob := p;
            logprob := fun s => log_of_prob (p s) |}.
End Train.

(** ** The override bridge *)

Definition bound {A} (name : option A) : result A :=
  match name with
  | Some x => Ok x
  | None => Raise NameError
  end.

Definition item {K V} `{Hashable K} (d : dict K V) (k : K) : result V :=
  match dict_get d k with
  | Some v => Ok v
  | None => Raise KeyError
  end.

Definition divide (numerator denominator : Q) : result Q :=
  if Qeq_bool denominator 0 then Raise ZeroDivisionError
  else Ok (numerator / denominator)%Q.

(** [count], lines 248-259. *)
Definition count (g : Globals) (featureset : dict fname fval)
    : Q * dict fname Q :=
  fold_left
    (fun acc fv =>
       match global_item (is_frequent g) (fst fv) with
       | Ok true =>
           (fst acc + 1,
            dict_set (snd acc) (fst fv)
              (dict_get_default (snd acc) (fst fv) 0 + 1))%Q
       | Ok false => acc
       | Raise _ => acc
       end)
    featureset (0%Q, []).

(** Lines 272-274, the branch taken when [label == 'spam']. *)
Definition spam_branch (g : Globals) (count_frequent : Q)
    (count_fname : dict fname Q) (f : fname) : result Q :=
  numerator <- item count_fname f ;;
  sf <- bound (spam_frequent g) ;;
  divide numerator (count_frequent + inject_Z (Z.of_nat (List.length sf)))%Q.

(** Lines 276-278, the [else] branch. *)
Definition ham_branch (g : Globals) (count_frequent : Q)
    (count_fname : dict fname Q) (f : fname) : result Q :=
  numerator <- item count_fname f ;;
  sf <- bound (spam_frequent g) ;;
  divide numerator (count_frequent + inject_Z (Z.of_nat (List.length sf)))%Q.

(** Lines 268-280 for one item: the value stored, if any. *)
Definition override_entry (g : Globals) (count_frequent : Q)
    (count_fname : dict fname Q) (l : label) (f : fname) : result (option Q) :=
  frequent <- global_item (is_frequent g) f ;;
  if (frequent : bool) then
    p <- (if eqb l "spam" then spam_branch g count_frequent count_fname f
          else ham_branch g count_frequent count_fname f) ;;
    Ok (Some p)
  else Ok None.

Definition store_override (g : Globals) (count_frequent : Q)
    (count_fname : dict fname Q) (l : label)
    (tbl : dict (label * fname) Q) (fv : fname * fval) : dict (label * fname) Q :=
  match override_entry g count_frequent count_fname l (fst fv) with
  | Ok (Some p) => dict_set tbl (l, fst fv) p
  | Ok None => tbl
  | Raise _ => tbl
  end.

(** [normal_probability], lines 261-280: the new value of the global
    [frequent_probdist]. *)
Definition normal_probability (g : Globals)
    (train_set : list (dict fname fval * label)) : dict (label * fname) Q :=
  fold_left
    (fun tbl ex =>
       let cc := count g (fst ex) in
       fold_left (store_override g (fst cc) (snd cc) (snd ex)) (fst ex) tbl)
    train_set [].

(** ** Exact arithmetic *)

(** A log-probability [log2 q] is stored as the rational [q >= 0] itself:
    adding logarithms multiplies the stored values, negative infinity is
    stored as 0, and probabilities are read back without rounding. *)

Definition sumQ (l : list Q) : Q := fold_right Qplus 0%Q l.

(** Modelled from the spec: [DictionaryProbDist] is imported from NLTK.
    Section 4.3 step 4 has it subtract, from every log-score, the logarithm
    of the sum of the exponentials; on stored values that is division by
    their sum.  As in NLTK an empty table is refused with [ValueError], and
    a table whose sum is negative infinity becomes the uniform distribution. *)
Definition exact_normalize (tbl : dict label Q) : result (dict label Q) :=
  match tbl with
  | [] =>
      Raise (ValueError
        "A DictionaryProbDist must have at least one sample before it can be normalized.")
  | _ :: _ =>
      let value_sum := sumQ (dict_values tbl) in
      if Qle_bool value_sum 0
      then Ok (map (fun kv => (fst kv, 1 / inject_Z (Z.of_nat (List.length tbl)))%Q) tbl)
      else Ok (map (fun kv => (fst kv, snd kv / value_sum)%Q) tbl)
  end.

(** [max((p, v) for (v, p) in items)]: pairs compare by probability, then
    by label. *)
Definition pair_ltb (a b : Q * label) : bool :=
  match Qcompare (fst a) (fst b) with
  | Lt => true
  | Gt => false
  | Eq => String.ltb (snd a) (snd b)
  end.

(** A normalised distribution is never empty; on the empty mapping, where
    Python's [max] would raise, the empty label stands in. *)
Definition exact_max (d : dict label Q) : label :=
  match d with
  | [] => ""
  | kv :: d' =>
      snd (fold_left
             (fun best kv => if pair_ltb best (snd kv, fst kv)
                             then (snd kv, fst kv) else best)
             d' (snd kv, fst kv))
  end.

Definition Exact : Numerics :=
  {| float := Q;
     math_log2 := fun q => q;
     float_add := Qmult;
     NINF := 0%Q;
     dist := dict label Q;
     DictionaryProbDist := exact_normalize;
     dist_max := exact_max |}.

(** ** Vocabulary of the statements *)

(** Retrieving the override of the pair [(l, f)] fails: the flag of [f]
    cannot be read, or [f] is flagged and the override cannot be read. *)
Definition lookup_fails (g : Globals) (l : label) (f : fname) : Prop :=
  (exists e, global_item (is_frequent g) f = Raise e) \/
  (global_item (is_frequent g) f = Ok true /\
   exists e, global_item (frequent_probdist g) (l, f) = Raise e).

(** The formula of lines 272-274 written once, with no test on the label. *)
Definition override_formula (g : Globals) (count_frequent : Q)
    (count_fname : dict fname Q) (f : fname) : result (option Q) :=
  frequent <- global_item (is_frequent g) f ;;
  if (frequent : bool) then
    numerator <- item count_fname f ;;
    sf <- bound (spam_frequent g) ;;
    p <- divide numerator (count_frequent + inject_Z (Z.of_nat (List.length sf)))%Q ;;
    Ok (Some p)
  else Ok None.

(** The examples labelled [l], relabelled spam. *)
Definition as_spam (l : label) (train_set : list (dict fname fval * label))
    : list (dict fname fval * label) :=
  map (fun ex => (fst ex, "spam"))
      (filter (fun ex => eqb (snd ex) l) train_set).

(** An entry of the override table filed under the label [l]. *)
Definition relabel (l : label) (kv : (label * fname) * Q) : (label * fname) * Q :=
  ((l, snd (fst kv)), snd kv).

Section RankingVocabulary.
Context `{Numerics}.

(** Every probability the ranking reads: one for each key (label, feature
    name) of the table and each sample of its distribution. *)
Definition observations (self : NaiveBayesClassifier) : list (feature * Q) :=
  flat_map
    (fun item =>
       map (fun v => ((snd (fst item), v), prob (snd item) v))
           (samples (snd item)))
    (_feature_probdist self).

(** The probabilities of one pair (feature name, value), over the labels
    whose distribution has the value among its samples. *)
Definition probs_of (self : NaiveBayesClassifier) (ft : feature) : list Q :=
  map snd (filter (fun o => eqb (fst o) ft) (observations self)).

(** Largest and smallest probability of a pair over the labels (of values
    that are probabilities: the largest is taken against 0, the smallest
    against 1). *)
Definition max_prob (self : NaiveBayesClassifier) (ft : feature) : Q :=
  fold_right Qmax 0%Q (probs_of self ft).

Definition min_prob (self : NaiveBayesClassifier) (ft : feature) : Q :=
  fold_right Qmin 1%Q (probs_of self ft).

Definition informativeness (self : NaiveBayesClassifier) (ft : feature) : Q :=
  (max_prob self ft / min_prob self ft)%Q.

End RankingVocabulary.

(** The frequency of the value [v] of the feature [f] under the label [l],
    and the values recorded for [f], in the tables [t]. *)
Definition freq (t : Tables) (l : label) (f : fname) (v : fval) : Z :=
  fd_count (dict_get_default (feature_freqdist t) (l, f) []) v.

Definition values_of (t : Tables) (f : fname) : list fval :=
  dict_get_default (feature_values t) f [].

(** No count is negative. *)
Definition nonneg_table {S} (fd : FreqDist S) : Prop :=
  Forall (fun kv => 0 <= snd kv) fd.

Definition counts_nonneg (t : Tables) : Prop :=
  nonneg_table (label_freqdist t) /\
  Forall (fun kfd => nonneg_table (snd kfd)) (feature_freqdist t).

(** The values recorded for a feature are, without repetition, the values
    that have a positive frequency under some label. *)
Definition values_are_union (t : Tables) : Prop :=
  forall f, NoDup (values_of t f) /\
            forall v, In v (values_of t f) <-> exists l, 0 < freq t l f v.

(** The number of values counted for the feature [f] under the label [l]. *)
Definition total (t : Tables) (l : label) (f : fname) : Z :=
  fd_N (dict_get_default (feature_freqdist t) (l, f) []).

(** One step of the second loop, for the pair [(label, fname)] and with the
    number of examples of each label given by [ns]. *)
Definition impute_pair (ns : label -> Z) (t : Tables) (p : label * fname) : Tables :=
  impute_feature (fst p) (ns (fst p)) t (snd p).

(** *** What the tables hold, read off the examples *)

Definition sumZ (l : list Z) : Z := fold_right Z.add 0 l.

Definition indicator (b : bool) : Z := if b then 1 else 0.

Section Occurrences.
Variable exs : list (dict fname fval * label).

(** Examples labelled [l]. *)
Definition n_label (l : label) : Z :=
  sumZ (map (fun ex => indicator (eqb (snd ex) l)) exs).

(** Items [(f, v)] in the examples labelled [l]. *)
Definition n_value (l : label) (f : fname) (v : fval) : Z :=
  sumZ (map (fun ex =>
               if eqb (snd ex) l
               then sumZ (map (fun fv => indicator (eqb fv (f, v))) (fst ex))
               else 0) exs).

(** Items named [f] in the examples labelled [l]. *)
Definition n_feature (l : label) (f : fname) : Z :=
  sumZ (map (fun ex =>
               if eqb (snd ex) l
               then sumZ (map (fun fv => indicator (eqb (fst fv) f)) (fst ex))
               else 0) exs).

Definition labelled (l : label) : bool :=
  existsb (fun ex => eqb (snd ex) l) exs.

Definition mentioned (f : fname) : bool :=
  existsb (fun ex => existsb (fun fv => eqb (fst fv) f) (fst ex)) exs.

(** The count attributed to [None] by lines 222-230. *)
Definition shortfall (l : label) (f : fname) : Z :=
  if labelled l && mentioned f && (0 <? n_label l - n_feature l f)
  then n_label l - n_feature l f else 0.

Definition final_freq (l : label) (f : fname) (v : fval) : Z :=
  n_value l f v + (if eqb v None then shortfall l f else 0).

Definition final_total (l : label) (f : fname) : Z :=
  n_feature l f + shortfall l f.
End Occurrences.

(** The score accumulated for one label: its prior log-probability and
    then one amount for each item of the feature set, in order. *)
Definition label_score `{Numerics} (term : label -> fname -> fval -> float)
    (self : NaiveBayesClassifier) (fs : dict fname fval) (l : label) : float :=
  fold_left (fun acc fv => float_add acc (term l (fst fv) (snd fv))) fs
            (logprob (_label_probdist self) l).

(** Every frequency table has distinct samples, all of them recorded among
    the values of its feature name. *)
Definition samples_recorded (t : Tables) : Prop :=
  forall k fd, In (k, fd) (feature_freqdist t) ->
               NoDup (dict_keys fd) /\ incl (dict_keys fd) (values_of t (snd k)).

(** ** A running example: the training set of the specification *)

Definition demo_examples : list (dict fname fval * label) :=
  [ ([("w", Some "buy")], "spam");
    ([("w", Some "buy")], "spam");
    ([("w", Some "buy")], "spam");
    ([("w", Some "buy")], "ham");
    ([("w", Some "hello")], "ham");
    ([("w", Some "hello")], "ham") ].

Definition empty_model `{Numerics} : NaiveBayesClassifier :=
  {| _label_probdist :=
       {| samples := []; prob := fun _ => 0%Q; logprob := fun _ => NINF |};
     _feature_probdist := [];
     _labels := [] |}.

Definition demo_model : @NaiveBayesClassifier Exact :=
  match @train Exact InsertionOrder ELEProbDist demo_examples with
  | Ok m => m
  | Raise _ => empty_model
  end.

(** ["w"] is flagged frequent and its override for spam is 0. *)
Definition zero_override : Globals :=
  {| spam_frequent := Some [["w"]];
     ham_frequent := Some [];
     is_frequent := Some [("w", true)];
     frequent_probdist := Some [(("spam", "w"), 0%Q)] |}.

(** ["w"] is flagged frequent but no override was ever stored. *)
Definition missing_override : Globals :=
  {| spam_frequent := Some [["w"]];
     ham_frequent := Some [];
     is_frequent := Some [("w", true)];
     frequent_probdist := Some [] |}.

(** The labels of the model trained, in exact arithmetic, on [exs]. *)
Definition trained_labels (exs : list (dict fname fval * label)) : list label :=
  match @train Exact InsertionOrder ELEProbDist exs with
  | Ok m => labels m
  | Raise _ => []
  end.

(** One spam example followed by one ham example. *)
Definition spam_then_ham : list (dict fname fval * label) :=
  [ ([("w", Some "buy")], "spam"); ([("w", Some "hello")], "ham") ].

(** The conditional distribution of ["w"] under spam in the running example. *)
Definition demo_spam_w : @ProbDistI Exact fval :=
  match dict_get (_feature_probdist demo_model) ("spam", "w") with
  | Some pd => pd
  | None => @Build_ProbDistI Exact fval [] (fun _ => 0%Q) (fun _ => NINF)
  end.

(** A store holding one feature set, with a name the running example never
    saw. *)
Definition demo_store : store :=
  [ [("w", Some "buy"); ("unknown_token", Some "x")] ].

(** One spam example and two ham examples over one feature. *)
Definition uneven_examples : list (dict fname fval * label) :=
  [ ([("w", Some "a")], "spam");
    ([("w", Some "a")], "ham");
    ([("w", Some "b")], "ham") ].

(** ** The rest of the module *)

(** [lst[n:]] *)
Definition slice_from {A} (l : list A) (n : Z) : list A :=
  if n <? 0 then skipn (Z.to_nat (Z.of_nat (List.length l) + n)) l
  else skipn (Z.to_nat n) l.

(** [append_ham_and_spam], lines 243-246. *)
Definition append_ham_and_spam {E} (ham spam : list E) : list (E * label) :=
  map (fun email => (email, "spam")) spam ++
  map (fun email => (email, "ham")) ham.

(** Line 291, with the feature extractor of the preprocessing module as a
    parameter. *)
Definition featurize {E} (get_features : E -> dict fname fval)
    (all_emails : list (E * label)) : list (dict fname fval * label) :=
  map (fun el => (get_features (fst el), snd el)) all_emails.

(** Line 293.  The split point of line 292 is computed in floating point
    and is a parameter here. *)
Definition train_test_split {A} (all_features : list A) (train_size : Z)
    : list A * list A :=
  (slice_to all_features train_size, slice_from all_features train_size).

(** The module state once [normal_probability] has rebound
    [frequent_probdist] (lines 262-263 and 274, 278). *)
Definition after_normal_probability (g : Globals)
    (train_set : list (dict fname fval * label)) : Globals :=
  {| spam_frequent := spam_frequent g;
     ham_frequent := ham_frequent g;
     is_frequent := is_frequent g;
     frequent_probdist := Some (normal_probability g train_set) |}.

(** What the accumulator of [count] satisfies after any number of items. *)
Definition count_ok (g : Globals) (acc : Q * dict fname Q) : Prop :=
  (fst acc == sumQ (dict_values (snd acc)))%Q /\
  NoDup (dict_keys (snd acc)) /\
  Forall (fun kv => (1 <= snd kv)%Q /\
                    global_item (is_frequent g) (fst kv) = Ok true) (snd acc).

(** What every entry of the table built by [normal_probability] satisfies. *)
Definition override_ok (g : Globals) (train_set : list (dict fname fval * label))
    (kp : (label * fname) * Q) : Prop :=
  ((0 < snd kp)%Q /\ (snd kp <= 1)%Q) /\
  global_item (is_frequent g) (snd (fst kp)) = Ok true /\
  (exists sf, spam_frequent g = Some sf) /\
  exists fs, In (fs, fst (fst kp)) train_set /\ In (snd (fst kp)) (dict_keys fs).

(** *** [show_most_informative_features]

    The fields of each printed line are kept as they are before padding and
    number formatting; the ratio is [None] where the line reads [INF].  An
    exception ends the loop after the lines already printed. *)

Inductive raised : Type :=
| Propagated (e : exn)
| IndexError.

Record Line := {
  line_fname : fname;
  line_fval : fval;
  line_high : label;
  line_low : label;
  line_ratio : option Q
}.

(** What one turn of the loop does. *)
Inductive turn : Type :=
| Printed (ln : Line)
| Skipped
| Stopped (e : raised).

Section Show.
Context `{Numerics} `{SetOrder}.

(** [[l for l in self._labels if fval in cpdist[l, fname].samples()]] *)
Fixpoint labels_having (self : NaiveBayesClassifier) (f : fname) (v : fval)
    (ls : list label) : result (list label) :=
  match ls with
  | [] => Ok []
  | l :: ls' =>
      pd <- item (_feature_probdist self) (l, f) ;;
      rest <- labels_having self f v ls' ;;
      Ok (if set_mem (samples pd) v then l :: rest else rest)
  end.

(** [labelprob], lines 142-143. *)
Definition labelprob (self : NaiveBayesClassifier) (f : fname) (v : fval)
    (l : label) : result Q :=
  pd <- item (_feature_probdist self) (l, f) ;;
  Ok (prob pd v).

(** Lines 145-147. *)
Definition sorted_labels (self : NaiveBayesClassifier) (f : fname) (v : fval)
    : result (list (Q * label)) :=
  ls <- labels_having self f v (_labels self) ;;
  keyed <- sequence (map (fun l => k <- labelprob self f v l ;; Ok (k, l)) ls) ;;
  Ok (sorted_by_key keyed).

(** Lines 142-158 for one pair.  [labels[0]] raises [IndexError] on an
    empty list; the keys of the sorted list are the probabilities that
    lines 152-156 look up again. *)
Definition show_line (self : NaiveBayesClassifier) (ft : feature) : turn :=
  match sorted_labels self (fst ft) (snd ft) with
  | Raise e => Stopped (Propagated e)
  | Ok labels =>
      if Nat.eqb (List.length labels) 1 then Skipped
      else
        match labels with
        | [] => Stopped IndexError
        | first :: _ =>
            let l0 := snd first in
            let l1 := snd (last labels first) in
            let p0 := fst first in
            let p1 := fst (last labels first) in
            Printed {| line_fname := fst ft;
                       line_fval := snd ft;
                       line_high := l1;
                       line_low := l0;
                       line_ratio :=
                         if Qeq_bool p0 0 then None else Some (p1 / p0)%Q |}
        end
  end.

Fixpoint show_lines (self : NaiveBayesClassifier) (fts : list feature)
    : list Line * option raised :=
  match fts with
  | [] => ([], None)
  | ft :: fts' =>
      match show_line self ft with
      | Stopped e => ([], Some e)
      | Skipped => show_lines self fts'
      | Printed ln =>
          let rest := show_lines self fts' in
          (ln :: fst rest, snd rest)
      end
  end.

(** Lines 138-158: the lines printed and the exception raised, if any. *)
Definition show_most_informative_features (self : NaiveBayesClassifier) (n : Z)
    : list Line * option raised :=
  match most_informative_features self n with
  | Raise e => ([], Some (Propagated e))
  | Ok fts => show_lines self fts
  end.
End Show.

(** ** Vocabulary of the statements on reordering and ranking *)

(** The distinct elements of a list in the order of their first
    occurrence: the order in which a dictionary lists keys that were
    inserted in the order of the list. *)
Definition first_seen (ls : list label) : list label :=
  fold_left set_add ls [].

(** Every count of a frequency table is positive. *)
Definition positive_table {S} (fd : FreqDist S) : Prop :=
  Forall (fun kv => 0 < snd kv) fd.

Definition counts_positive (t : Tables) : Prop :=
  Forall (fun kfd => positive_table (snd kfd)) (feature_freqdist t).

(** Two optional rationals that are both missing, or both present and
    equal as numbers. *)
Definition opt_Qeq (a b : option Q) : Prop :=
  match a, b with
  | Some p, Some q => (p == q)%Q
  | None, None => True
  | _, _ => False
  end.

(** Two outcomes of scoring in exact arithmetic that are the same error, or
    two mappings that give every label the same probability. *)
Definition same_distribution (r r' : result (dict label Q)) : Prop :=
  match r, r' with
  | Ok d, Ok d' => forall l, opt_Qeq (dict_get d l) (dict_get d' l)
  | Raise e, Raise e' => e = e'
  | _, _ => False
  end.

(** The pairs (feature name, value) that the ranking is about: those of
    the table whose smallest probability is not 0. *)
Definition ranked `{Numerics} (self : NaiveBayesClassifier) (ft : feature) : Prop :=
  In ft (map fst (observations self)) /\ ~ (min_prob self ft == 0)%Q.

(** The ratio as the claim words it, over every label of the model that has
    a distribution for the feature name, whether or not that distribution
    lists the value among its samples. *)
Definition probs_over_labels `{Numerics} (self : NaiveBayesClassifier)
    (ft : feature) : list Q :=
  flat_map (fun l => match dict_get (_feature_probdist self) (l, fst ft) with
                     | Some pd => [prob pd (snd ft)]
                     | None => []
                     end)
           (_labels self).

Definition ratio_over_labels `{Numerics} (self : NaiveBayesClassifier)
    (ft : feature) : Q :=
  (fold_right Qmax 0 (probs_over_labels self ft) /
   fold_right Qmin 1 (probs_over_labels self ft))%Q.

(** The probability a model gives a value under a pair, if the pair has a
    distribution. *)
Definition cond_prob `{Numerics} (self : NaiveBayesClassifier)
    (l : label) (f : fname) (v : fval) : option Q :=
  match dict_get (_feature_probdist self) (l, f) with
  | Some pd => Some (prob pd v)
  | None => None
  end.

(** The model trained, in exact arithmetic, on [uneven_examples]. *)
Definition uneven_model : @NaiveBayesClassifier Exact :=
  match @train Exact InsertionOrder ELEProbDist uneven_examples with
  | Ok m => m
  | Raise _ => empty_model
  end.

(** ** Properties of dictionaries *)

Section DictFacts.
Context {K V : Type} `{Hashable K}.

Lemma eqb_refl (k : K) : eqb k k = true.
Proof. destruct (eqb_spec k k); congruence. Qed.

Lemma eqb_eq (x y : K) : eqb x y = true <-> x = y.
Proof. destruct (eqb_spec x y); split; congruence. Qed.

Lemma eqb_neq (x y : K) : eqb x y = false <-> x <> y.
Proof. destruct (eqb_spec x y); split; congruence. Qed.

Lemma eqb_sym (x y : K) : eqb x y = eqb y x.
Proof. destruct (eqb_spec x y), (eqb_spec y x); congruence. Qed.

Lemma dict_get_set_same (d : dict K V) k v :
  dict_get (dict_set d k v) k = Some v.
Proof.
  induction d as [|[k' v'] d IH]; simpl.
  - now rewrite eqb_refl.
  - destruct (eqb k' k) eqn:E; simpl; rewrite E; auto.
Qed.

Lemma dict_get_set_other (d : dict K V) k k' v :
  k <> k' -> dict_get (dict_set d k v) k' = dict_get d k'.
Proof.
  intros Hne. induction d as [|[k0 v0] d IH]; simpl.
  - apply eqb_neq in Hne. now rewrite Hne.
  - destruct (eqb k0 k) eqn:E; simpl.
    + apply eqb_eq in E; subst k0.
      apply eqb_neq in Hne. now rewrite Hne.
    + now rewrite IH.
Qed.

Lemma dict_keys_set_present (d : dict K V) k v :
  In k (dict_keys d) -> dict_keys (dict_set d k v) = dict_keys d.
Proof.
  induction d as [|[k' v'] d IH]; simpl; [tauto|].
  intros Hin. destruct (eqb k' k) eqn:E; simpl; [reflexivity|].
  f_equal. apply IH. destruct Hin as [->|]; [|assumption].
  now rewrite eqb_refl in E.
Qed.

Lemma dict_keys_set_absent (d : dict K V) k v :
  ~ In k (dict_keys d) -> dict_set d k v = d ++ [(k, v)].
Proof.
  induction d as [|[k' v'] d IH]; simpl; [reflexivity|].
  intros Hn. destruct (eqb k' k) eqn:E.
  - apply eqb_eq in E. tauto.
  - f_equal. apply IH. tauto.
Qed.

Lemma dict_get_None (d : dict K V) k :
  dict_get d k = None <-> ~ In k (dict_keys d).
Proof.
  induction d as [|[k' v'] d IH]; simpl; [tauto|].
  destruct (eqb_spec k' k); split; intros; try discriminate; try tauto.
Qed.

Lemma dict_get_Some_In (d : dict K V) k v :
  dict_get d k = Some v -> In (k, v) d.
Proof.
  induction d as [|[k' v'] d IH]; simpl; [discriminate|].
  destruct (eqb_spec k' k).
  - intros [= ->]. subst. now left.
  - auto.
Qed.

Lemma dict_in_spec (d : dict K V) k :
  dict_in d k = true <-> In k (dict_keys d).
Proof.
  unfold dict_in, dict_keys. rewrite existsb_exists, in_map_iff.
  split; intros [x [H1 H2]]; exists x.
  - apply eqb_eq in H2; tauto.
  - split; [tauto|]. apply eqb_eq; tauto.
Qed.

Lemma dict_keys_set_In (d : dict K V) k v k' :
  In k' (dict_keys (dict_set d k v)) <-> k' = k \/ In k' (dict_keys d).
Proof.
  induction d as [|[k0 v0] d IH]; simpl.
  - intuition.
  - destruct (eqb_spec k0 k); simpl.
    + subst. intuition.
    + rewrite IH. intuition.
Qed.

Lemma dict_set_NoDup (d : dict K V) k v :
  NoDup (dict_keys d) -> NoDup (dict_keys (dict_set d k v)).
Proof.
  intros Hnd.
  destruct (in_dec (fun x y => reflect_dec _ _ (eqb_spec x y)) k (dict_keys d)) as [Hin|Hn].
  - now rewrite dict_keys_set_present.
  - rewrite dict_keys_set_absent by assumption.
    unfold dict_keys. rewrite map_app. simpl.
    apply NoDup_app; auto.
    + constructor; [simpl; tauto | constructor].
    + intros x Hx [<-|[]]. apply Hn, Hx.
Qed.
End DictFacts.

Lemma fold_left_ext {A B} (f g : A -> B -> A) (l : list B) (a : A) :
  (forall x y, f x y = g x y) -> fold_left f l a = fold_left g l a.
Proof.
  intros E. revert a. induction l as [|y l IH]; intros a; simpl; [reflexivity|].
  rewrite E. apply IH.
Qed.

Lemma filter_filter {A} (p q : A -> bool) (l : list A) :
  filter p (filter q l) = filter (fun x => q x && p x) l.
Proof.
  induction l as [|x l IH]; simpl; [reflexivity|].
  destruct (q x); simpl; [destruct (p x)|]; now rewrite IH.
Qed.

(** ** The filter of unseen feature names *)

Section Inference.
Context `{Numerics}.

Lemma discard_fold_filter (P : fname -> bool) (ks : list fname)
    (fs : dict fname fval) :
  fold_left (fun fs f => if P f then dict_del fs f else fs) ks fs =
  filter (fun kv => negb (existsb (fun k => P k && eqb (fst kv) k) ks)) fs.
Proof.
  revert fs. induction ks as [|k ks IH]; intros fs; simpl.
  - induction fs as [|x fs IHfs]; simpl; congruence.
  - rewrite IH. destruct (P k) eqn:Pk; simpl.
    + unfold dict_del. rewrite filter_filter.
      apply filter_ext. intros kv. now rewrite negb_orb.
    + reflexivity.
Qed.

Lemma discard_unseen_filter (self : NaiveBayesClassifier)
    (fs : dict fname fval) :
  discard_unseen self fs = filter (fun kv => negb (unseen self (fst kv))) fs.
Proof.
  unfold discard_unseen. rewrite discard_fold_filter.
  apply filter_ext_in. intros kv Hin. f_equal.
  destruct (unseen self (fst kv)) eqn:U.
  - apply existsb_exists. exists (fst kv). split.
    + unfold dict_keys. now apply in_map.
    + now rewrite U, eqb_refl.
  - destruct (existsb _ _) eqn:E; [|reflexivity].
    apply existsb_exists in E. destruct E as [k [_ Hk]].
    apply andb_true_iff in Hk. destruct Hk as [Uk Ek].
    apply eqb_eq in Ek. simpl in Ek. congruence.
Qed.

Lemma filter_dict_set_dropped (p : fname -> bool) (fs : dict fname fval) u x :
  p u = false ->
  filter (fun kv => p (fst kv)) (dict_set fs u x) =
  filter (fun kv => p (fst kv)) fs.
Proof.
  intros Pu. induction fs as [|[k v] fs IH].
  - simpl. now rewrite Pu.
  - cbn [dict_set]. destruct (eqb k u) eqn:E; cbn [filter fst].
    + apply eqb_eq in E. subst k. now rewrite Pu.
    + now rewrite IH.
Qed.

Lemma unseen_spec (self : NaiveBayesClassifier) (u : fname) :
  (forall l, dict_in (_feature_probdist self) (l, u) = false) ->
  unseen self u = true.
Proof.
  intros Hu. unfold unseen. apply forallb_forall. intros l _. now rewrite Hu.
Qed.

Lemma score_table_with_ext (t1 t2 : label -> fname -> fval -> float)
    (self : NaiveBayesClassifier) (fs : dict fname fval) :
  (forall l f v, t1 l f v = t2 l f v) ->
  score_table_with t1 self fs = score_table_with t2 self fs.
Proof.
  intros E. unfold score_table_with.
  apply fold_left_ext. intros tbl l.
  apply fold_left_ext. intros tbl' fv. now rewrite E.
Qed.

(** Whatever the [try] raises, the amount added is the model's own. *)
Lemma feature_term_caught (g : Globals) (self : NaiveBayesClassifier) l f v :
  (forall pd, dict_get (_feature_probdist self) (l, f) = Some pd ->
              exists e, try_override g pd l f v = Raise e) ->
  feature_term g self l f v = own_term self l f v.
Proof.
  intros Hr. unfold feature_term, own_term.
  destruct (dict_get (_feature_probdist self) (l, f)) as [pd|] eqn:G; [|reflexivity].
  destruct (Hr pd eq_refl) as [e ->]. reflexivity.
Qed.

Lemma without_override_same (g : Globals) (self : NaiveBayesClassifier) l0 f0 :
  (forall v, feature_term g self l0 f0 v = own_term self l0 f0 v) ->
  forall l f v, feature_term g self l f v = without_override g self l0 f0 l f v.
Proof.
  intros E l f v. unfold without_override.
  destruct (eqb_spec (l, f) (l0, f0)) as [[= -> ->]|]; auto.
Qed.
End Inference.

(** ** Scoring: unseen features, override failures, the caller's mapping *)

Section Scoring.
Context `{Numerics}.

(** C4: a feature name under which the model holds no conditional
    distribution for any label does not change the result of scoring:
    the feature set extended with any value for it scores like the
    feature set alone, and a feature set holding only such a name scores
    like the empty one. *)
Theorem unseen_feature_is_ignored (g : Globals) (self : NaiveBayesClassifier)
    (fs : dict fname fval) (u : fname) (x : fval) :
  (forall l, dict_in (_feature_probdist self) (l, u) = false) ->
  score_table g self (dict_set fs u x) = score_table g self fs /\
  prob_classify g self (dict_set fs u x) = prob_classify g self fs /\
  classify g self (dict_set fs u x) = classify g self fs /\
  prob_classify g self [(u, x)] = prob_classify g self [].
Proof.
  intros Hu. apply unseen_spec in Hu.
  assert (E : forall fs', discard_unseen self (dict_set fs' u x) =
                          discard_unseen self fs').
  { intros fs'. rewrite !discard_unseen_filter.
    apply (filter_dict_set_dropped (fun k => negb (unseen self k))).
    now rewrite Hu. }
  assert (T : forall fs', score_table g self (dict_set fs' u x) =
                          score_table g self fs').
  { intros fs'. unfold score_table. now rewrite E. }
  repeat split.
  - apply T.
  - unfold prob_classify. now rewrite T.
  - unfold classify, prob_classify. now rewrite T.
  - unfold prob_classify. now rewrite <- (T []).
Qed.

Lemma try_override_lookup_fails (g : Globals) pd l f v :
  lookup_fails g l f -> exists e, try_override g pd l f v = Raise e.
Proof.
  unfold try_override.
  intros [[e E] | [E [e E']]]; rewrite E; simpl.
  - now exists e.
  - rewrite E'. simpl. now exists e.
Qed.

Lemma try_override_zero (g : Globals) pd l f v p :
  global_item (is_frequent g) f = Ok true ->
  global_item (frequent_probdist g) (l, f) = Ok p ->
  (p == 0)%Q ->
  exists e, try_override g pd l f v = Raise e.
Proof.
  intros E1 E2 Hp. unfold try_override. rewrite E1. simpl. rewrite E2. simpl.
  unfold math_log.
  assert (L : Qle_bool p 0 = true) by (apply Qle_bool_iff; rewrite Hp; apply Qle_refl).
  rewrite L. eauto.
Qed.

Lemma caught_everywhere (g : Globals) (self : NaiveBayesClassifier) l0 f0 fs :
  (forall v, feature_term g self l0 f0 v = own_term self l0 f0 v) ->
  score_table g self fs =
    score_table_with (without_override g self l0 f0) self (discard_unseen self fs) /\
  prob_classify g self fs =
    DictionaryProbDist
      (score_table_with (without_override g self l0 f0) self
                        (discard_unseen self fs)).
Proof.
  intros E.
  assert (T : score_table g self fs =
              score_table_with (without_override g self l0 f0) self
                               (discard_unseen self fs)).
  { unfold score_table. apply score_table_with_ext.
    now apply without_override_same. }
  split; [exact T|]. unfold prob_classify. now rewrite T.
Qed.

(** C3: when retrieving the override of a pair (label, feature name)
    fails, the amount added for that pair is the model's own conditional
    log-probability, nothing is raised on account of it, and the table of
    scores and the distribution returned are those computed with the
    override of that pair switched off. *)
Theorem override_lookup_failure_falls_back (g : Globals)
    (self : NaiveBayesClassifier) (l0 : label) (f0 : fname)
    (fs : dict fname fval) :
  lookup_fails g l0 f0 ->
  (forall v, feature_term g self l0 f0 v = own_term self l0 f0 v) /\
  score_table g self fs =
    score_table_with (without_override g self l0 f0) self (discard_unseen self fs) /\
  prob_classify g self fs =
    DictionaryProbDist
      (score_table_with (without_override g self l0 f0) self
                        (discard_unseen self fs)).
Proof.
  intros Hf.
  assert (E : forall v, feature_term g self l0 f0 v = own_term self l0 f0 v).
  { intros v. apply feature_term_caught. intros pd _.
    now apply try_override_lookup_fails. }
  split; [exact E|]. now apply caught_everywhere.
Qed.

(** An override of 0 registered for a feature flagged frequent: the
    failure of [math.log] is caught like any other, the amount added for
    the pair is the model's own conditional log-probability, and the
    scores are those computed with the override of that pair switched
    off. *)
Lemma zero_override_caught (g : Globals)
    (self : NaiveBayesClassifier) (l0 : label) (f0 : fname) (p : Q)
    (fs : dict fname fval) :
  global_item (is_frequent g) f0 = Ok true ->
  global_item (frequent_probdist g) (l0, f0) = Ok p ->
  (p == 0)%Q ->
  (forall v, feature_term g self l0 f0 v = own_term self l0 f0 v) /\
  score_table g self fs =
    score_table_with (without_override g self l0 f0) self (discard_unseen self fs) /\
  prob_classify g self fs =
    DictionaryProbDist
      (score_table_with (without_override g self l0 f0) self
                        (discard_unseen self fs)).
Proof.
  intros E1 E2 Hp.
  assert (E : forall v, feature_term g self l0 f0 v = own_term self l0 f0 v).
  { intros v. apply feature_term_caught. intros pd _.
    now apply try_override_zero with (p := p). }
  split; [exact E|]. now apply caught_everywhere.
Qed.

(** *** The store *)

Lemma deref_app_old (h : store) (d : dict fname fval) (a : addr) :
  (a < List.length h)%nat -> deref (h ++ [d]) a = deref h a.
Proof. intros Ha. unfold deref. now rewrite app_nth1. Qed.

Lemma deref_app_new (h : store) (d : dict fname fval) :
  deref (h ++ [d]) (List.length h) = d.
Proof. unfold deref. rewrite app_nth2, Nat.sub_diag by lia. reflexivity. Qed.

Lemma assign_app_new (h : store) (d d' : dict fname fval) :
  assign (h ++ [d]) (List.length h) d' = h ++ [d'].
Proof. induction h as [|x h IH]; simpl; [reflexivity|]. now rewrite IH. Qed.

Lemma discard_in_store (self : NaiveBayesClassifier) (h : store)
    (ks : list fname) (d : dict fname fval) :
  fold_left (fun h' f => if unseen self f
                         then del_item h' (List.length h) f else h')
            ks (h ++ [d]) =
  h ++ [fold_left (fun fs f => if unseen self f then dict_del fs f else fs) ks d].
Proof.
  revert d. induction ks as [|k ks IH]; intros d; simpl; [reflexivity|].
  destruct (unseen self k).
  - unfold del_item. rewrite deref_app_new, assign_app_new. apply IH.
  - apply IH.
Qed.

Lemma prob_classify_ref_unfold (g : Globals) (self : NaiveBayesClassifier)
    (a : addr) (h : store) :
  prob_classify_ref g self a h =
  (prob_classify g self (deref h a), h ++ [discard_unseen self (deref h a)]).
Proof.
  unfold prob_classify_ref, copy.
  rewrite deref_app_new, discard_in_store, deref_app_new.
  reflexivity.
Qed.

(** C10: scoring leaves the caller's feature set as it was.  The unseen
    names are deleted from a copy, so the object the caller passed, like
    every object that existed before the call, holds the same items
    afterwards; the result is the one computed from those items. *)
Theorem prob_classify_keeps_argument (g : Globals)
    (self : NaiveBayesClassifier) (a : addr) (h : store) :
  (a < List.length h)%nat ->
  deref (snd (prob_classify_ref g self a h)) a = deref h a /\
  firstn (List.length h) (snd (prob_classify_ref g self a h)) = h /\
  fst (prob_classify_ref g self a h) = prob_classify g self (deref h a).
Proof.
  intros Ha. rewrite prob_classify_ref_unfold. simpl. repeat split.
  - now apply deref_app_old.
  - rewrite firstn_app, Nat.sub_diag, firstn_all. simpl. apply app_nil_r.
Qed.
End Scoring.

(** ** The override bridge computes one formula for both labels *)

Lemma override_entry_formula (g : Globals) (cf : Q) (cn : dict fname Q)
    (l : label) (f : fname) :
  override_entry g cf cn l f = override_formula g cf cn f.
Proof.
  unfold override_entry, override_formula, spam_branch, ham_branch.
  destruct (global_item (is_frequent g) f) as [[|]|e]; simpl; try reflexivity.
  destruct (item cn f); simpl;
    [destruct (bound (spam_frequent g)); simpl|];
    now destruct (String.eqb l "spam").
Qed.

Lemma eqb_same_label (l : label) (f f' : fname) :
  eqb (l, f') (l, f) = String.eqb f' f.
Proof. cbn. now rewrite String.eqb_refl. Qed.

Lemma dict_set_relabel (l : label) (tbl : dict (label * fname) Q) (f : fname) (p : Q) :
  Forall (fun kv => fst (fst kv) = "spam") tbl ->
  dict_set (map (relabel l) tbl) (l, f) p =
  map (relabel l) (dict_set tbl ("spam", f) p).
Proof.
  induction 1 as [|[[l' f'] q] tbl Hk _ IH]; [reflexivity|].
  simpl in Hk. subst l'. cbn [map dict_set relabel fst snd].
  rewrite !eqb_same_label.
  destruct (String.eqb f' f); cbn [map relabel fst snd]; [reflexivity|].
  now rewrite IH.
Qed.

Lemma dict_set_spam_keys (tbl : dict (label * fname) Q) (f : fname) (p : Q) :
  Forall (fun kv => fst (fst kv) = "spam") tbl ->
  Forall (fun kv => fst (fst kv) = "spam") (dict_set tbl ("spam", f) p).
Proof.
  induction 1 as [|[k q] tbl Hk Ht IH].
  - repeat constructor.
  - cbn [dict_set].
    match goal with |- context [if ?b then _ else _] => destruct b end;
      constructor; auto.
Qed.

Lemma store_override_relabel (g : Globals) (cf : Q) (cn : dict fname Q)
    (l : label) (items : dict fname fval) (tbl : dict (label * fname) Q) :
  Forall (fun kv => fst (fst kv) = "spam") tbl ->
  fold_left (store_override g cf cn l) items (map (relabel l) tbl) =
  map (relabel l) (fold_left (store_override g cf cn "spam") items tbl).
Proof.
  revert tbl. induction items as [|[f v] items IH]; intros tbl Ht; [reflexivity|].
  cbn [fold_left]. unfold store_override at 2 4. cbn [fst snd].
  rewrite !override_entry_formula.
  destruct (override_formula g cf cn f) as [[p|]|e]; try now apply IH.
  rewrite dict_set_relabel by assumption.
  apply IH. now apply dict_set_spam_keys.
Qed.

Lemma store_override_blind (g : Globals) (cf : Q) (cn : dict fname Q)
    (l : label) (items : dict fname fval) (tbl tbl' : dict (label * fname) Q) :
  (forall f, dict_get tbl (l, f) = dict_get tbl' ("spam", f)) ->
  forall f,
    dict_get (fold_left (store_override g cf cn l) items tbl) (l, f) =
    dict_get (fold_left (store_override g cf cn "spam") items tbl') ("spam", f).
Proof.
  revert tbl tbl'. induction items as [|[f1 v1] items IH]; intros tbl tbl' E; [exact E|].
  cbn [fold_left]. apply IH. intros f.
  unfold store_override. cbn [fst snd]. rewrite !override_entry_formula.
  destruct (override_formula g cf cn f1) as [[p|]|e]; try apply E.
  destruct (String.eqb_spec f1 f) as [->|Hne].
  - now rewrite !dict_get_set_same.
  - rewrite !dict_get_set_other by congruence. apply E.
Qed.

Lemma store_override_elsewhere (g : Globals) (cf : Q) (cn : dict fname Q)
    (l0 l : label) (items : dict fname fval) (tbl : dict (label * fname) Q) f :
  l0 <> l ->
  dict_get (fold_left (store_override g cf cn l0) items tbl) (l, f) =
  dict_get tbl (l, f).
Proof.
  intros Hne. revert tbl. induction items as [|[f1 v1] items IH]; intros tbl;
    [reflexivity|].
  cbn [fold_left]. rewrite IH. unfold store_override. cbn [fst snd].
  destruct (override_entry g cf cn l0 f1) as [[p|]|e]; try reflexivity.
  apply dict_get_set_other. congruence.
Qed.

Lemma normal_probability_blind (g : Globals) (l : label)
    (train_set : list (dict fname fval * label))
    (tbl tbl' : dict (label * fname) Q) :
  (forall f, dict_get tbl (l, f) = dict_get tbl' ("spam", f)) ->
  forall f,
    dict_get
      (fold_left
         (fun tbl ex =>
            let cc := count g (fst ex) in
            fold_left (store_override g (fst cc) (snd cc) (snd ex)) (fst ex) tbl)
         train_set tbl) (l, f) =
    dict_get
      (fold_left
         (fun tbl ex =>
            let cc := count g (fst ex) in
            fold_left (store_override g (fst cc) (snd cc) (snd ex)) (fst ex) tbl)
         (as_spam l train_set) tbl') ("spam", f).
Proof.
  revert tbl tbl'. induction train_set as [|[fs l0] ts IH]; intros tbl tbl' E;
    [exact E|].
  unfold as_spam. cbn [fold_left filter fst snd].
  destruct (eqb l0 l) eqn:El.
  - apply eqb_eq in El. subst l0. cbn [map fold_left fst snd].
    apply IH. now apply store_override_blind.
  - apply eqb_neq in El. apply IH. intros f.
    rewrite store_override_elsewhere by assumption. apply E.
Qed.

(** C9: the override stored for a label other than spam is computed by the
    formula used for spam, [count_fname[fname] / (count_frequent +
    len(spam_frequent))]: the two branches are the same function, the value
    stored for an item does not depend on the label, the table built from
    an example labelled [l] is the table built from the same example
    labelled spam, filed under [l], and over a whole training set the
    override of any label is the one spam would get from the examples of
    that label. *)
Theorem ham_override_uses_spam_formula (g : Globals) (cf : Q)
    (cn : dict fname Q) (l : label) (f : fname) (fs : dict fname fval)
    (train_set : list (dict fname fval * label)) :
  ham_branch g cf cn f = spam_branch g cf cn f /\
  override_entry g cf cn "ham" f = override_entry g cf cn "spam" f /\
  override_entry g cf cn l f = override_formula g cf cn f /\
  normal_probability g [(fs, l)] =
    map (relabel l) (normal_probability g [(fs, "spam")]) /\
  dict_get (normal_probability g train_set) (l, f) =
    dict_get (normal_probability g (as_spam l train_set)) ("spam", f).
Proof.
  split; [reflexivity|].
  split; [now rewrite !override_entry_formula|].
  split; [apply override_entry_formula|].
  split.
  - unfold normal_probability. cbn [fold_left fst snd].
    apply (store_override_relabel g _ _ l fs []). constructor.
  - unfold normal_probability. now apply normal_probability_blind.
Qed.

(** ** Feature ranking *)

Lemma fold_left_flat_map {A B C} (f : A -> C -> A) (g : B -> list C)
    (l : list B) (a : A) :
  fold_left f (flat_map g l) a = fold_left (fun a x => fold_left f (g x) a) l a.
Proof.
  revert a. induction l as [|x l IH]; intros a; simpl; [reflexivity|].
  now rewrite fold_left_app, IH.
Qed.

Lemma fold_left_map {A B C} (f : A -> C -> A) (h : B -> C) (l : list B) (a : A) :
  fold_left f (map h l) a = fold_left (fun a x => f a (h x)) l a.
Proof. revert a. induction l as [|x l IH]; intros a; simpl; auto. Qed.

Section SetFacts.
Context {A : Type} `{Hashable A}.

Lemma set_mem_spec (s : list A) (x : A) : set_mem s x = true <-> In x s.
Proof.
  unfold set_mem. rewrite existsb_exists. split.
  - intros [y [Hy E]]. apply eqb_eq in E. now subst.
  - intros Hx. exists x. split; [assumption | apply eqb_refl].
Qed.

Lemma set_add_In (s : list A) (x y : A) :
  In y (set_add s x) <-> y = x \/ In y s.
Proof.
  unfold set_add. destruct (set_mem s x) eqn:M.
  - apply set_mem_spec in M. split; [tauto|]. intros [->|]; assumption.
  - rewrite in_app_iff. simpl. intuition.
Qed.

Lemma set_discard_In (s : list A) (x y : A) :
  In y (set_discard s x) <-> In y s /\ y <> x.
Proof.
  unfold set_discard. rewrite filter_In, negb_true_iff, eqb_neq. tauto.
Qed.

Lemma set_add_NoDup (s : list A) (x : A) : NoDup s -> NoDup (set_add s x).
Proof.
  intros Hs. unfold set_add. destruct (set_mem s x) eqn:M; [assumption|].
  apply NoDup_app; auto.
  - constructor; [simpl; tauto | constructor].
  - intros y Hy [<-|[]]. apply set_mem_spec in Hy. congruence.
Qed.
End SetFacts.

Lemma py_min_Qmin (p q : Q) : (py_min p q == Qmin p q)%Q.
Proof.
  unfold py_min. destruct (Qle_bool p q) eqn:E.
  - apply Qle_bool_iff in E. now rewrite Q.min_l.
  - assert (q <= p)%Q.
    { apply Qlt_le_weak, Qnot_le_lt. intros L. apply Qle_bool_iff in L. congruence. }
    now rewrite Q.min_r.
Qed.

Lemma py_max_Qmax (p q : Q) : (py_max p q == Qmax p q)%Q.
Proof.
  unfold py_max. destruct (Qle_bool q p) eqn:E.
  - apply Qle_bool_iff in E. now rewrite Q.max_l.
  - assert (p <= q)%Q.
    { apply Qlt_le_weak, Qnot_le_lt. intros L. apply Qle_bool_iff in L. congruence. }
    now rewrite Q.max_r.
Qed.

Lemma fold_Qmin_base (ps : list Q) (p b : Q) :
  (fold_right Qmin (Qmin p b) ps == Qmin p (fold_right Qmin b ps))%Q.
Proof.
  induction ps as [|x ps IH]; simpl; [reflexivity|].
  rewrite IH, !Q.min_assoc, (Q.min_comm x p). reflexivity.
Qed.

Lemma fold_Qmax_base (ps : list Q) (p b : Q) :
  (fold_right Qmax (Qmax p b) ps == Qmax p (fold_right Qmax b ps))%Q.
Proof.
  induction ps as [|x ps IH]; simpl; [reflexivity|].
  rewrite IH, !Q.max_assoc, (Q.max_comm x p). reflexivity.
Qed.

Lemma fold_Qmin_compat (ps : list Q) (b b' : Q) :
  (b == b')%Q -> (fold_right Qmin b ps == fold_right Qmin b' ps)%Q.
Proof. intros E. induction ps as [|x ps IH]; simpl; [assumption|]. now rewrite IH. Qed.

Lemma fold_Qmax_compat (ps : list Q) (b b' : Q) :
  (b == b')%Q -> (fold_right Qmax b ps == fold_right Qmax b' ps)%Q.
Proof. intros E. induction ps as [|x ps IH]; simpl; [assumption|]. now rewrite IH. Qed.

Lemma fold_Qmin_le (ps : list Q) (b p : Q) :
  In p ps -> (fold_right Qmin b ps <= p)%Q.
Proof.
  induction ps as [|x ps IH]; simpl; [tauto|].
  intros [->|Hin].
  - apply Q.le_min_l.
  - eapply Qle_trans; [apply Q.le_min_r | now apply IH].
Qed.

Lemma fold_Qmax_ge (ps : list Q) (b p : Q) :
  In p ps -> (p <= fold_right Qmax b ps)%Q.
Proof.
  induction ps as [|x ps IH]; simpl; [tauto|].
  intros [->|Hin].
  - apply Q.le_max_l.
  - eapply Qle_trans; [now apply IH | apply Q.le_max_r].
Qed.

Lemma fold_Qmin_nonneg (ps : list Q) (b : Q) :
  (0 <= b)%Q -> Forall (fun p => 0 <= p)%Q ps -> (0 <= fold_right Qmin b ps)%Q.
Proof.
  intros Hb. induction 1 as [|x ps Hx _ IH]; simpl; [assumption|].
  now apply Q.min_glb.
Qed.

(** *** Stable insertion sort *)

Lemma insert_by_key_In {A} (x z : Q * A) (l : list (Q * A)) :
  In z (insert_by_key x l) <-> z = x \/ In z l.
Proof.
  induction l as [|y l IH]; simpl; [intuition|].
  destruct (Qle_bool (fst x) (fst y)); simpl; [intuition|].
  rewrite IH. intuition.
Qed.

Lemma sorted_by_key_In {A} (z : Q * A) (l : list (Q * A)) :
  In z (sorted_by_key l) <-> In z l.
Proof.
  induction l as [|y l IH]; simpl; [tauto|].
  rewrite insert_by_key_In, IH. intuition.
Qed.

Lemma insert_by_key_sorted {A} (x : Q * A) (l : list (Q * A)) :
  StronglySorted (fun a b => fst a <= fst b)%Q l ->
  StronglySorted (fun a b => fst a <= fst b)%Q (insert_by_key x l).
Proof.
  induction 1 as [|y l Hs IH Hy]; simpl.
  - repeat constructor.
  - destruct (Qle_bool (fst x) (fst y)) eqn:E.
    + apply Qle_bool_iff in E. constructor; [now constructor|].
      constructor; [assumption|].
      rewrite Forall_forall in *. intros z Hz. eapply Qle_trans; eauto.
    + constructor; [assumption|].
      rewrite Forall_forall in *. intros z Hz.
      apply insert_by_key_In in Hz. destruct Hz as [->|Hz]; auto.
      apply Qlt_le_weak, Qnot_le_lt. intros L. apply Qle_bool_iff in L. congruence.
Qed.

Lemma sorted_by_key_sorted {A} (l : list (Q * A)) :
  StronglySorted (fun a b => fst a <= fst b)%Q (sorted_by_key l).
Proof.
  induction l as [|x l IH]; simpl; [constructor|].
  now apply insert_by_key_sorted.
Qed.

Lemma insert_by_key_length {A} (x : Q * A) (l : list (Q * A)) :
  List.length (insert_by_key x l) = S (List.length l).
Proof.
  induction l as [|y l IH]; simpl; [reflexivity|].
  destruct (Qle_bool (fst x) (fst y)); simpl; auto.
Qed.

Lemma StronglySorted_map {A B} (R : A -> A -> Prop) (R' : B -> B -> Prop)
    (P : A -> Prop) (f : A -> B) (l : list A) :
  (forall x y, P x -> P y -> R x y -> R' (f x) (f y)) ->
  Forall P l -> StronglySorted R l -> StronglySorted R' (map f l).
Proof.
  intros HR HP Hs. induction Hs as [|x l Hs IH Hx]; simpl; [constructor|].
  inversion HP as [|? ? Px Pl]; subst.
  constructor; [now apply IH|].
  rewrite Forall_forall in *. intros y Hy.
  apply in_map_iff in Hy. destruct Hy as [z [<- Hz]]. auto.
Qed.

Lemma StronglySorted_firstn {A} (R : A -> A -> Prop) (n : nat) (l : list A) :
  StronglySorted R l -> StronglySorted R (firstn n l).
Proof.
  intros Hs. revert n. induction Hs as [|x l Hs IH Hx]; intros [|n]; simpl;
    try constructor; auto.
  rewrite Forall_forall in *. intros y Hy. apply Hx.
  eapply (In_nth_error) in Hy. destruct Hy as [i Hi].
  apply nth_error_In with (n := i).
  rewrite nth_error_firstn in Hi.
  destruct (Nat.ltb i n); [assumption | discriminate].
Qed.

Lemma In_firstn {A} (n : nat) (l : list A) (x : A) :
  In x (firstn n l) -> In x l.
Proof.
  revert n. induction l as [|y l IH]; intros [|n]; simpl; try tauto.
  intros [->|Hx]; [now left | right; eauto].
Qed.

Lemma sequence_Ok {A B} (f : A -> result B) (g : A -> B) (l : list A) :
  (forall x, In x l -> f x = Ok (g x)) ->
  sequence (map f l) = Ok (map g l).
Proof.
  induction l as [|x l IH]; intros Hf; simpl; [reflexivity|].
  rewrite (Hf x) by now left. simpl.
  rewrite IH by (intros; apply Hf; now right). reflexivity.
Qed.

Section RankingFacts.
Context `{Numerics}.

Local Abbreviation mn st ft := (dict_get_default (minprob st) ft 1%Q).
Local Abbreviation mx st ft := (dict_get_default (maxprob st) ft 0%Q).
Local Abbreviation seen os ft := (existsb (fun o : feature * Q => eqb (fst o) ft) os).
Local Abbreviation probs os ft :=
  (map snd (filter (fun o : feature * Q => eqb (fst o) ft) os)).

Lemma scan_flat (self : NaiveBayesClassifier) :
  scan self =
  fold_left scan_step (observations self)
            {| features := []; maxprob := []; minprob := [] |}.
Proof.
  unfold scan, observations. rewrite fold_left_flat_map.
  apply fold_left_ext. intros st item. now rewrite fold_left_map.
Qed.

Lemma mn_step (st : Scan) (o : feature * Q) (ft : feature) :
  mn (scan_step st o) ft =
  if eqb (fst o) ft then py_min (snd o) (mn st ft) else mn st ft.
Proof.
  destruct (eqb (fst o) ft) eqn:E; destruct o as [[f v] p];
    unfold scan_step, scan_value; cbn [fst snd minprob prob] in *;
    unfold dict_get_default at 1.
  - apply eqb_eq in E. subst ft. now rewrite dict_get_set_same.
  - apply eqb_neq in E. now rewrite dict_get_set_other.
Qed.

Lemma mx_step (st : Scan) (o : feature * Q) (ft : feature) :
  mx (scan_step st o) ft =
  if eqb (fst o) ft then py_max (snd o) (mx st ft) else mx st ft.
Proof.
  destruct (eqb (fst o) ft) eqn:E; destruct o as [[f v] p];
    unfold scan_step, scan_value; cbn [fst snd maxprob prob] in *;
    unfold dict_get_default at 1.
  - apply eqb_eq in E. subst ft. now rewrite dict_get_set_same.
  - apply eqb_neq in E. now rewrite dict_get_set_other.
Qed.

Lemma features_step (st : Scan) (o : feature * Q) (ft : feature) :
  In ft (features (scan_step st o)) <->
  if eqb (fst o) ft then Qeq_bool (mn (scan_step st o) ft) 0 = false
  else In ft (features st).
Proof.
  destruct (eqb (fst o) ft) eqn:E.
  - apply eqb_eq in E. subst ft.
    destruct o as [[f v] p]. unfold scan_step, scan_value.
    cbn [fst snd minprob features prob].
    destruct (Qeq_bool _ 0) eqn:Z.
    + rewrite set_discard_In. split; [tauto | discriminate].
    + rewrite set_add_In. tauto.
  - apply eqb_neq in E.
    destruct o as [[f v] p]. unfold scan_step, scan_value.
    cbn [fst snd minprob features prob] in *.
    destruct (Qeq_bool _ 0).
    + rewrite set_discard_In, set_add_In. intuition congruence.
    + rewrite set_add_In. intuition congruence.
Qed.

Lemma mn_fold (os : list (feature * Q)) (st : Scan) (ft : feature) :
  (mn (fold_left scan_step os st) ft == fold_right Qmin (mn st ft) (probs os ft))%Q.
Proof.
  revert st. induction os as [|o os IH]; intros st; [reflexivity|].
  cbn [fold_left filter]. rewrite IH, mn_step.
  destruct (eqb (fst o) ft); cbn [map fold_right]; [|reflexivity].
  rewrite <- fold_Qmin_base. apply fold_Qmin_compat, py_min_Qmin.
Qed.

Lemma mx_fold (os : list (feature * Q)) (st : Scan) (ft : feature) :
  (mx (fold_left scan_step os st) ft == fold_right Qmax (mx st ft) (probs os ft))%Q.
Proof.
  revert st. induction os as [|o os IH]; intros st; [reflexivity|].
  cbn [fold_left filter]. rewrite IH, mx_step.
  destruct (eqb (fst o) ft); cbn [map fold_right]; [|reflexivity].
  rewrite <- fold_Qmax_base. apply fold_Qmax_compat, py_max_Qmax.
Qed.

Lemma mn_unseen (os : list (feature * Q)) (st : Scan) (ft : feature) :
  seen os ft = false -> mn (fold_left scan_step os st) ft = mn st ft.
Proof.
  revert st. induction os as [|o os IH]; intros st; [reflexivity|].
  cbn [existsb fold_left]. intros S. apply orb_false_iff in S. destruct S as [S1 S2].
  rewrite IH by assumption. now rewrite mn_step, S1.
Qed.

Lemma features_fold (os : list (feature * Q)) (st : Scan) (ft : feature) :
  In ft (features (fold_left scan_step os st)) <->
  if seen os ft then Qeq_bool (mn (fold_left scan_step os st) ft) 0 = false
  else In ft (features st).
Proof.
  revert st. induction os as [|o os IH]; intros st; [reflexivity|].
  cbn [existsb fold_left]. rewrite IH.
  destruct (seen os ft) eqn:S; [now rewrite orb_true_r|].
  rewrite orb_false_r, features_step, mn_unseen by assumption.
  reflexivity.
Qed.

Lemma seen_In (os : list (feature * Q)) (ft : feature) :
  seen os ft = true <-> In ft (map fst os).
Proof.
  rewrite existsb_exists, in_map_iff. split; intros [o Ho]; exists o.
  - destruct Ho as [Hi E]. apply eqb_eq in E. tauto.
  - destruct Ho as [E Hi]. split; [assumption | now apply eqb_eq].
Qed.

Lemma seen_probs (os : list (feature * Q)) (ft : feature) :
  seen os ft = true -> exists p, In p (probs os ft).
Proof.
  rewrite existsb_exists. intros [o [Hi E]]. exists (snd o).
  apply in_map, filter_In. tauto.
Qed.

Lemma probs_nonneg (os : list (feature * Q)) (ft : feature) :
  Forall (fun o => 0 <= snd o)%Q os -> Forall (fun p => 0 <= p)%Q (probs os ft).
Proof.
  rewrite !Forall_forall. intros Hn p Hp.
  apply in_map_iff in Hp. destruct Hp as [o [<- Ho]].
  apply filter_In in Ho. apply Hn, Ho.
Qed.

(** What the scan leaves behind: the pairs kept, and the two tables. *)
Lemma scan_spec (self : NaiveBayesClassifier) (ft : feature) :
  (mn (scan self) ft == min_prob self ft)%Q /\
  (mx (scan self) ft == max_prob self ft)%Q /\
  (In ft (features (scan self)) <->
   In ft (map fst (observations self)) /\ ~ (min_prob self ft == 0)%Q).
Proof.
  rewrite scan_flat.
  assert (M : (mn (fold_left scan_step (observations self)
                     {| features := []; maxprob := []; minprob := [] |}) ft
               == min_prob self ft)%Q) by apply mn_fold.
  split; [exact M|]. split; [apply mx_fold|].
  rewrite features_fold, <- seen_In.
  destruct (seen (observations self) ft).
  - rewrite <- M, <- Qeq_bool_iff.
    destruct (Qeq_bool _ 0); intuition congruence.
  - simpl. intuition congruence.
Qed.

Lemma eligible_positive (self : NaiveBayesClassifier) (ft : feature) :
  Forall (fun o => 0 <= snd o)%Q (observations self) ->
  In ft (features (scan self)) ->
  (0 < min_prob self ft)%Q /\ (0 < max_prob self ft)%Q.
Proof.
  intros Hn Hin. apply scan_spec in Hin. destruct Hin as [Hs Hz].
  assert (P : (0 < min_prob self ft)%Q).
  { assert (N : (0 <= min_prob self ft)%Q)
      by (apply fold_Qmin_nonneg; [discriminate | now apply probs_nonneg]).
    apply Qle_lt_or_eq in N.
    destruct N as [L | E]; [exact L | exfalso; apply Hz; now symmetry]. }
  split; [exact P|].
  apply seen_In, seen_probs in Hs. destruct Hs as [p Hp].
  eapply Qlt_le_trans; [exact P|].
  eapply Qle_trans; [apply (fold_Qmin_le _ _ p Hp) | apply (fold_Qmax_ge _ _ p Hp)].
Qed.
End RankingFacts.

(** Among probabilities, the two bounds are the extreme values themselves. *)
Lemma fold_Qmin_attained (ps : list Q) :
  ps <> [] -> Forall (fun p => p <= 1)%Q ps ->
  exists p, In p ps /\ (p == fold_right Qmin 1%Q ps)%Q.
Proof.
  intros Hne Hle. induction Hle as [|x ps Hx Hle IH]; [congruence|].
  cbn [fold_right]. destruct ps as [|y ps].
  - exists x. split; [now left|]. simpl. now rewrite Q.min_l.
  - destruct IH as [p [Hp Ep]]; [discriminate|].
    destruct (Q.min_dec x (fold_right Qmin 1%Q (y :: ps))) as [E|E].
    + exists x. split; [now left | now rewrite E].
    + exists p. split; [now right | now rewrite E].
Qed.

Lemma fold_Qmax_attained (ps : list Q) :
  ps <> [] -> Forall (fun p => 0 <= p)%Q ps ->
  exists p, In p ps /\ (p == fold_right Qmax 0%Q ps)%Q.
Proof.
  intros Hne Hle. induction Hle as [|x ps Hx Hle IH]; [congruence|].
  cbn [fold_right]. destruct ps as [|y ps].
  - exists x. split; [now left|]. simpl. now rewrite Q.max_l.
  - destruct IH as [p [Hp Ep]]; [discriminate|].
    destruct (Q.max_dec x (fold_right Qmax 0%Q (y :: ps))) as [E|E].
    + exists x. split; [now left | now rewrite E].
    + exists p. split; [now right | now rewrite E].
Qed.

Lemma ratio_antitone (a b c d : Q) :
  (0 < a)%Q -> (0 < b)%Q -> (0 < c)%Q -> (0 < d)%Q ->
  (a / b <= c / d)%Q -> (d / c <= b / a)%Q.
Proof.
  intros Ha Hb Hc Hd L.
  assert (Na : ~ (a == 0)%Q) by (intros E; rewrite E in Ha; discriminate).
  assert (Nb : ~ (b == 0)%Q) by (intros E; rewrite E in Hb; discriminate).
  assert (Nc : ~ (c == 0)%Q) by (intros E; rewrite E in Hc; discriminate).
  assert (Nd : ~ (d == 0)%Q) by (intros E; rewrite E in Hd; discriminate).
  assert (X : (a * d <= c * b)%Q).
  { apply (Qmult_le_r _ _ (b * d)) in L.
    - setoid_replace (a / b * (b * d))%Q with (a * d)%Q in L by (field; assumption).
      setoid_replace (c / d * (b * d))%Q with (c * b)%Q in L by (field; assumption).
      exact L.
    - rewrite <- (Qmult_0_l d). now apply Qmult_lt_compat_r. }
  apply (Qmult_le_r _ _ (a * c)).
  - rewrite <- (Qmult_0_l c). now apply Qmult_lt_compat_r.
  - setoid_replace (d / c * (a * c))%Q with (a * d)%Q by (field; assumption).
    setoid_replace (b / a * (a * c))%Q with (c * b)%Q by (field; assumption).
    exact X.
Qed.


(** ** Training: the tables *)

Section DefaultFacts.
Context {K V : Type} `{Hashable K}.

Lemma get_default_set_same (d : dict K V) k v dflt :
  dict_get_default (dict_set d k v) k dflt = v.
Proof. unfold dict_get_default. now rewrite dict_get_set_same. Qed.

Lemma get_default_set_other (d : dict K V) k k' v dflt :
  k <> k' -> dict_get_default (dict_set d k v) k' dflt = dict_get_default d k' dflt.
Proof. intros Hne. unfold dict_get_default. now rewrite dict_get_set_other. Qed.

Lemma get_default_set_id (d : dict K V) k k' dflt :
  dict_get_default (dict_set d k (dict_get_default d k dflt)) k' dflt =
  dict_get_default d k' dflt.
Proof.
  destruct (eqb_spec k k') as [->|Hne].
  - apply get_default_set_same.
  - now apply get_default_set_other.
Qed.

Lemma Forall_dict_set (P : K * V -> Prop) (d : dict K V) k v :
  Forall P d -> P (k, v) -> Forall P (dict_set d k v).
Proof.
  intros Hd Hp. induction Hd as [|[k0 v0] d Hx Hd IH]; simpl.
  - now constructor.
  - destruct (eqb_spec k0 k); constructor; auto. now subst.
Qed.

Lemma Forall_get_default (P : V -> Prop) (d : dict K V) k dflt :
  Forall (fun kv => P (snd kv)) d -> P dflt -> P (dict_get_default d k dflt).
Proof.
  intros Hd Hp. unfold dict_get_default.
  destruct (dict_get d k) as [v|] eqn:G; [|assumption].
  apply dict_get_Some_In in G. rewrite Forall_forall in Hd. apply (Hd _ G).
Qed.
End DefaultFacts.

Section FreqDistFacts.
Context {S : Type} `{Hashable S}.

Lemma fd_count_inc (fd : FreqDist S) (s s' : S) (n : Z) :
  fd_count (fd_inc fd s n) s' = fd_count fd s' + (if eqb s s' then n else 0).
Proof.
  unfold fd_count, fd_inc. destruct (eqb_spec s s') as [->|Hne].
  - now rewrite get_default_set_same.
  - rewrite get_default_set_other by assumption. lia.
Qed.

Lemma fd_N_set (fd : FreqDist S) (s : S) (c : Z) :
  fd_N (dict_set fd s c) = fd_N fd - fd_count fd s + c.
Proof.
  unfold fd_N, fd_count, dict_get_default, dict_values.
  induction fd as [|[s0 c0] fd IH]; simpl; [lia|].
  destruct (eqb s0 s); simpl; [lia|]. rewrite IH. lia.
Qed.

Lemma fd_N_inc (fd : FreqDist S) (s : S) (n : Z) :
  fd_N (fd_inc fd s n) = fd_N fd + n.
Proof. unfold fd_inc. rewrite fd_N_set. lia. Qed.

Lemma nonneg_inc (fd : FreqDist S) (s : S) (n : Z) :
  nonneg_table fd -> 0 <= n -> nonneg_table (fd_inc fd s n).
Proof.
  intros Hfd Hn. unfold fd_inc. apply Forall_dict_set; [assumption|]. simpl.
  assert (0 <= fd_count fd s); [|lia].
  unfold fd_count. now apply (Forall_get_default (fun c => 0 <= c)).
Qed.

Lemma nonneg_count (fd : FreqDist S) (s : S) :
  nonneg_table fd -> 0 <= fd_count fd s.
Proof.
  intros Hfd. unfold fd_count. now apply (Forall_get_default (fun c => 0 <= c)).
Qed.

Lemma nonneg_N (fd : FreqDist S) : nonneg_table fd -> 0 <= fd_N fd.
Proof.
  unfold fd_N, dict_values. induction 1 as [|[s c] fd Hc _ IH]; simpl in *; lia.
Qed.
End FreqDistFacts.

Lemma nonneg_default (t : Tables) (k : label * fname) :
  counts_nonneg t -> nonneg_table (dict_get_default (feature_freqdist t) k []).
Proof.
  intros [_ Hf]. apply (Forall_get_default (fun fd => nonneg_table fd)); [assumption|].
  constructor.
Qed.

(** One frequency goes up by a positive amount and the value is recorded. *)
Lemma bump_keeps_union (t t' : Tables) (l : label) (f : fname) (v : fval) (n : Z) :
  0 < n ->
  (forall l' f' v', 0 <= freq t l' f' v') ->
  (forall l' f' v',
      freq t' l' f' v' =
      freq t l' f' v' + (if eqb (l', f') (l, f) && eqb v' v then n else 0)) ->
  (forall f', values_of t' f' =
              if eqb f' f then set_add (values_of t f) v else values_of t f') ->
  values_are_union t -> values_are_union t'.
Proof.
  intros Hn Hpos Hfreq Hvals Hu f'. destruct (Hu f') as [Hnd Hin].
  rewrite Hvals. destruct (eqb_spec f' f) as [->|Hne].
  - split; [now apply set_add_NoDup|]. intros v'.
    rewrite set_add_In, Hin. split.
    + intros [->|[l' Hl']].
      * exists l. rewrite Hfreq, !eqb_refl. simpl. specialize (Hpos l f v). lia.
      * exists l'. rewrite Hfreq. destruct (_ && _); lia.
    + intros [l' Hl']. rewrite Hfreq in Hl'.
      destruct (eqb (l', f) (l, f) && eqb v' v) eqn:E.
      * left. apply andb_true_iff in E. destruct E as [_ E]. now apply eqb_eq in E.
      * right. exists l'. lia.
  - split; [assumption|]. intros v'. rewrite Hin.
    split; intros [l' Hl']; exists l'.
    + rewrite Hfreq. destruct (_ && _); lia.
    + rewrite Hfreq in Hl'.
      replace (eqb (l', f') (l, f)) with false in Hl'; [simpl in Hl'; lia|].
      symmetry. apply eqb_neq. congruence.
Qed.

Lemma freq_nonneg (t : Tables) l f v : counts_nonneg t -> 0 <= freq t l f v.
Proof. intros Ht. unfold freq. apply nonneg_count. now apply nonneg_default. Qed.

Lemma freq_bump (ffd : dict (label * fname) (FreqDist fval)) l f v n l' f' v' :
  fd_count (dict_get_default
              (dict_set ffd (l, f) (fd_inc (dict_get_default ffd (l, f) []) v n))
              (l', f') []) v' =
  fd_count (dict_get_default ffd (l', f') []) v' +
  (if eqb (l', f') (l, f) && eqb v' v then n else 0).
Proof.
  destruct (eqb_spec (l', f') (l, f)) as [E|Hne].
  - injection E as -> ->. rewrite get_default_set_same, fd_count_inc.
    now rewrite (eqb_sym v v').
  - rewrite get_default_set_other by congruence. simpl. lia.
Qed.

Lemma values_bump (fvs : dict fname (list fval)) f v f' :
  dict_get_default (dict_set fvs f (set_add (dict_get_default fvs f []) v)) f' [] =
  if eqb f' f then set_add (dict_get_default fvs f []) v
  else dict_get_default fvs f' [].
Proof.
  destruct (eqb_spec f' f) as [->|Hne].
  - apply get_default_set_same.
  - apply get_default_set_other. congruence.
Qed.

Lemma counts_nonneg_bump (t : Tables) l f v n lfd fvs fns :
  counts_nonneg t -> 0 <= n -> nonneg_table lfd ->
  counts_nonneg
    {| label_freqdist := lfd;
       feature_freqdist :=
         dict_set (feature_freqdist t) (l, f)
           (fd_inc (dict_get_default (feature_freqdist t) (l, f) []) v n);
       feature_values := fvs;
       fnames := fns |}.
Proof.
  intros Ht Hn Hl. split; [assumption|]. simpl.
  apply Forall_dict_set; [apply Ht|]. simpl.
  apply nonneg_inc; [now apply nonneg_default | assumption].
Qed.

Lemma count_feature_inv (l : label) (t : Tables) (fv : fname * fval) :
  counts_nonneg t /\ values_are_union t ->
  counts_nonneg (count_feature l t fv) /\ values_are_union (count_feature l t fv).
Proof.
  intros [Hc Hu]. split.
  - apply counts_nonneg_bump; [assumption | lia | apply Hc].
  - apply bump_keeps_union with (t := t) (l := l) (f := fst fv) (v := snd fv) (n := 1).
    + lia.
    + intros. now apply freq_nonneg.
    + intros. apply freq_bump.
    + intros. apply values_bump.
    + assumption.
Qed.

Lemma count_example_inv (t : Tables) (ex : dict fname fval * label) :
  counts_nonneg t /\ values_are_union t ->
  counts_nonneg (count_example t ex) /\ values_are_union (count_example t ex).
Proof.
  intros [Hc Hu]. unfold count_example.
  set (t0 := {| label_freqdist := fd_inc (label_freqdist t) (snd ex) 1;
                feature_freqdist := feature_freqdist t;
                feature_values := feature_values t;
                fnames := fnames t |}).
  assert (H0 : counts_nonneg t0 /\ values_are_union t0).
  { split.
    - split; [|apply Hc]. simpl. apply nonneg_inc; [apply Hc | lia].
    - exact Hu. }
  clearbody t0. clear Hc Hu. revert t0 H0.
  induction (fst ex) as [|fv fs IH]; intros t0 H0; simpl; [assumption|].
  apply IH. now apply count_feature_inv.
Qed.

Lemma impute_feature_inv (l : label) (ns : Z) (t : Tables) (f : fname) :
  counts_nonneg t /\ values_are_union t ->
  counts_nonneg (impute_feature l ns t f) /\
  values_are_union (impute_feature l ns t f).
Proof.
  intros [Hc Hu]. unfold impute_feature.
  destruct (Z.ltb_spec 0 (ns - fd_N (dict_get_default (feature_freqdist t) (l, f) []))).
  - split.
    + apply counts_nonneg_bump; [assumption | lia | apply Hc].
    + eapply bump_keeps_union with (t := t) (l := l) (f := f) (v := None); eauto.
      * intros. now apply freq_nonneg.
      * intros. apply freq_bump.
      * intros. apply values_bump.
  - split.
    + split; [apply Hc|]. simpl. apply Forall_dict_set; [apply Hc|].
      simpl. now apply nonneg_default.
    + intros f'. destruct (Hu f') as [Hnd Hin]. split; [exact Hnd|].
      intros v. rewrite Hin. unfold freq. simpl.
      split; intros [l' Hl']; exists l'; now rewrite get_default_set_id in *.
Qed.

Section AnyIterationOrder.
Context `{SetOrder}.

Lemma impute_label_inv (t : Tables) (l : label) :
  counts_nonneg t /\ values_are_union t ->
  counts_nonneg (impute_label t l) /\ values_are_union (impute_label t l).
Proof.
  unfold impute_label. generalize (fd_count (label_freqdist t) l) as ns.
  intros ns. generalize (set_iter _ (fnames t)) as fs. intros fs. revert t.
  induction fs as [|f fs IH]; intros t Ht; simpl; [assumption|].
  apply IH. now apply impute_feature_inv.
Qed.

Lemma count_tables_inv (exs : list (dict fname fval * label)) :
  counts_nonneg (count_tables exs) /\ values_are_union (count_tables exs).
Proof.
  unfold count_tables.
  assert (H1 : counts_nonneg (fold_left count_example exs no_tables) /\
               values_are_union (fold_left count_example exs no_tables)).
  { assert (H0 : counts_nonneg no_tables /\ values_are_union no_tables).
    { split; [split; constructor|]. intros f. split; [constructor|].
      intros v. split; [intros []|]. intros [l Hl]. cbv in Hl. discriminate. }
    revert H0. generalize no_tables as t. induction exs as [|ex exs IH];
      intros t Ht; simpl; [assumption|].
    apply IH. now apply count_example_inv. }
  revert H1. generalize (fold_left count_example exs no_tables) as t. intros t.
  generalize (dict_keys (label_freqdist t)) as ls. intros ls. revert t.
  induction ls as [|l ls IH]; intros t Ht; simpl; [assumption|].
  apply IH. now apply impute_label_inv.
Qed.

(** ** Training: the distributions fitted from the tables *)

Section Fitting.
Context `{Numerics}.

Lemma fit_raise (estimator : Estimator) (t : Tables) its e :
  fold_left
    (fun acc item =>
       feature_probdist <- acc ;;
       probdist <- estimator fval _ (snd item)
                     (Some (bins_of t (snd (fst item)))) ;;
       Ok (dict_set feature_probdist (fst item) probdist))
    its (Raise e) = Raise e.
Proof. induction its as [|it its IH]; simpl; auto. Qed.

Lemma fit_fold (estimator : Estimator) (t : Tables) its fp0 fp k pd :
  fold_left
    (fun acc item =>
       feature_probdist <- acc ;;
       probdist <- estimator fval _ (snd item)
                     (Some (bins_of t (snd (fst item)))) ;;
       Ok (dict_set feature_probdist (fst item) probdist))
    its (Ok fp0) = Ok fp ->
  dict_get fp k = Some pd ->
  dict_get fp0 k = Some pd \/
  exists fd, In (k, fd) its /\
             estimator fval _ fd (Some (bins_of t (snd k))) = Ok pd.
Proof.
  revert fp0. induction its as [|[k1 fd1] its IH]; intros fp0 Hfold Hget.
  - simpl in Hfold. injection Hfold as <-. now left.
  - cbn [fold_left bind fst snd] in Hfold.
    destruct (estimator fval _ fd1 (Some (bins_of t (snd k1)))) as [pd1|e] eqn:E.
    + cbn [bind] in Hfold. destruct (IH _ Hfold Hget) as [G | [fd [Hin Hest]]].
      * destruct (eqb_spec k1 k) as [->|Hne].
        -- rewrite dict_get_set_same in G. injection G as <-.
           right. exists fd1. split; [now left | exact E].
        -- rewrite dict_get_set_other in G by assumption. now left.
      * right. exists fd. split; [now right | exact Hest].
    + cbn [bind] in Hfold. rewrite fit_raise in Hfold. discriminate.
Qed.

Lemma train_inv (estimator : Estimator) exs m :
  train estimator exs = Ok m ->
  exists lp fp,
    estimator label _ (label_freqdist (count_tables exs)) None = Ok lp /\
    fit_features estimator (count_tables exs) = Ok fp /\
    m = init lp fp.
Proof.
  unfold train. intros Ht.
  destruct (estimator label _ _ None) as [lp|e]; [|discriminate].
  cbn [bind] in Ht.
  destruct (fit_features estimator (count_tables exs)) as [fp|e]; [|discriminate].
  cbn [bind] in Ht. injection Ht as <-. now exists lp, fp.
Qed.

(** Every conditional distribution of a trained model was fitted by the
    estimator with [bins] equal to the number of values recorded for its
    feature name, whatever the label; the values recorded for a feature
    name are, without repetition, the values that have a positive
    frequency under some label, [None] included when imputation counted
    it. *)
Lemma fitted_with_shared_bins (estimator : Estimator)
    (exs : list (dict fname fval * label)) (m : NaiveBayesClassifier)
    (l : label) (f : fname) (pd : ProbDistI fval) :
  train estimator exs = Ok m ->
  dict_get (_feature_probdist m) (l, f) = Some pd ->
  (exists fd,
      In ((l, f), fd) (feature_freqdist (count_tables exs)) /\
      estimator fval _ fd
        (Some (Z.of_nat (List.length (values_of (count_tables exs) f)))) = Ok pd) /\
  NoDup (values_of (count_tables exs) f) /\
  (forall v, In v (values_of (count_tables exs) f) <->
             exists l', 0 < freq (count_tables exs) l' f v).
Proof.
  intros Ht Hget. apply train_inv in Ht. destruct Ht as [lp [fp [_ [Hfit ->]]]].
  simpl in Hget. split.
  - unfold fit_features in Hfit.
    destruct (fit_fold _ _ _ _ _ _ _ Hfit Hget) as [G | Hex]; [discriminate|].
    exact Hex.
  - apply count_tables_inv.
Qed.

Lemma ELEProbDist_prob {S} `{Hashable S} (fd : FreqDist S) (b : Z) pd s :
  ELEProbDist S _ fd (Some b) = Ok pd ->
  prob pd s = ele_prob (fd_count fd s) (fd_N fd) b.
Proof.
  unfold ELEProbDist. destruct (b <? fd_B fd); [discriminate|].
  now intros [= <-].
Qed.

End Fitting.

(** ** The table of scores *)

Section ScoreTable.
Context `{Numerics}.

Lemma add_to_keys (tbl : dict label float) l x :
  dict_keys (add_to tbl l x) = dict_keys tbl.
Proof.
  unfold add_to. destruct (dict_get tbl l) as [old|] eqn:G; [|reflexivity].
  apply dict_keys_set_present. apply dict_get_Some_In in G.
  unfold dict_keys. now apply (in_map fst) in G.
Qed.

Lemma add_to_Forall (P : float -> Prop) (tbl : dict label float) l x :
  (forall old, P old -> P (float_add old x)) ->
  Forall (fun kv => P (snd kv)) tbl ->
  Forall (fun kv => P (snd kv)) (add_to tbl l x).
Proof.
  intros Hx Ht. unfold add_to. destruct (dict_get tbl l) as [old|] eqn:G; [|assumption].
  apply Forall_dict_set; [assumption|]. simpl. apply Hx.
  apply dict_get_Some_In in G. rewrite Forall_forall in Ht. apply (Ht _ G).
Qed.

Lemma prior_table_keys (lp : ProbDistI label) (ls : list label)
    (tbl : dict label float) (l : label) :
  In l (dict_keys (fold_left (fun tbl l => dict_set tbl l (logprob lp l)) ls tbl)) <->
  In l (dict_keys tbl) \/ In l ls.
Proof.
  revert tbl. induction ls as [|l0 ls IH]; intros tbl; simpl; [tauto|].
  rewrite IH, dict_keys_set_In. intuition.
Qed.

Lemma prior_table_NoDup (lp : ProbDistI label) (ls : list label)
    (tbl : dict label float) :
  NoDup (dict_keys tbl) ->
  NoDup (dict_keys (fold_left (fun tbl l => dict_set tbl l (logprob lp l)) ls tbl)).
Proof.
  revert tbl. induction ls as [|l0 ls IH]; intros tbl Hn; simpl; [assumption|].
  apply IH. now apply dict_set_NoDup.
Qed.

Lemma prior_table_Forall (P : float -> Prop) (lp : ProbDistI label)
    (ls : list label) (tbl : dict label float) :
  (forall l, P (logprob lp l)) ->
  Forall (fun kv => P (snd kv)) tbl ->
  Forall (fun kv => P (snd kv))
         (fold_left (fun tbl l => dict_set tbl l (logprob lp l)) ls tbl).
Proof.
  intros Hp. revert tbl. induction ls as [|l0 ls IH]; intros tbl Ht; simpl; [assumption|].
  apply IH. apply Forall_dict_set; [assumption | apply Hp].
Qed.

Lemma accumulate_keys (term : label -> fname -> fval -> float)
    (fs : dict fname fval) (ls : list label) (tbl : dict label float) :
  dict_keys
    (fold_left
       (fun tbl l =>
          fold_left (fun tbl fv => add_to tbl l (term l (fst fv) (snd fv))) fs tbl)
       ls tbl) = dict_keys tbl.
Proof.
  revert tbl. induction ls as [|l ls IH]; intros tbl; simpl; [reflexivity|].
  rewrite IH. clear IH. revert tbl.
  induction fs as [|fv fs IH]; intros tbl; simpl; [reflexivity|].
  now rewrite IH, add_to_keys.
Qed.

Lemma accumulate_Forall (P : float -> Prop)
    (term : label -> fname -> fval -> float)
    (fs : dict fname fval) (ls : list label) (tbl : dict label float) :
  (forall x y, P x -> P y -> P (float_add x y)) ->
  (forall l f v, P (term l f v)) ->
  Forall (fun kv => P (snd kv)) tbl ->
  Forall (fun kv => P (snd kv))
    (fold_left
       (fun tbl l =>
          fold_left (fun tbl fv => add_to tbl l (term l (fst fv) (snd fv))) fs tbl)
       ls tbl).
Proof.
  intros Hadd Hterm. revert tbl.
  induction ls as [|l ls IH]; intros tbl Ht; simpl; [assumption|].
  apply IH. clear IH. revert tbl Ht.
  induction fs as [|fv fs IH]; intros tbl Ht; simpl; [assumption|].
  apply IH. apply add_to_Forall; [|assumption].
  intros old Ho. now apply Hadd.
Qed.

Lemma score_table_with_keys (term : label -> fname -> fval -> float)
    (self : NaiveBayesClassifier) (fs : dict fname fval) :
  NoDup (dict_keys (score_table_with term self fs)) /\
  forall l, In l (dict_keys (score_table_with term self fs)) <-> In l (_labels self).
Proof.
  unfold score_table_with. rewrite accumulate_keys. split.
  - apply prior_table_NoDup. constructor.
  - intros l. rewrite prior_table_keys. simpl. tauto.
Qed.

Lemma score_table_with_Forall (P : float -> Prop)
    (term : label -> fname -> fval -> float)
    (self : NaiveBayesClassifier) (fs : dict fname fval) :
  (forall x y, P x -> P y -> P (float_add x y)) ->
  (forall l, P (logprob (_label_probdist self) l)) ->
  (forall l f v, P (term l f v)) ->
  Forall (fun kv => P (snd kv)) (score_table_with term self fs).
Proof.
  intros Hadd Hprior Hterm. unfold score_table_with.
  apply accumulate_Forall; auto.
  apply prior_table_Forall; auto.
Qed.
End ScoreTable.

(** ** Exact arithmetic: the scores form a distribution *)

Lemma sumQ_const {A} (c : Q) (l : list A) :
  (sumQ (map (fun _ => c) l) == inject_Z (Z.of_nat (List.length l)) * c)%Q.
Proof.
  induction l as [|x l IH]; [simpl; ring|].
  cbn [map sumQ fold_right List.length]. fold (sumQ (map (fun _ => c) l)).
  rewrite IH, Nat2Z.inj_succ, <- Z.add_1_r, inject_Z_plus. ring.
Qed.

Lemma sumQ_scaled (s : Q) (l : list Q) :
  (sumQ (map (fun p => p / s) l) == sumQ l / s)%Q.
Proof.
  induction l as [|x l IH]; simpl.
  - unfold Qdiv. ring.
  - fold (sumQ (map (fun p => p / s)%Q l)). fold (sumQ l). rewrite IH.
    unfold Qdiv. ring.
Qed.

Lemma sumQ_nonneg (l : list Q) :
  Forall (fun p => 0 <= p)%Q l -> (0 <= sumQ l)%Q.
Proof.
  induction 1 as [|x l Hx _ IH]; simpl; [discriminate|].
  fold (sumQ l). rewrite <- (Qplus_0_l 0). now apply Qplus_le_compat.
Qed.

Lemma sumQ_bounds (l : list Q) (p : Q) :
  Forall (fun p => 0 <= p)%Q l -> In p l -> (p <= sumQ l)%Q.
Proof.
  induction 1 as [|x l Hx Hl IH]; simpl; [tauto|]. fold (sumQ l).
  intros [->|Hin].
  - rewrite <- (Qplus_0_r p) at 1. apply Qplus_le_compat; [apply Qle_refl|].
    now apply sumQ_nonneg.
  - rewrite <- (Qplus_0_l p). apply Qplus_le_compat; auto.
Qed.

Lemma exact_normalize_distribution (tbl : dict label Q) :
  tbl <> [] ->
  Forall (fun kv => 0 <= snd kv)%Q tbl ->
  exists d,
    exact_normalize tbl = Ok d /\
    dict_keys d = dict_keys tbl /\
    Forall (fun kv => 0 <= snd kv /\ snd kv <= 1)%Q d /\
    (sumQ (dict_values d) == 1)%Q.
Proof.
  intros Hne Hpos. unfold exact_normalize.
  destruct tbl as [|kv0 tbl0] eqn:Et; [congruence|]. rewrite <- Et in *.
  assert (Hlen : (0 < inject_Z (Z.of_nat (List.length tbl)))%Q).
  { rewrite Et. simpl List.length. change 0%Q with (inject_Z 0).
    rewrite <- Zlt_Qlt. lia. }
  destruct (Qle_bool (sumQ (dict_values tbl)) 0) eqn:E; eexists; (split; [reflexivity|]).
  - split; [|split].
    + unfold dict_keys. rewrite map_map. reflexivity.
    + apply Forall_forall. intros kv Hkv. apply in_map_iff in Hkv.
      destruct Hkv as [kv' [<- _]]. cbn [snd]. split.
      * apply Qle_shift_div_l; [assumption|]. rewrite Qmult_0_l. discriminate.
      * apply Qle_shift_div_r; [assumption|]. rewrite Qmult_1_l.
        rewrite Et. simpl List.length.
        change 1%Q with (inject_Z 1). rewrite <- Zle_Qle. lia.
    + unfold dict_values. rewrite map_map. cbn [snd].
      rewrite sumQ_const. field.
      intros Z. rewrite Z in Hlen. discriminate.
  - assert (Hs : (0 < sumQ (dict_values tbl))%Q).
    { apply Qnot_le_lt. intros L. apply Qle_bool_iff in L. congruence. }
    assert (Hv : Forall (fun p => 0 <= p)%Q (dict_values tbl)).
    { unfold dict_values. apply Forall_forall. intros p Hp.
      apply in_map_iff in Hp. destruct Hp as [kv [<- Hkv]].
      rewrite Forall_forall in Hpos. now apply Hpos. }
    split; [|split].
    + unfold dict_keys. rewrite map_map. reflexivity.
    + apply Forall_forall. intros kv Hkv. apply in_map_iff in Hkv.
      destruct Hkv as [kv' [<- Hin]]. cbn [snd].
      rewrite Forall_forall in Hpos. split.
      * apply Qle_shift_div_l; [assumption|]. rewrite Qmult_0_l. now apply Hpos.
      * apply Qle_shift_div_r; [assumption|]. rewrite Qmult_1_l.
        apply sumQ_bounds; [assumption|]. unfold dict_values. now apply in_map.
    + unfold dict_values at 1. rewrite map_map. cbn [snd].
      rewrite <- (map_map snd (fun p => p / sumQ (dict_values tbl))%Q).
      fold (dict_values tbl). rewrite sumQ_scaled. field.
      intros Z. rewrite Z in Hs. discriminate.
Qed.

(** ** Training: the tables, read off the examples *)

Lemma count_feature_frame (l : label) (fs : dict fname fval) (t : Tables) :
  label_freqdist (fold_left (count_feature l) fs t) = label_freqdist t.
Proof. revert t. induction fs as [|fv fs IH]; intros t; simpl; [reflexivity|]. now rewrite IH. Qed.

Lemma total_bump (ffd : dict (label * fname) (FreqDist fval)) l f v n l' f' :
  fd_N (dict_get_default
          (dict_set ffd (l, f) (fd_inc (dict_get_default ffd (l, f) []) v n))
          (l', f') []) =
  fd_N (dict_get_default ffd (l', f') []) + (if eqb (l', f') (l, f) then n else 0).
Proof.
  destruct (eqb_spec (l', f') (l, f)) as [E|Hne].
  - injection E as -> ->. now rewrite get_default_set_same, fd_N_inc.
  - rewrite get_default_set_other by congruence. lia.
Qed.

Lemma eqb_triple (l l' : label) (f f' : fname) (v v' : fval) :
  eqb (l', f') (l, f) && eqb v' v =
  eqb l l' && eqb ((f, v) : fname * fval) (f', v').
Proof.
  destruct (eqb_spec (l', f') (l, f)) as [E|E], (eqb_spec v' v) as [E'|E'],
           (eqb_spec l l') as [E1|E1], (eqb_spec (f, v) (f', v')) as [E2|E2];
    simpl; try reflexivity; exfalso; congruence.
Qed.

Lemma eqb_pair_split (l l' : label) (f f' : fname) :
  eqb (l', f') (l, f) = eqb l l' && eqb f f'.
Proof.
  destruct (eqb_spec (l', f') (l, f)) as [E|E],
           (eqb_spec l l') as [E1|E1], (eqb_spec f f') as [E2|E2];
    simpl; try reflexivity; exfalso; congruence.
Qed.

Lemma count_features_freq (l0 : label) (fs : dict fname fval) (t : Tables) l f v :
  freq (fold_left (count_feature l0) fs t) l f v =
  freq t l f v +
  (if eqb l0 l then sumZ (map (fun fv => indicator (eqb fv (f, v))) fs) else 0).
Proof.
  revert t. induction fs as [|[f1 v1] fs IH]; intros t.
  - cbn [fold_left map sumZ fold_right]. destruct (eqb l0 l); lia.
  - cbn [fold_left]. rewrite IH. unfold freq at 1, count_feature.
    cbn [feature_freqdist fst snd]. rewrite freq_bump, eqb_triple.
    fold (freq t l f v). cbn [map sumZ fold_right]. unfold indicator, sumZ.
    destruct (eqb l0 l); cbn [andb]; [|lia].
    match goal with |- context [if ?b then 1 else 0] => destruct b end; lia.
Qed.

Lemma count_features_total (l0 : label) (fs : dict fname fval) (t : Tables) l f :
  total (fold_left (count_feature l0) fs t) l f =
  total t l f +
  (if eqb l0 l then sumZ (map (fun fv => indicator (eqb (fst fv) f)) fs) else 0).
Proof.
  revert t. induction fs as [|[f1 v1] fs IH]; intros t.
  - cbn [fold_left map sumZ fold_right]. destruct (eqb l0 l); lia.
  - cbn [fold_left]. rewrite IH. unfold total at 1, count_feature.
    cbn [feature_freqdist fst snd]. rewrite total_bump, eqb_pair_split.
    fold (total t l f). cbn [map sumZ fold_right fst]. unfold indicator, sumZ.
    destruct (eqb l0 l); cbn [andb]; [|lia].
    match goal with |- context [if ?b then 1 else 0] => destruct b end; lia.
Qed.

Lemma count_features_fnames (l0 : label) (fs : dict fname fval) (t : Tables) f :
  (NoDup (fnames t) -> NoDup (fnames (fold_left (count_feature l0) fs t))) /\
  (In f (fnames (fold_left (count_feature l0) fs t)) <->
   In f (fnames t) \/ existsb (fun fv => eqb (fst fv) f) fs = true).
Proof.
  revert t. induction fs as [|[f1 v1] fs IH]; intros t.
  - simpl. intuition discriminate.
  - cbn [fold_left existsb]. destruct (IH (count_feature l0 t (f1, v1))) as [IH1 IH2].
    split.
    + intros Hn. apply IH1. simpl. now apply set_add_NoDup.
    + rewrite IH2. cbn [count_feature fnames fst]. rewrite set_add_In, orb_true_iff.
      cbn [fst]. rewrite eqb_eq. intuition.
Qed.

Lemma count_features_keys (l0 : label) (fs : dict fname fval) (t : Tables) k :
  (NoDup (dict_keys (feature_freqdist t)) ->
   NoDup (dict_keys (feature_freqdist (fold_left (count_feature l0) fs t)))) /\
  (In k (dict_keys (feature_freqdist (fold_left (count_feature l0) fs t))) <->
   In k (dict_keys (feature_freqdist t)) \/
   (fst k = l0 /\ existsb (fun fv => eqb (fst fv) (snd k)) fs = true)).
Proof.
  revert t. induction fs as [|[f1 v1] fs IH]; intros t.
  - simpl. intuition discriminate.
  - cbn [fold_left existsb]. destruct (IH (count_feature l0 t (f1, v1))) as [IH1 IH2].
    split.
    + intros Hn. apply IH1. simpl. now apply dict_set_NoDup.
    + rewrite IH2. cbn [count_feature feature_freqdist fst snd].
      rewrite dict_keys_set_In, orb_true_iff. cbn [fst]. rewrite eqb_eq.
      destruct k as [kl kf]. cbn [fst snd]. intuition congruence.
Qed.

Lemma count_example_labels (t : Tables) (ex : dict fname fval * label) :
  label_freqdist (count_example t ex) = fd_inc (label_freqdist t) (snd ex) 1.
Proof. unfold count_example. now rewrite count_feature_frame. Qed.

Lemma count_examples_labels (exs : list (dict fname fval * label)) (t : Tables) :
  (forall l, fd_count (label_freqdist (fold_left count_example exs t)) l =
             fd_count (label_freqdist t) l + n_label exs l) /\
  fd_N (label_freqdist (fold_left count_example exs t)) =
    fd_N (label_freqdist t) + Z.of_nat (List.length exs) /\
  (forall l, In l (dict_keys (label_freqdist (fold_left count_example exs t))) <->
             In l (dict_keys (label_freqdist t)) \/ labelled exs l = true) /\
  (NoDup (dict_keys (label_freqdist t)) ->
   NoDup (dict_keys (label_freqdist (fold_left count_example exs t)))).
Proof.
  revert t. induction exs as [|ex exs IH]; intros t.
  - cbn [fold_left n_label labelled existsb map sumZ fold_right List.length].
    repeat split; try lia; try tauto. intuition discriminate.
  - cbn [fold_left]. destruct (IH (count_example t ex)) as [A [B [C D]]].
    rewrite count_example_labels in *. repeat split.
    + intros l. rewrite A, fd_count_inc. unfold n_label. cbn [map sumZ fold_right].
      unfold indicator, sumZ. destruct (eqb (snd ex) l); lia.
    + rewrite B, fd_N_inc. cbn [List.length]. lia.
    + rewrite C. unfold fd_inc. rewrite dict_keys_set_In.
      unfold labelled. cbn [existsb]. rewrite orb_true_iff, eqb_eq. intuition.
    + rewrite C. unfold fd_inc. rewrite dict_keys_set_In.
      unfold labelled. cbn [existsb]. rewrite orb_true_iff, eqb_eq. intuition.
    + intros Hn. apply D. unfold fd_inc. now apply dict_set_NoDup.
Qed.

Lemma count_examples_features (exs : list (dict fname fval * label)) (t : Tables) :
  (forall l f v, freq (fold_left count_example exs t) l f v =
                 freq t l f v + n_value exs l f v) /\
  (forall l f, total (fold_left count_example exs t) l f =
               total t l f + n_feature exs l f) /\
  (forall f, In f (fnames (fold_left count_example exs t)) <->
             In f (fnames t) \/ mentioned exs f = true) /\
  (NoDup (fnames t) -> NoDup (fnames (fold_left count_example exs t))) /\
  (forall k, In k (dict_keys (feature_freqdist (fold_left count_example exs t))) ->
             In k (dict_keys (feature_freqdist t)) \/
             (labelled exs (fst k) = true /\ mentioned exs (snd k) = true)) /\
  (NoDup (dict_keys (feature_freqdist t)) ->
   NoDup (dict_keys (feature_freqdist (fold_left count_example exs t)))).
Proof.
  revert t. induction exs as [|ex exs IH]; intros t.
  - cbn [fold_left n_value n_feature mentioned existsb map sumZ fold_right].
    repeat split; intros; try lia; try tauto. intuition discriminate.
  - cbn [fold_left]. destruct (IH (count_example t ex)) as [A [B [C [D [E F]]]]].
    unfold count_example in *.
    set (t0 := {| label_freqdist := fd_inc (label_freqdist t) (snd ex) 1;
                  feature_freqdist := feature_freqdist t;
                  feature_values := feature_values t;
                  fnames := fnames t |}) in *.
    split; [|split; [|split; [|split; [|split]]]].
    + intros l f v. rewrite A, count_features_freq.
      unfold n_value. cbn [map sumZ fold_right].
      change (freq t0 l f v) with (freq t l f v). unfold sumZ.
      symmetry. apply Z.add_assoc.
    + intros l f. rewrite B, count_features_total.
      unfold n_feature. cbn [map sumZ fold_right].
      change (total t0 l f) with (total t l f). unfold sumZ.
      symmetry. apply Z.add_assoc.
    + intros f. rewrite C.
      destruct (count_features_fnames (snd ex) (fst ex) t0 f) as [_ ->].
      unfold mentioned. cbn [existsb]. rewrite orb_true_iff.
      change (fnames t0) with (fnames t). tauto.
    + intros Hn. apply D.
      now apply (count_features_fnames (snd ex) (fst ex) t0 "").
    + intros k Hk. apply E in Hk.
      unfold labelled, mentioned. cbn [existsb]. rewrite !orb_true_iff.
      destruct Hk as [Hk | [Hk1 Hk2]]; [|now auto].
      apply (count_features_keys (snd ex) (fst ex) t0 k) in Hk.
      change (feature_freqdist t0) with (feature_freqdist t) in Hk.
      destruct Hk as [Hk | [Hk1 Hk2]]; [now left | right].
      rewrite <- Hk1, eqb_refl. auto.
    + intros Hn. apply F.
      now apply (count_features_keys (snd ex) (fst ex) t0 ("", "")).
Qed.

Lemma NoDup_list_prod {A B} (l : list A) (l' : list B) :
  NoDup l -> NoDup l' -> NoDup (list_prod l l').
Proof.
  intros Hl Hl'. induction Hl as [|x l Hx Hl IH]; simpl; [constructor|].
  apply NoDup_app; auto.
  - apply NoDup_map_inv with (f := snd). rewrite map_map. simpl.
    now rewrite map_id.
  - intros [a b] H1 H2. apply in_map_iff in H1. destruct H1 as [y [[= <- <-] _]].
    apply in_prod_iff in H2. tauto.
Qed.

(** *** The second loop *)

Lemma impute_feature_frame (l : label) (ns : Z) (t : Tables) (f : fname) :
  label_freqdist (impute_feature l ns t f) = label_freqdist t /\
  fnames (impute_feature l ns t f) = fnames t.
Proof. unfold impute_feature. now destruct (0 <? _). Qed.

Lemma impute_feature_total (l : label) (ns : Z) (t : Tables) (f : fname) l' f' :
  total (impute_feature l ns t f) l' f' =
  total t l' f' + (if eqb (l', f') (l, f) then Z.max 0 (ns - total t l f) else 0).
Proof.
  unfold impute_feature. fold (total t l f).
  destruct (Z.ltb_spec 0 (ns - total t l f)).
  - unfold total at 1. cbn [feature_freqdist]. rewrite total_bump.
    fold (total t l' f'). destruct (eqb (l', f') (l, f)); lia.
  - unfold total at 1. cbn [feature_freqdist]. rewrite get_default_set_id.
    fold (total t l' f'). destruct (eqb (l', f') (l, f)); lia.
Qed.

Lemma impute_feature_freq (l : label) (ns : Z) (t : Tables) (f : fname) l' f' v' :
  freq (impute_feature l ns t f) l' f' v' =
  freq t l' f' v' +
  (if eqb (l', f') (l, f) && eqb v' None then Z.max 0 (ns - total t l f) else 0).
Proof.
  unfold impute_feature. fold (total t l f).
  destruct (Z.ltb_spec 0 (ns - total t l f)).
  - unfold freq at 1. cbn [feature_freqdist]. rewrite freq_bump.
    fold (freq t l' f' v'). destruct (eqb (l', f') (l, f) && eqb v' None); lia.
  - unfold freq at 1. cbn [feature_freqdist]. rewrite get_default_set_id.
    fold (freq t l' f' v'). destruct (eqb (l', f') (l, f) && eqb v' None); lia.
Qed.

Lemma impute_feature_keys (l : label) (ns : Z) (t : Tables) (f : fname) k :
  (In k (dict_keys (feature_freqdist (impute_feature l ns t f))) <->
   k = (l, f) \/ In k (dict_keys (feature_freqdist t))) /\
  (NoDup (dict_keys (feature_freqdist t)) ->
   NoDup (dict_keys (feature_freqdist (impute_feature l ns t f)))).
Proof.
  unfold impute_feature. destruct (0 <? _); cbn [feature_freqdist];
    (split; [apply dict_keys_set_In | apply dict_set_NoDup]).
Qed.

Section ImputePairs.
Variable ns : label -> Z.

Lemma impute_pairs_frame (ps : list (label * fname)) (t : Tables) :
  label_freqdist (fold_left (impute_pair ns) ps t) = label_freqdist t /\
  fnames (fold_left (impute_pair ns) ps t) = fnames t.
Proof.
  revert t. induction ps as [|p ps IH]; intros t; simpl; [tauto|].
  destruct (IH (impute_pair ns t p)) as [-> ->]. apply impute_feature_frame.
Qed.

Lemma impute_pairs_spec (ps : list (label * fname)) (t : Tables) :
  NoDup ps ->
  (forall l f, total (fold_left (impute_pair ns) ps t) l f =
               total t l f +
               (if existsb (eqb (l, f)) ps
                then Z.max 0 (ns l - total t l f) else 0)) /\
  (forall l f v, freq (fold_left (impute_pair ns) ps t) l f v =
                 freq t l f v +
                 (if existsb (eqb (l, f)) ps && eqb v None
                  then Z.max 0 (ns l - total t l f) else 0)) /\
  (forall k, In k (dict_keys (feature_freqdist (fold_left (impute_pair ns) ps t))) <->
             In k ps \/ In k (dict_keys (feature_freqdist t))) /\
  (NoDup (dict_keys (feature_freqdist t)) ->
   NoDup (dict_keys (feature_freqdist (fold_left (impute_pair ns) ps t)))).
Proof.
  intros Hnd. revert t. induction Hnd as [|[l0 f0] ps Hp Hnd IH]; intros t.
  - cbn [fold_left existsb andb].
    split; [intros; lia|]. split; [intros; lia|].
    split; [intros k; simpl; tauto | auto].
  - cbn [fold_left]. destruct (IH (impute_pair ns t (l0, f0))) as [A [B [C D]]].
    assert (M : existsb (eqb (l0, f0)) ps = false).
    { destruct (existsb (eqb (l0, f0)) ps) eqn:E; [|reflexivity].
      apply existsb_exists in E. destruct E as [q [Hq E]].
      apply eqb_eq in E. subst q. contradiction. }
    change (impute_pair ns t (l0, f0)) with (impute_feature l0 (ns l0) t f0) in *.
    split; [|split; [|split]].
    + intros l f. rewrite A, !impute_feature_total. cbn [existsb].
      destruct (eqb_spec (l, f) (l0, f0)) as [E|E].
      * injection E as -> ->. rewrite M. cbn [orb]. lia.
      * cbn [orb]. destruct (existsb (eqb (l, f)) ps); lia.
    + intros l f v. rewrite B, impute_feature_freq, !impute_feature_total.
      cbn [existsb].
      destruct (eqb_spec (l, f) (l0, f0)) as [E|E].
      * injection E as -> ->. rewrite M. cbn [orb andb].
        destruct (eqb v None); lia.
      * cbn [orb andb]. destruct (existsb (eqb (l, f)) ps && eqb v None); lia.
    + intros k. rewrite C.
      destruct (impute_feature_keys l0 (ns l0) t f0 k) as [-> _].
      simpl. intuition.
    + intros Hn. apply D. now apply impute_feature_keys.
Qed.
End ImputePairs.

Lemma impute_labels_pairs (ls : list label) (t : Tables)
    (lfd0 : FreqDist label) (fs0 : list fname) :
  label_freqdist t = lfd0 -> fnames t = fs0 ->
  fold_left impute_label ls t =
  fold_left (impute_pair (fd_count lfd0)) (list_prod ls (set_iter _ fs0)) t.
Proof.
  revert t. induction ls as [|l ls IH]; intros t Hl Hf; [reflexivity|].
  cbn [fold_left list_prod]. rewrite fold_left_app.
  assert (E : impute_label t l =
              fold_left (impute_pair (fd_count lfd0))
                        (map (fun y => (l, y)) (set_iter _ fs0)) t).
  { unfold impute_label. rewrite Hl, Hf, fold_left_map. reflexivity. }
  rewrite E. apply IH.
  - rewrite <- Hl. apply impute_pairs_frame.
  - rewrite <- Hf. apply impute_pairs_frame.
Qed.

Lemma existsb_eqb_In {A} `{Hashable A} (x : A) (s : list A) :
  existsb (eqb x) s = true <-> In x s.
Proof. apply set_mem_spec. Qed.

(** The tables after both loops, in terms of the examples. *)
Lemma count_tables_spec (exs : list (dict fname fval * label)) :
  (forall l, fd_count (label_freqdist (count_tables exs)) l = n_label exs l) /\
  fd_N (label_freqdist (count_tables exs)) = Z.of_nat (List.length exs) /\
  (forall l, In l (dict_keys (label_freqdist (count_tables exs))) <->
             labelled exs l = true) /\
  NoDup (dict_keys (label_freqdist (count_tables exs))) /\
  (forall l f v, freq (count_tables exs) l f v = final_freq exs l f v) /\
  (forall l f, total (count_tables exs) l f = final_total exs l f) /\
  (forall l f, In (l, f) (dict_keys (feature_freqdist (count_tables exs))) <->
               labelled exs l = true /\ mentioned exs f = true) /\
  NoDup (dict_keys (feature_freqdist (count_tables exs))).
Proof.
  unfold count_tables.
  set (t1 := fold_left count_example exs no_tables).
  destruct (count_examples_labels exs no_tables) as [L1 [L2 [L3 L4]]].
  destruct (count_examples_features exs no_tables) as [F1 [F2 [F3 [F4 [F5 F6]]]]].
  fold t1 in L1, L2, L3, L4, F1, F2, F3, F4, F5, F6.
  rewrite (impute_labels_pairs _ t1 (label_freqdist t1) (fnames t1)) by reflexivity.
  set (ps := list_prod (dict_keys (label_freqdist t1)) (set_iter _ (fnames t1))).
  assert (Hl : NoDup (dict_keys (label_freqdist t1))) by (apply L4; constructor).
  assert (Hps : NoDup ps).
  { apply NoDup_list_prod; [exact Hl|].
    apply (Permutation_NoDup (Permutation_sym (set_iter_perm _ _))).
    apply F4. constructor. }
  assert (Hin : forall l f, In (l, f) ps <->
                            labelled exs l = true /\ mentioned exs f = true).
  { intros l f. unfold ps. rewrite in_prod_iff, L3. specialize (F3 f). simpl in *.
    split; intros [A B]; (split; [tauto|]).
    - apply (Permutation_in _ (set_iter_perm _ _)) in B. tauto.
    - apply (Permutation_in _ (Permutation_sym (set_iter_perm _ _))). tauto. }
  assert (Hmem : forall l f, existsb (eqb (l, f)) ps =
                             labelled exs l && mentioned exs f).
  { intros l f. apply Bool.eq_iff_eq_true.
    rewrite existsb_eqb_In, Hin, andb_true_iff. tauto. }
  destruct (impute_pairs_frame (fd_count (label_freqdist t1)) ps t1) as [P1 P2].
  destruct (impute_pairs_spec (fd_count (label_freqdist t1)) ps t1 Hps)
    as [Q1 [Q2 [Q3 Q4]]].
  rewrite P1.
  split; [intros l; rewrite L1; reflexivity|].
  split; [rewrite L2; reflexivity|].
  split; [intros l; rewrite L3; simpl; tauto|].
  split; [exact Hl|].
  split; [|split; [|split]].
  - intros l f v. rewrite Q2, Hmem, F1, F2, L1.
    change (freq no_tables l f v) with 0. change (total no_tables l f) with 0.
    change (fd_count (label_freqdist no_tables) l) with 0.
    unfold final_freq, shortfall. rewrite !Z.add_0_l.
    destruct (labelled exs l), (mentioned exs f), (eqb v None); cbn [andb];
      try lia; destruct (Z.ltb_spec 0 (n_label exs l - n_feature exs l f)); lia.
  - intros l f. rewrite Q1, Hmem, F2, L1.
    change (total no_tables l f) with 0.
    change (fd_count (label_freqdist no_tables) l) with 0.
    unfold final_total, shortfall. rewrite !Z.add_0_l.
    destruct (labelled exs l), (mentioned exs f); cbn [andb];
      try lia; destruct (Z.ltb_spec 0 (n_label exs l - n_feature exs l f)); lia.
  - intros l f. rewrite Q3, Hin. split; [|tauto].
    intros [Hk|Hk]; [exact Hk|]. apply F5 in Hk. simpl in Hk. tauto.
  - apply Q4, F6. constructor.
Qed.

(** ** Training does not depend on the order of the examples *)

Lemma sumZ_map_perm {A} (h : A -> Z) (l l' : list A) :
  Permutation l l' -> sumZ (map h l) = sumZ (map h l').
Proof. induction 1; simpl; unfold sumZ in *; lia. Qed.

Lemma existsb_perm {A} (h : A -> bool) (l l' : list A) :
  Permutation l l' -> existsb h l = existsb h l'.
Proof.
  induction 1; simpl; try congruence.
  now rewrite !orb_assoc, (orb_comm (h y)).
Qed.

Lemma forallb_perm {A} (h : A -> bool) (l l' : list A) :
  Permutation l l' -> forallb h l = forallb h l'.
Proof.
  induction 1; simpl; try congruence.
  now rewrite !andb_assoc, (andb_comm (h y)).
Qed.

Section Reordering.
Variables exs exs' : list (dict fname fval * label).
Hypothesis reordered : Permutation exs exs'.

Lemma n_label_perm l : n_label exs l = n_label exs' l.
Proof. now apply sumZ_map_perm. Qed.

Lemma n_value_perm l f v : n_value exs l f v = n_value exs' l f v.
Proof. now apply sumZ_map_perm. Qed.

Lemma n_feature_perm l f : n_feature exs l f = n_feature exs' l f.
Proof. now apply sumZ_map_perm. Qed.

Lemma labelled_perm l : labelled exs l = labelled exs' l.
Proof. now apply existsb_perm. Qed.

Lemma mentioned_perm f : mentioned exs f = mentioned exs' f.
Proof. now apply existsb_perm. Qed.

Lemma shortfall_perm l f : shortfall exs l f = shortfall exs' l f.
Proof.
  unfold shortfall.
  now rewrite labelled_perm, mentioned_perm, n_label_perm, n_feature_perm.
Qed.

Lemma count_tables_perm :
  Permutation (dict_keys (label_freqdist (count_tables exs)))
              (dict_keys (label_freqdist (count_tables exs'))) /\
  (forall l, fd_count (label_freqdist (count_tables exs)) l =
             fd_count (label_freqdist (count_tables exs')) l) /\
  fd_N (label_freqdist (count_tables exs)) =
    fd_N (label_freqdist (count_tables exs')) /\
  Permutation (dict_keys (feature_freqdist (count_tables exs)))
              (dict_keys (feature_freqdist (count_tables exs'))) /\
  (forall l f v, freq (count_tables exs) l f v = freq (count_tables exs') l f v) /\
  (forall l f, total (count_tables exs) l f = total (count_tables exs') l f) /\
  (forall f, Permutation (values_of (count_tables exs) f)
                         (values_of (count_tables exs') f)).
Proof.
  destruct (count_tables_spec exs) as [A1 [A2 [A3 [A4 [A5 [A6 [A7 A8]]]]]]].
  destruct (count_tables_spec exs') as [B1 [B2 [B3 [B4 [B5 [B6 [B7 B8]]]]]]].
  assert (Hfreq : forall l f v,
             freq (count_tables exs) l f v = freq (count_tables exs') l f v).
  { intros l f v. rewrite A5, B5. unfold final_freq.
    now rewrite n_value_perm, shortfall_perm. }
  split; [|split; [|split; [|split; [|split; [|split]]]]].
  - apply NoDup_Permutation; auto. intros l. now rewrite A3, B3, labelled_perm.
  - intros l. now rewrite A1, B1, n_label_perm.
  - rewrite A2, B2. now rewrite (Permutation_length reordered).
  - apply NoDup_Permutation; auto. intros [l f].
    now rewrite A7, B7, labelled_perm, mentioned_perm.
  - exact Hfreq.
  - intros l f. rewrite A6, B6. unfold final_total.
    now rewrite n_feature_perm, shortfall_perm.
  - intros f.
    destruct (proj2 (count_tables_inv exs) f) as [N1 I1].
    destruct (proj2 (count_tables_inv exs') f) as [N2 I2].
    apply NoDup_Permutation; auto. intros v. rewrite I1, I2.
    split; intros [l Hl]; exists l; now rewrite ?Hfreq in *.
Qed.
End Reordering.

(** ** The score of each label *)

Section LabelScores.
Context `{Numerics}.

Lemma add_to_get (tbl : dict label float) l0 x l :
  dict_get (add_to tbl l0 x) l =
  if eqb l0 l then option_map (fun old => float_add old x) (dict_get tbl l)
  else dict_get tbl l.
Proof.
  unfold add_to. destruct (eqb_spec l0 l) as [->|Hne].
  - destruct (dict_get tbl l) as [old|] eqn:G; simpl.
    + now rewrite dict_get_set_same.
    + exact G.
  - destruct (dict_get tbl l0); [|reflexivity].
    now rewrite dict_get_set_other.
Qed.

Lemma inner_get (term : label -> fname -> fval -> float) (l0 : label)
    (fs : dict fname fval) (tbl : dict label float) (l : label) :
  dict_get
    (fold_left (fun tbl fv => add_to tbl l0 (term l0 (fst fv) (snd fv))) fs tbl) l =
  if eqb l0 l
  then option_map
         (fold_left (fun acc fv => float_add acc (term l0 (fst fv) (snd fv))) fs)
         (dict_get tbl l)
  else dict_get tbl l.
Proof.
  revert tbl. induction fs as [|fv fs IH]; intros tbl; cbn [fold_left].
  - destruct (eqb l0 l); [|reflexivity]. now destruct (dict_get tbl l).
  - rewrite IH, add_to_get. destruct (eqb l0 l); [|reflexivity].
    now destruct (dict_get tbl l).
Qed.

Lemma outer_get (term : label -> fname -> fval -> float)
    (fs : dict fname fval) (ls : list label) (tbl : dict label float) (l : label) :
  NoDup ls ->
  dict_get
    (fold_left
       (fun tbl l0 =>
          fold_left (fun tbl fv => add_to tbl l0 (term l0 (fst fv) (snd fv))) fs tbl)
       ls tbl) l =
  if set_mem ls l
  then option_map
         (fold_left (fun acc fv => float_add acc (term l (fst fv) (snd fv))) fs)
         (dict_get tbl l)
  else dict_get tbl l.
Proof.
  intros Hnd. revert tbl. induction Hnd as [|l0 ls Hl0 Hnd IH]; intros tbl.
  - reflexivity.
  - cbn [fold_left]. rewrite IH, inner_get. unfold set_mem. cbn [existsb].
    rewrite (eqb_sym l l0). destruct (eqb_spec l0 l) as [->|Hne]; cbn [orb].
    + fold (set_mem ls l).
      destruct (set_mem ls l) eqn:M; [|reflexivity].
      apply set_mem_spec in M. contradiction.
    + reflexivity.
Qed.

Lemma prior_get (lp : ProbDistI label) (ls : list label)
    (tbl : dict label float) (l : label) :
  dict_get (fold_left (fun tbl l => dict_set tbl l (logprob lp l)) ls tbl) l =
  if set_mem ls l then Some (logprob lp l) else dict_get tbl l.
Proof.
  revert tbl. induction ls as [|l0 ls IH]; intros tbl; [reflexivity|].
  cbn [fold_left]. rewrite IH. unfold set_mem. cbn [existsb].
  rewrite (eqb_sym l l0). destruct (eqb_spec l0 l) as [->|Hne]; cbn [orb].
  - rewrite dict_get_set_same. now destruct (existsb (eqb l) ls).
  - now rewrite dict_get_set_other.
Qed.

(** Each label of a model whose labels are distinct gets its own score. *)
Lemma score_table_with_get (term : label -> fname -> fval -> float)
    (self : NaiveBayesClassifier) (fs : dict fname fval) (l : label) :
  NoDup (_labels self) ->
  dict_get (score_table_with term self fs) l =
  if set_mem (_labels self) l then Some (label_score term self fs l) else None.
Proof.
  intros Hnd. unfold score_table_with. rewrite outer_get, prior_get by assumption.
  now destruct (set_mem (_labels self) l).
Qed.

Lemma label_score_ext (t1 t2 : label -> fname -> fval -> float)
    (m1 m2 : NaiveBayesClassifier) (fs : dict fname fval) (l : label) :
  (forall f v, t1 l f v = t2 l f v) ->
  logprob (_label_probdist m1) l = logprob (_label_probdist m2) l ->
  label_score t1 m1 fs l = label_score t2 m2 fs l.
Proof.
  intros Ht Hp. unfold label_score. rewrite Hp.
  apply fold_left_ext. intros acc fv. now rewrite Ht.
Qed.
End LabelScores.

(** ** Training always fits a model *)

Lemma In_dict_set {K V} `{Hashable K} (d : dict K V) k v k' v' :
  In (k', v') (dict_set d k v) -> (k' = k /\ v' = v) \/ In (k', v') d.
Proof.
  induction d as [|[k0 v0] d IH]; cbn [dict_set].
  - intros [[= <- <-]|[]]. now left.
  - destruct (eqb_spec k0 k) as [->|Hne]; simpl.
    + intros [[= <- <-]|Hin]; [now left | right; now right].
    + intros [E|Hin]; [right; now left|]. destruct (IH Hin); [now left | right; now right].
Qed.

Lemma dict_get_In_NoDup {K V} `{Hashable K} (d : dict K V) k v :
  NoDup (dict_keys d) -> In (k, v) d -> dict_get d k = Some v.
Proof.
  induction d as [|[k0 v0] d IH]; simpl; [tauto|].
  intros Hnd [[= -> ->]|Hin].
  - now rewrite eqb_refl.
  - inversion Hnd as [|? ? Hk Hd]; subst.
    destruct (eqb_spec k0 k) as [->|Hne]; [|now apply IH].
    exfalso. apply Hk. unfold dict_keys. now apply (in_map fst) in Hin.
Qed.

Lemma get_default_In_or {K V} `{Hashable K} (d : dict K V) k dflt :
  In (k, dict_get_default d k dflt) d \/ dict_get_default d k dflt = dflt.
Proof.
  unfold dict_get_default. destruct (dict_get d k) as [v|] eqn:G; [left|now right].
  now apply dict_get_Some_In.
Qed.

Lemma recorded_default (t : Tables) (l : label) (f : fname) :
  samples_recorded t ->
  NoDup (dict_keys (dict_get_default (feature_freqdist t) (l, f) [])) /\
  incl (dict_keys (dict_get_default (feature_freqdist t) (l, f) [])) (values_of t f).
Proof.
  intros Hr. destruct (get_default_In_or (feature_freqdist t) (l, f) []) as [Hin | ->].
  - apply (Hr _ _ Hin).
  - split; [constructor | intros x []].
Qed.

Lemma recorded_bump (t t' : Tables) (l : label) (f : fname) (v : fval) (n : Z) :
  feature_freqdist t' =
    dict_set (feature_freqdist t) (l, f)
      (fd_inc (dict_get_default (feature_freqdist t) (l, f) []) v n) ->
  feature_values t' =
    dict_set (feature_values t) f
      (set_add (dict_get_default (feature_values t) f []) v) ->
  samples_recorded t -> samples_recorded t'.
Proof.
  intros Ef Ev Hr k fd Hin.
  assert (Hv : forall f' x, In x (values_of t f') -> In x (values_of t' f')).
  { intros f' x Hx. unfold values_of. rewrite Ev, values_bump.
    destruct (eqb_spec f' f) as [->|]; [|exact Hx].
    apply set_add_In. now right. }
  rewrite Ef in Hin. apply In_dict_set in Hin. destruct Hin as [[-> ->] | Hin].
  - destruct (recorded_default t l f Hr) as [Hnd Hincl]. split.
    + unfold fd_inc. now apply dict_set_NoDup.
    + intros x Hx. unfold fd_inc in Hx. apply dict_keys_set_In in Hx.
      cbn [snd]. destruct Hx as [->|Hx].
      * unfold values_of. rewrite Ev, get_default_set_same. apply set_add_In. now left.
      * apply Hv, Hincl, Hx.
  - destruct (Hr _ _ Hin) as [Hnd Hincl]. split; [exact Hnd|].
    intros x Hx. apply Hv, Hincl, Hx.
Qed.

Lemma recorded_touch (t t' : Tables) (l : label) (f : fname) :
  feature_freqdist t' =
    dict_set (feature_freqdist t) (l, f)
      (dict_get_default (feature_freqdist t) (l, f) []) ->
  feature_values t' = feature_values t ->
  samples_recorded t -> samples_recorded t'.
Proof.
  intros Ef Ev Hr k fd Hin. unfold values_of. rewrite Ev. fold (values_of t (snd k)).
  rewrite Ef in Hin. apply In_dict_set in Hin. destruct Hin as [[-> ->] | Hin].
  - apply (recorded_default t l f Hr).
  - apply (Hr _ _ Hin).
Qed.

Lemma count_tables_recorded (exs : list (dict fname fval * label)) :
  samples_recorded (count_tables exs).
Proof.
  unfold count_tables.
  assert (H1 : samples_recorded (fold_left count_example exs no_tables)).
  { assert (H0 : samples_recorded no_tables) by (intros k fd []).
    revert H0. generalize no_tables as t.
    induction exs as [|ex exs IH]; intros t Ht; simpl; [assumption|].
    apply IH. unfold count_example.
    assert (H0 : samples_recorded
                   {| label_freqdist := fd_inc (label_freqdist t) (snd ex) 1;
                      feature_freqdist := feature_freqdist t;
                      feature_values := feature_values t;
                      fnames := fnames t |}) by exact Ht.
    revert H0. generalize {| label_freqdist := fd_inc (label_freqdist t) (snd ex) 1;
                             feature_freqdist := feature_freqdist t;
                             feature_values := feature_values t;
                             fnames := fnames t |} as t0.
    induction (fst ex) as [|fv fs IHf]; intros t0 H0; simpl; [assumption|].
    apply IHf. eapply recorded_bump; [reflexivity | reflexivity | exact H0]. }
  revert H1. generalize (fold_left count_example exs no_tables) as t. intros t.
  generalize (dict_keys (label_freqdist t)) as ls. intros ls. revert t.
  induction ls as [|l ls IH]; intros t Ht; simpl; [assumption|].
  apply IH. unfold impute_label.
  generalize (fd_count (label_freqdist t) l) as ns. intros ns.
  revert Ht. generalize (set_iter _ (fnames t)) as fs. intros fs. revert t.
  induction fs as [|f fs IHf]; intros t Ht; simpl; [assumption|].
  apply IHf. unfold impute_feature. destruct (0 <? _).
  - eapply recorded_bump; [reflexivity | reflexivity | exact Ht].
  - eapply recorded_touch; [reflexivity | reflexivity | exact Ht].
Qed.

Section Totality.
Context `{Numerics}.

Lemma ELEProbDist_ok {S} `{Hashable S} (fd : FreqDist S) (b : Z) :
  fd_B fd <= b -> exists pd, ELEProbDist S _ fd (Some b) = Ok pd.
Proof.
  intros Hb. unfold ELEProbDist.
  destruct (Z.ltb_spec b (fd_B fd)); [lia|]. eauto.
Qed.

Lemma fit_features_ok (t : Tables) :
  samples_recorded t -> exists fp, fit_features ELEProbDist t = Ok fp.
Proof.
  intros Hr. unfold fit_features.
  assert (Hits : forall k fd, In (k, fd) (feature_freqdist t) ->
                              fd_B fd <= bins_of t (snd k)).
  { intros k fd Hin. destruct (Hr _ _ Hin) as [Hnd Hincl].
    unfold fd_B, bins_of. fold (values_of t (snd k)).
    apply Nat2Z.inj_le. unfold dict_keys in *.
    rewrite <- (length_map fst fd). now apply NoDup_incl_length. }
  revert Hits. generalize (feature_freqdist t) as its.
  generalize (@nil ((label * fname) * ProbDistI fval)) as fp0.
  intros fp0 its. revert fp0.
  induction its as [|[k fd] its IH]; intros fp0 Hits; cbn [fold_left bind]; [eauto|].
  destruct (ELEProbDist_ok fd (bins_of t (snd k))) as [pd E].
  { apply Hits. now left. }
  cbn [fst snd]. rewrite E. cbn [bind]. apply IH.
  intros k' fd' Hin. apply Hits. now right.
Qed.

(** Training with the default estimator returns a model on every input. *)
Lemma train_total (exs : list (dict fname fval * label)) :
  exists m, train ELEProbDist exs = Ok m.
Proof.
  unfold train.
  destruct (fit_features_ok (count_tables exs) (count_tables_recorded exs)) as [fp E].
  unfold ELEProbDist at 1. rewrite Z.ltb_irrefl. cbn [bind].
  rewrite E. cbn [bind]. eauto.
Qed.
End Totality.

(** ** The model fitted by the default estimator *)

Section TrainedModel.
Context `{Numerics}.

Lemma fit_keys (estimator : Estimator) (t : Tables) its fp0 fp k :
  fold_left
    (fun acc item =>
       feature_probdist <- acc ;;
       probdist <- estimator fval _ (snd item)
                     (Some (bins_of t (snd (fst item)))) ;;
       Ok (dict_set feature_probdist (fst item) probdist))
    its (Ok fp0) = Ok fp ->
  (In k (dict_keys fp) <-> In k (dict_keys fp0) \/ In k (map fst its)).
Proof.
  revert fp0. induction its as [|[k1 fd1] its IH]; intros fp0 Hfold.
  - simpl in Hfold. injection Hfold as <-. simpl. tauto.
  - cbn [fold_left bind fst snd] in Hfold.
    destruct (estimator fval _ fd1 (Some (bins_of t (snd k1)))) as [pd1|e].
    + cbn [bind] in Hfold. rewrite (IH _ Hfold), dict_keys_set_In. simpl. intuition.
    + cbn [bind] in Hfold. rewrite fit_raise in Hfold. discriminate.
Qed.

Lemma ELEProbDist_inv {S} `{Hashable S} (fd : FreqDist S) (bins : option Z) pd :
  ELEProbDist S _ fd bins = Ok pd ->
  samples pd = dict_keys fd /\
  forall s,
    prob pd s = ele_prob (fd_count fd s) (fd_N fd)
                         (match bins with Some b => b | None => fd_B fd end) /\
    logprob pd s = log_of_prob (prob pd s).
Proof.
  unfold ELEProbDist. destruct (_ <? fd_B fd); [discriminate|].
  intros [= <-]. simpl. auto.
Qed.

(** What a model trained with the default estimator holds, in terms of
    the tables. *)
Lemma trained_model_spec (exs : list (dict fname fval * label))
    (m : NaiveBayesClassifier) :
  train ELEProbDist exs = Ok m ->
  _labels m = dict_keys (label_freqdist (count_tables exs)) /\
  (forall l,
      prob (_label_probdist m) l =
        ele_prob (fd_count (label_freqdist (count_tables exs)) l)
                 (fd_N (label_freqdist (count_tables exs)))
                 (fd_B (label_freqdist (count_tables exs))) /\
      logprob (_label_probdist m) l = log_of_prob (prob (_label_probdist m) l)) /\
  (forall k, In k (dict_keys (_feature_probdist m)) <->
             In k (dict_keys (feature_freqdist (count_tables exs)))) /\
  (forall l f pd,
      dict_get (_feature_probdist m) (l, f) = Some pd ->
      forall v,
        prob pd v = ele_prob (freq (count_tables exs) l f v)
                             (total (count_tables exs) l f)
                             (bins_of (count_tables exs) f) /\
        logprob pd v = log_of_prob (prob pd v)).
Proof.
  intros Ht. apply train_inv in Ht. destruct Ht as [lp [fp [Hlp [Hfit ->]]]].
  apply ELEProbDist_inv in Hlp. destruct Hlp as [Hs Hp].
  cbn [init _labels _label_probdist _feature_probdist].
  split; [exact Hs|]. split; [exact Hp|]. split.
  - intros k. unfold fit_features in Hfit. rewrite (fit_keys _ _ _ _ _ k Hfit).
    simpl. tauto.
  - intros l f pd Hget v. unfold fit_features in Hfit.
    destruct (fit_fold _ _ _ _ _ _ _ Hfit Hget) as [G | [fd [Hin Hest]]];
      [discriminate|].
    apply ELEProbDist_inv in Hest. destruct Hest as [_ Hest].
    destruct (count_tables_spec exs) as [_ [_ [_ [_ [_ [_ [_ Hnd]]]]]]].
    apply (dict_get_In_NoDup _ _ _ Hnd) in Hin.
    unfold freq, total, dict_get_default. rewrite Hin. apply Hest.
Qed.

Lemma try_override_ext (g : Globals) (pd pd' : ProbDistI fval) l f v :
  logprob pd v = logprob pd' v ->
  try_override g pd l f v = try_override g pd' l f v.
Proof. intros E. unfold try_override. now rewrite E. Qed.

Lemma forallb_ext_in {A} (h h' : A -> bool) (l : list A) :
  (forall x, In x l -> h x = h' x) -> forallb h l = forallb h' l.
Proof.
  induction l as [|x l IH]; intros E; simpl; [reflexivity|].
  rewrite E by now left. rewrite IH; [reflexivity|]. intros; apply E; now right.
Qed.

(** Two models that hold the same distributions under the same labels, up
    to the order of the labels and of the keys, score alike. *)
Lemma same_scores (m m' : NaiveBayesClassifier) :
  NoDup (_labels m) -> NoDup (_labels m') ->
  Permutation (_labels m) (_labels m') ->
  (forall l, logprob (_label_probdist m) l = logprob (_label_probdist m') l) ->
  (forall k, In k (dict_keys (_feature_probdist m)) <->
             In k (dict_keys (_feature_probdist m'))) ->
  (forall k pd pd',
      dict_get (_feature_probdist m) k = Some pd ->
      dict_get (_feature_probdist m') k = Some pd' ->
      forall v, logprob pd v = logprob pd' v) ->
  forall g fs l,
    discard_unseen m fs = discard_unseen m' fs /\
    dict_get (score_table g m fs) l = dict_get (score_table g m' fs) l.
Proof.
  intros Hn Hn' Hperm Hprior Hkeys Hcond g fs l.
  assert (Hterm : forall l f v, feature_term g m l f v = feature_term g m' l f v).
  { intros l0 f v. unfold feature_term.
    destruct (dict_get (_feature_probdist m) (l0, f)) as [pd|] eqn:G;
      destruct (dict_get (_feature_probdist m') (l0, f)) as [pd'|] eqn:G'.
    - rewrite (try_override_ext g pd pd' l0 f v (Hcond _ _ _ G G' v)).
      now rewrite (Hcond _ _ _ G G' v).
    - exfalso. apply dict_get_None in G'. apply G', Hkeys.
      apply dict_get_Some_In in G. unfold dict_keys. now apply (in_map fst) in G.
    - exfalso. apply dict_get_None in G. apply G, Hkeys.
      apply dict_get_Some_In in G'. unfold dict_keys. now apply (in_map fst) in G'.
    - reflexivity. }
  assert (Hunseen : forall f, unseen m f = unseen m' f).
  { intros f. unfold unseen.
    rewrite (forallb_perm _ _ _ Hperm).
    apply forallb_ext_in. intros l0 _. f_equal.
    apply Bool.eq_iff_eq_true. now rewrite !dict_in_spec. }
  assert (Hd : discard_unseen m fs = discard_unseen m' fs).
  { rewrite !discard_unseen_filter. apply filter_ext. intros kv.
    now rewrite Hunseen. }
  split; [exact Hd|].
  unfold score_table. rewrite !score_table_with_get, Hd by assumption.
  unfold set_mem. rewrite (existsb_perm _ _ _ Hperm).
  destruct (existsb (eqb l) (_labels m')); [|reflexivity].
  f_equal. apply label_score_ext; auto.
Qed.
End TrainedModel.

Section OrderIndependence.
Context `{Numerics}.

Lemma fd_B_perm {S} (fd fd' : FreqDist S) :
  Permutation (dict_keys fd) (dict_keys fd') -> fd_B fd = fd_B fd'.
Proof.
  intros P. apply Permutation_length in P. unfold dict_keys in P.
  rewrite !length_map in P. unfold fd_B. now rewrite P.
Qed.

(** Training with the default estimator on a reordered list of examples
    returns a model with the same labels up to their order, the same prior
    probability for every label, conditional distributions under the same
    keys with the same probabilities and log-probabilities, and hence, for
    every feature set and override state, the same features kept and the
    same score for every label. *)
Lemma reordered_training_same_tables
    (exs exs' : list (dict fname fval * label)) (m : NaiveBayesClassifier) :
  Permutation exs exs' ->
  train ELEProbDist exs = Ok m ->
  exists m',
    train ELEProbDist exs' = Ok m' /\
    Permutation (labels m) (labels m') /\
    (forall l, prob (_label_probdist m) l = prob (_label_probdist m') l) /\
    (forall k, In k (dict_keys (_feature_probdist m)) <->
               In k (dict_keys (_feature_probdist m'))) /\
    (forall k pd pd',
        dict_get (_feature_probdist m) k = Some pd ->
        dict_get (_feature_probdist m') k = Some pd' ->
        forall v, prob pd v = prob pd' v /\ logprob pd v = logprob pd' v) /\
    (forall g fs l,
        discard_unseen m fs = discard_unseen m' fs /\
        dict_get (score_table g m fs) l = dict_get (score_table g m' fs) l).
Proof.
  intros Hperm Ht. destruct (train_total exs') as [m' Ht']. exists m'.
  split; [exact Ht'|].
  destruct (trained_model_spec exs m Ht) as [L [P [K C]]].
  destruct (trained_model_spec exs' m' Ht') as [L' [P' [K' C']]].
  destruct (count_tables_perm exs exs' Hperm) as [T1 [T2 [T3 [T4 [T5 [T6 T7]]]]]].
  destruct (count_tables_spec exs) as [_ [_ [_ [N [_ [_ [_ _]]]]]]].
  destruct (count_tables_spec exs') as [_ [_ [_ [N' [_ [_ [_ _]]]]]]].
  assert (Hlab : Permutation (_labels m) (_labels m')) by (now rewrite L, L').
  assert (Hprior : forall l,
             prob (_label_probdist m) l = prob (_label_probdist m') l).
  { intros l. rewrite (proj1 (P l)), (proj1 (P' l)), T2, T3.
    now rewrite (fd_B_perm _ _ T1). }
  assert (Hkeys : forall k, In k (dict_keys (_feature_probdist m)) <->
                            In k (dict_keys (_feature_probdist m'))).
  { intros k. rewrite K, K'. split; apply Permutation_in; [|symmetry]; exact T4. }
  assert (Hcond : forall k pd pd',
             dict_get (_feature_probdist m) k = Some pd ->
             dict_get (_feature_probdist m') k = Some pd' ->
             forall v, prob pd v = prob pd' v /\ logprob pd v = logprob pd' v).
  { intros [l f] pd pd' G G' v.
    destruct (C _ _ _ G v) as [E1 E2]. destruct (C' _ _ _ G' v) as [E1' E2'].
    assert (E : prob pd v = prob pd' v).
    { rewrite E1, E1', T5, T6. unfold bins_of.
      fold (values_of (count_tables exs) f). fold (values_of (count_tables exs') f).
      now rewrite (Permutation_length (T7 f)). }
    split; [exact E|]. now rewrite E2, E2', E. }
  split; [exact Hlab|]. split; [exact Hprior|]. split; [exact Hkeys|].
  split; [exact Hcond|].
  apply same_scores.
  - now rewrite L.
  - now rewrite L'.
  - exact Hlab.
  - intros l. rewrite (proj2 (P l)), (proj2 (P' l)). now rewrite Hprior.
  - exact Hkeys.
  - intros k pd pd' G G' v. apply (Hcond k pd pd' G G' v).
Qed.
End OrderIndependence.

(** ** Exact arithmetic: scoring with a trained model *)

Lemma ele_prob_nonneg `{Numerics} (c N B : Z) :
  0 <= c -> 0 <= N -> 0 <= B -> (0 <= ele_prob c N B)%Q.
Proof.
  intros Hc HN HB. unfold ele_prob. destruct (Z.eqb_spec B 0); [discriminate|].
  apply Qle_shift_div_l.
  - unfold Qlt, Qplus, Qmult, inject_Z. cbn [Qnum Qden]. lia.
  - rewrite Qmult_0_l. unfold Qle, Qplus, inject_Z. cbn [Qnum Qden]. lia.
Qed.

Lemma prior_table_keys_eq `{Numerics} (lp : ProbDistI label) (ls : list label)
    (tbl : dict label float) :
  NoDup (dict_keys tbl ++ ls) ->
  dict_keys (fold_left (fun tbl l => dict_set tbl l (logprob lp l)) ls tbl) =
  dict_keys tbl ++ ls.
Proof.
  revert tbl. induction ls as [|l ls IH]; intros tbl Hnd; simpl.
  - now rewrite app_nil_r.
  - assert (Hl : ~ In l (dict_keys tbl)).
    { apply NoDup_remove_2 in Hnd. intros Hin. apply Hnd, in_or_app. now left. }
    rewrite IH; rewrite dict_keys_set_absent by assumption;
      unfold dict_keys; rewrite map_app; simpl; rewrite <- app_assoc; simpl.
    + reflexivity.
    + exact Hnd.
Qed.

Section ExactScoring.
Local Existing Instance Exact.

Lemma exact_log_nonneg (p : Q) : (0 <= p)%Q -> (0 <= log_of_prob p)%Q.
Proof.
  intros Hp. unfold log_of_prob. simpl. destruct (Qeq_bool p 0); [discriminate|].
  exact Hp.
Qed.

Lemma exact_term_nonneg (g : Globals) (self : NaiveBayesClassifier) l f v :
  (forall k pd, dict_get (_feature_probdist self) k = Some pd ->
                forall v, (0 <= logprob pd v)%Q) ->
  (0 <= feature_term g self l f v)%Q.
Proof.
  intros Hc. unfold feature_term.
  destruct (dict_get (_feature_probdist self) (l, f)) as [pd|] eqn:G;
    [|discriminate].
  destruct (try_override g pd l f v) as [x|e] eqn:T; [|now apply (Hc _ _ G)].
  unfold try_override in T.
  destruct (global_item (is_frequent g) f) as [[|]|e]; simpl in T; try discriminate.
  - destruct (global_item (frequent_probdist g) (l, f)) as [p|e];
      simpl in T; [|discriminate].
    unfold math_log in T. destruct (Qle_bool p 0) eqn:E; [discriminate|].
    injection T as <-. simpl.
    apply Qlt_le_weak, Qnot_le_lt. intros L. apply Qle_bool_iff in L. congruence.
  - injection T as <-. now apply (Hc _ _ G).
Qed.

Lemma trained_logprobs_nonneg (exs : list (dict fname fval * label))
    (m : NaiveBayesClassifier) :
  train ELEProbDist exs = Ok m ->
  (forall l, (0 <= logprob (_label_probdist m) l)%Q) /\
  (forall k pd, dict_get (_feature_probdist m) k = Some pd ->
                forall v, (0 <= logprob pd v)%Q).
Proof.
  intros Ht. destruct (trained_model_spec exs m Ht) as [_ [P [_ C]]].
  destruct (count_tables_inv exs) as [Hc _]. split.
  - intros l. destruct (P l) as [E1 E2]. rewrite E2, E1.
    apply exact_log_nonneg, ele_prob_nonneg.
    + apply nonneg_count, Hc.
    + apply nonneg_N, Hc.
    + unfold fd_B. lia.
  - intros [l f] pd G v. destruct (C _ _ _ G v) as [E1 E2]. rewrite E2, E1.
    apply exact_log_nonneg, ele_prob_nonneg.
    + now apply freq_nonneg.
    + unfold total. apply nonneg_N. now apply nonneg_default.
    + unfold bins_of. lia.
Qed.

(** C1, in exact arithmetic: for a model trained on at least one example,
    every override state and every feature set, [prob_classify] returns a
    mapping with one entry for each label of the model, every entry
    between 0 and 1, and the entries add up to 1. *)
Theorem scores_form_a_distribution (g : Globals)
    (exs : list (dict fname fval * label)) (m : NaiveBayesClassifier)
    (fs : dict fname fval) :
  exs <> [] ->
  train ELEProbDist exs = Ok m ->
  exists d,
    prob_classify g m fs = Ok d /\
    dict_keys d = labels m /\
    Forall (fun kv => 0 <= snd kv /\ snd kv <= 1)%Q d /\
    (sumQ (dict_values d) == 1)%Q.
Proof.
  intros Hne Ht.
  destruct (trained_logprobs_nonneg exs m Ht) as [Hp Hc].
  destruct (trained_model_spec exs m Ht) as [L _].
  destruct (count_tables_spec exs) as [_ [_ [Hin [Hnd _]]]].
  assert (Hk : dict_keys (score_table g m fs) = _labels m).
  { unfold score_table, score_table_with. rewrite accumulate_keys.
    rewrite prior_table_keys_eq; [reflexivity|]. simpl. now rewrite L. }
  assert (Hnz : score_table g m fs <> []).
  { intros E. rewrite E in Hk. simpl in Hk.
    destruct exs as [|ex exs0]; [congruence|].
    assert (Hl : In (snd ex) (_labels m)).
    { rewrite L. apply Hin. unfold labelled. cbn [existsb].
      now rewrite eqb_refl. }
    rewrite <- Hk in Hl. exact Hl. }
  assert (Hpos : Forall (fun kv => 0 <= snd kv)%Q (score_table g m fs)).
  { unfold score_table.
    apply (@score_table_with_Forall Exact (fun x => Qle 0 x)).
    - intros x y Hx Hy. simpl. now apply Qmult_le_0_compat.
    - exact Hp.
    - intros l f v. now apply exact_term_nonneg. }
  destruct (exact_normalize_distribution _ Hnz Hpos) as [d [E [K [B S]]]].
  exists d. unfold prob_classify. simpl.
  split; [exact E|]. split; [|split; assumption].
  unfold labels. rewrite K. exact Hk.
Qed.
End ExactScoring.

(** ** Trained models have the probabilities the ranking expects *)

Section TrainedRanking.
Context `{Numerics}.

Lemma fit_fold_In (estimator : Estimator) (t : Tables) its fp0 fp k pd :
  fold_left
    (fun acc item =>
       feature_probdist <- acc ;;
       probdist <- estimator fval _ (snd item)
                     (Some (bins_of t (snd (fst item)))) ;;
       Ok (dict_set feature_probdist (fst item) probdist))
    its (Ok fp0) = Ok fp ->
  In (k, pd) fp ->
  In (k, pd) fp0 \/
  exists fd, In (k, fd) its /\
             estimator fval _ fd (Some (bins_of t (snd k))) = Ok pd.
Proof.
  revert fp0. induction its as [|[k1 fd1] its IH]; intros fp0 Hfold Hin.
  - simpl in Hfold. injection Hfold as <-. now left.
  - cbn [fold_left bind fst snd] in Hfold.
    destruct (estimator fval _ fd1 (Some (bins_of t (snd k1)))) as [pd1|e] eqn:E.
    + cbn [bind] in Hfold. destruct (IH _ Hfold Hin) as [G | [fd [Hfd Hest]]].
      * apply In_dict_set in G. destruct G as [[-> ->] | G]; [|now left].
        right. exists fd1. split; [now left | exact E].
      * right. exists fd. split; [now right | exact Hest].
    + cbn [bind] in Hfold. rewrite fit_raise in Hfold. discriminate.
Qed.

(** No probability held by a model trained with the default estimator is
    negative. *)
Lemma trained_observations_nonneg (exs : list (dict fname fval * label))
    (m : NaiveBayesClassifier) :
  train ELEProbDist exs = Ok m ->
  Forall (fun o => 0 <= snd o)%Q (observations m).
Proof.
  intros Ht. apply train_inv in Ht. destruct Ht as [lp [fp [_ [Hfit ->]]]].
  unfold observations. cbn [init _feature_probdist].
  apply Forall_forall. intros o Ho. apply in_flat_map in Ho.
  destruct Ho as [[k pd] [Hin Ho]]. cbn [fst snd] in Ho.
  apply in_map_iff in Ho. destruct Ho as [v [<- _]]. cbn [snd].
  unfold fit_features in Hfit.
  destruct (fit_fold_In _ _ _ _ _ _ _ Hfit Hin) as [[] | [fd [Hfd Hest]]].
  apply ELEProbDist_inv in Hest. destruct Hest as [_ Hest].
  rewrite (proj1 (Hest v)).
  destruct (count_tables_inv exs) as [[_ Hc] _].
  rewrite Forall_forall in Hc. specialize (Hc _ Hfd). cbn [snd] in Hc.
  apply ele_prob_nonneg.
  - now apply nonneg_count.
  - now apply nonneg_N.
  - unfold bins_of. lia.
Qed.
End TrainedRanking.

End AnyIterationOrder.

(** ** The statements at work on the running example *)

Section RunningExample.
Local Existing Instance Exact.
Local Existing Instance InsertionOrder.

Lemma demo_model_trained : train ELEProbDist demo_examples = Ok demo_model.
Proof.
unfold demo_model.
destruct (train_total demo_examples) as [m E].
now rewrite E.
Qed.

Lemma demo_model_keys :
dict_keys (_feature_probdist demo_model) = [("spam", "w"); ("ham", "w")].
Proof. vm_compute. reflexivity. Qed.

Lemma dict_in_keys {K V} `{Hashable K} (d : dict K V) (k : K) :
dict_in d k = existsb (fun k' => eqb k' k) (dict_keys d).
Proof.
unfold dict_in, dict_keys. induction d as [|kv d IH]; simpl; [reflexivity|].
now rewrite IH.
Qed.

Lemma demo_model_unknown_token (l : label) :
dict_in (_feature_probdist demo_model) (l, "unknown_token") = false.
Proof.
rewrite dict_in_keys, demo_model_keys. cbn.
now rewrite !andb_false_r.
Qed.

Lemma scores_form_a_distribution_witness :
exists d,
  prob_classify unbound demo_model [("w", Some "buy")] = Ok d /\
  dict_keys d = labels demo_model /\
  Forall (fun kv => 0 <= snd kv /\ snd kv <= 1)%Q d /\
  (sumQ (dict_values d) == 1)%Q.
Proof.
apply (scores_form_a_distribution unbound demo_examples demo_model).
- discriminate.
- exact demo_model_trained.
Defined.

(** With an override of 0 registered for the frequent feature ["w"] under
  spam, scoring [{"w": "buy"}] raises nothing and returns what it returns
  when no override exists at all. *)
Lemma zero_override_raises_nothing :
global_item (is_frequent zero_override) "w" = Ok true /\
global_item (frequent_probdist zero_override) ("spam", "w") = Ok 0%Q /\
prob_classify zero_override demo_model [("w", Some "buy")] =
  prob_classify unbound demo_model [("w", Some "buy")] /\
exists d,
  prob_classify zero_override demo_model [("w", Some "buy")] = Ok d.
Proof.
split; [reflexivity|]. split; [reflexivity|]. split.
- vm_compute. reflexivity.
- eexists. vm_compute. reflexivity.
Qed.

Lemma override_lookup_failure_falls_back_witness :
lookup_fails missing_override "spam" "w" /\
((forall v, feature_term missing_override demo_model "spam" "w" v =
            own_term demo_model "spam" "w" v) /\
 score_table missing_override demo_model [("w", Some "buy")] =
   score_table_with (without_override missing_override demo_model "spam" "w")
     demo_model (discard_unseen demo_model [("w", Some "buy")]) /\
 prob_classify missing_override demo_model [("w", Some "buy")] =
   DictionaryProbDist
     (score_table_with (without_override missing_override demo_model "spam" "w")
        demo_model (discard_unseen demo_model [("w", Some "buy")]))).
Proof.
assert (F : lookup_fails missing_override "spam" "w").
{ right. split; [reflexivity|]. exists KeyError. reflexivity. }
split; [exact F|].
apply (override_lookup_failure_falls_back missing_override
         demo_model "spam" "w" [("w", Some "buy")] F).
Defined.

Lemma unseen_feature_is_ignored_witness :
score_table unbound demo_model
  (dict_set [("w", Some "buy")] "unknown_token" (Some "x")) =
  score_table unbound demo_model [("w", Some "buy")] /\
prob_classify unbound demo_model
  (dict_set [("w", Some "buy")] "unknown_token" (Some "x")) =
  prob_classify unbound demo_model [("w", Some "buy")] /\
classify unbound demo_model
  (dict_set [("w", Some "buy")] "unknown_token" (Some "x")) =
  classify unbound demo_model [("w", Some "buy")] /\
prob_classify unbound demo_model [("unknown_token", Some "x")] =
  prob_classify unbound demo_model [].
Proof.
apply (unseen_feature_is_ignored unbound demo_model
         [("w", Some "buy")] "unknown_token" (Some "x")).
exact demo_model_unknown_token.
Defined.

(** The labels of a model are listed in the order in which the examples
  introduce them: reordering two examples reorders [labels()]. *)
Lemma labels_follow_example_order :
Permutation spam_then_ham (rev spam_then_ham) /\
trained_labels spam_then_ham = ["spam"; "ham"] /\
trained_labels (rev spam_then_ham) = ["ham"; "spam"] /\
trained_labels spam_then_ham <> trained_labels (rev spam_then_ham).
Proof.
split; [apply Permutation_rev|].
split; [vm_compute; reflexivity|].
split; [vm_compute; reflexivity|].
vm_compute. discriminate.
Qed.

Lemma demo_spam_w_found :
dict_get (_feature_probdist demo_model) ("spam", "w") = Some demo_spam_w.
Proof.
unfold demo_spam_w.
destruct (dict_get (_feature_probdist demo_model) ("spam", "w")) as [pd|] eqn:G;
  [reflexivity|].
apply dict_get_None in G. exfalso. apply G.
rewrite demo_model_keys. now left.
Qed.

(** The scenario of the specification: more spam than ham carries
    ["w" = "buy"], and the message is classified as spam. *)
Example demo_classify :
  classify unbound demo_model [("w", Some "buy")] = Ok "spam".
Proof. vm_compute. reflexivity. Qed.

Example demo_ranking :
  most_informative_features demo_model 5 =
    Ok [("w", Some "buy"); ("w", Some "hello")].
Proof. vm_compute. reflexivity. Qed.

(** A negative [n] is a slice from the end, as everywhere in Python. *)
Example demo_ranking_negative :
  most_informative_features demo_model (-1) = Ok [("w", Some "buy")].
Proof. vm_compute. reflexivity. Qed.

(** Deleting in the caller's object instead of the copy would change it. *)
Example deleting_in_place_changes_the_store :
  deref (del_item demo_store 0%nat "unknown_token") 0%nat = [("w", Some "buy")].
Proof. reflexivity. Qed.

Lemma prob_classify_keeps_argument_witness :
deref (snd (prob_classify_ref unbound demo_model 0%nat demo_store)) 0%nat =
  deref demo_store 0%nat /\
firstn (List.length demo_store)
       (snd (prob_classify_ref unbound demo_model 0%nat demo_store)) =
  demo_store /\
fst (prob_classify_ref unbound demo_model 0%nat demo_store) =
  prob_classify unbound demo_model (deref demo_store 0%nat).
Proof.
apply (prob_classify_keeps_argument unbound demo_model 0%nat demo_store).
simpl. lia.
Defined.
End RunningExample.

(** ** The override bridge: what [count] and [normal_probability] store *)

Lemma fold_left_invariant {A B} (P : A -> Prop) (f : A -> B -> A) (l : list B) (a : A) :
  (forall a x, In x l -> P a -> P (f a x)) -> P a -> P (fold_left f l a).
Proof.
  revert a. induction l as [|x l IH]; intros a Hstep Ha; simpl; [assumption|].
  apply IH.
  - intros a' y Hy. apply Hstep. now right.
  - apply Hstep; [now left | assumption].
Qed.

Lemma sumQ_dict_set {K} `{Hashable K} (d : dict K Q) (k : K) (v : Q) :
  (sumQ (dict_values (dict_set d k v)) ==
   sumQ (dict_values d) - dict_get_default d k 0 + v)%Q.
Proof.
  unfold dict_get_default, dict_values.
  induction d as [|[k0 v0] d IH]; cbn [dict_set dict_get map sumQ fold_right snd].
  - ring.
  - destruct (eqb k0 k); cbn [map sumQ fold_right snd].
    + ring.
    + fold (sumQ (map snd (dict_set d k v))). fold (sumQ (map snd d)).
      rewrite IH. ring.
Qed.

Lemma count_default_nonneg (g : Globals) (cn : dict fname Q) (f : fname) :
  Forall (fun kv => (1 <= snd kv)%Q /\
                    global_item (is_frequent g) (fst kv) = Ok true) cn ->
  (0 <= dict_get_default cn f 0)%Q.
Proof.
  intros Hc. unfold dict_get_default.
  destruct (dict_get cn f) as [v|] eqn:G; [|discriminate].
  apply dict_get_Some_In in G. rewrite Forall_forall in Hc.
  destruct (Hc _ G) as [L _]. simpl in L.
  eapply Qle_trans; [|exact L]. discriminate.
Qed.

Lemma count_step_ok (g : Globals) (acc : Q * dict fname Q) (fv : fname * fval) :
  count_ok g acc ->
  count_ok g
    (match global_item (is_frequent g) (fst fv) with
     | Ok true =>
         (fst acc + 1,
          dict_set (snd acc) (fst fv)
            (dict_get_default (snd acc) (fst fv) 0 + 1))%Q
     | Ok false => acc
     | Raise _ => acc
     end).
Proof.
  intros [Hs [Hn Hc]].
  destruct (global_item (is_frequent g) (fst fv)) as [[|]|e] eqn:G;
    try (now repeat split).
  split; [|split]; cbn [fst snd].
  - rewrite sumQ_dict_set, Hs. ring.
  - now apply dict_set_NoDup.
  - apply Forall_dict_set; [assumption|]. cbn [fst snd]. split; [|exact G].
    pose proof (count_default_nonneg g (snd acc) (fst fv) Hc) as L.
    rewrite <- (Qplus_0_l 1) at 1. apply Qplus_le_compat; [exact L | apply Qle_refl].
Qed.

Lemma count_keys (g : Globals) (fs : dict fname fval) (acc : Q * dict fname Q) (f : fname) :
  In f (dict_keys
          (snd (fold_left
                  (fun acc fv =>
                     match global_item (is_frequent g) (fst fv) with
                     | Ok true =>
                         (fst acc + 1,
                          dict_set (snd acc) (fst fv)
                            (dict_get_default (snd acc) (fst fv) 0 + 1))%Q
                     | Ok false => acc
                     | Raise _ => acc
                     end) fs acc))) <->
  In f (dict_keys (snd acc)) \/
  (In f (dict_keys fs) /\ global_item (is_frequent g) f = Ok true).
Proof.
  revert acc. induction fs as [|[f1 v1] fs IH]; intros acc; cbn [fold_left].
  - simpl. tauto.
  - rewrite IH. cbn [fst snd dict_keys map].
    destruct (global_item (is_frequent g) f1) as [[|]|e] eqn:G; cbn [snd].
    + rewrite dict_keys_set_In. unfold dict_keys. simpl In. split.
      * intros [[->|Hin]|[Hin Hf]]; auto.
      * intros [Hin|[[<-|Hin] Hf]]; auto.
    + unfold dict_keys. simpl In. split; [tauto|].
      intros [Hin|[[<-|Hin] Hf]]; auto. congruence.
    + unfold dict_keys. simpl In. split; [tauto|].
      intros [Hin|[[<-|Hin] Hf]]; auto. congruence.
Qed.

Lemma count_spec (g : Globals) (fs : dict fname fval) :
  (fst (count g fs) == sumQ (dict_values (snd (count g fs))))%Q /\
  NoDup (dict_keys (snd (count g fs))) /\
  Forall (fun kv => (1 <= snd kv)%Q) (snd (count g fs)) /\
  (forall f, In f (dict_keys (snd (count g fs))) <->
             In f (dict_keys fs) /\ global_item (is_frequent g) f = Ok true).
Proof.
  assert (Hok : count_ok g (count g fs)).
  { unfold count. apply fold_left_invariant.
    - intros acc fv _. apply count_step_ok.
    - split; [reflexivity|]. split; constructor. }
  destruct Hok as [Hs [Hn Hc]].
  split; [exact Hs|]. split; [exact Hn|]. split.
  - rewrite Forall_forall in *. intros kv Hkv. apply (Hc kv Hkv).
  - intros f. unfold count. rewrite count_keys. simpl. tauto.
Qed.

(** [count] returns, next to the table of the feature names flagged
    frequent, the sum of its entries: the names of the table are distinct
    and are exactly the names of the feature set whose flag reads [True],
    and no entry is below 1. *)
Theorem count_returns_sum_of_table (g : Globals) (fs : dict fname fval) :
  (fst (count g fs) == sumQ (dict_values (snd (count g fs))))%Q /\
  NoDup (dict_keys (snd (count g fs))) /\
  Forall (fun kv => (1 <= snd kv)%Q) (snd (count g fs)) /\
  (forall f, In f (dict_keys (snd (count g fs))) <->
             In f (dict_keys fs) /\ global_item (is_frequent g) f = Ok true).
Proof. exact (count_spec g fs). Qed.

Lemma sumQ_ones (l : list Q) :
  Forall (fun q => q == 1)%Q l -> (sumQ l == inject_Z (Z.of_nat (List.length l)))%Q.
Proof.
  induction 1 as [|x l Hx _ IH]; [reflexivity|].
  cbn [sumQ fold_right List.length]. fold (sumQ l).
  rewrite IH, Hx, Nat2Z.inj_succ, <- Z.add_1_r, inject_Z_plus. ring.
Qed.

Lemma count_unique_fold (g : Globals) (fs : dict fname fval)
    (acc : Q * dict fname Q) :
  NoDup (dict_keys fs) ->
  (forall k, In k (dict_keys (snd acc)) -> ~ In k (dict_keys fs)) ->
  Forall (fun kv => snd kv == 1)%Q (snd acc) ->
  Forall (fun kv => snd kv == 1)%Q
    (snd (fold_left
            (fun acc fv =>
               match global_item (is_frequent g) (fst fv) with
               | Ok true =>
                   (fst acc + 1,
                    dict_set (snd acc) (fst fv)
                      (dict_get_default (snd acc) (fst fv) 0 + 1))%Q
               | Ok false => acc
               | Raise _ => acc
               end) fs acc)).
Proof.
  revert acc. induction fs as [|[f1 v1] fs IH]; intros acc Hn Hd Ha; [exact Ha|].
  cbn [fold_left]. unfold dict_keys in Hn. cbn [map fst] in Hn.
  inversion Hn as [|? ? Hf1 Hn']; subst.
  assert (Hd' : forall k, In k (dict_keys (snd acc)) -> ~ In k (dict_keys fs)).
  { intros k Hk Hin. apply (Hd k Hk). unfold dict_keys. simpl. now right. }
  destruct (global_item (is_frequent g) (fst (f1, v1))) as [[|]|e]; try now apply IH.
  apply IH; [exact Hn' | |]; cbn [fst snd].
  - intros k Hk. apply dict_keys_set_In in Hk. destruct Hk as [->|Hk]; auto.
  - apply Forall_dict_set; [exact Ha|]. cbn [snd].
    assert (G : dict_get (snd acc) f1 = None).
    { apply dict_get_None. intros Hin. apply (Hd f1 Hin).
      unfold dict_keys. simpl. now left. }
    unfold dict_get_default. rewrite G. reflexivity.
Qed.

(** On a feature set, whose names are distinct, every entry of the table
    returned by [count] is 1 and the number returned is the number of
    entries. *)
Theorem count_of_distinct_names (g : Globals) (fs : dict fname fval) :
  NoDup (dict_keys fs) ->
  Forall (fun kv => snd kv == 1)%Q (snd (count g fs)) /\
  (fst (count g fs) == inject_Z (Z.of_nat (List.length (snd (count g fs)))))%Q.
Proof.
  intros Hn.
  assert (H1 : Forall (fun kv => snd kv == 1)%Q (snd (count g fs))).
  { unfold count. apply count_unique_fold; [exact Hn | intros k [] | constructor]. }
  split; [exact H1|].
  destruct (count_spec g fs) as [Hs _]. rewrite Hs.
  unfold dict_values. rewrite sumQ_ones.
  - now rewrite length_map.
  - apply Forall_forall. intros q Hq. apply in_map_iff in Hq.
    destruct Hq as [kv [<- Hkv]]. rewrite Forall_forall in H1. now apply H1.
Qed.

Lemma override_formula_ok (g : Globals) (fs : dict fname fval) (f : fname) (p : Q) :
  override_formula g (fst (count g fs)) (snd (count g fs)) f = Ok (Some p) ->
  ((0 < p)%Q /\ (p <= 1)%Q) /\
  global_item (is_frequent g) f = Ok true /\
  (exists sf, spam_frequent g = Some sf) /\
  In f (dict_keys fs).
Proof.
  destruct (count_spec g fs) as [Hs [_ [Hone Hkeys]]].
  unfold override_formula.
  destruct (global_item (is_frequent g) f) as [[|]|e] eqn:G; cbn [bind];
    try discriminate.
  unfold item. destruct (dict_get (snd (count g fs)) f) as [num|] eqn:D;
    cbn [bind]; [|discriminate].
  destruct (spam_frequent g) as [sf|] eqn:S; cbn [bound bind]; [|discriminate].
  unfold divide.
  set (den := (fst (count g fs) + inject_Z (Z.of_nat (List.length sf)))%Q).
  destruct (Qeq_bool den 0); cbn [bind]; [discriminate|].
  intros [= <-].
  apply dict_get_Some_In in D.
  assert (Hnum : (1 <= num)%Q).
  { rewrite Forall_forall in Hone. apply (Hone _ D). }
  assert (Hden : (num <= den)%Q).
  { unfold den. rewrite Hs, <- (Qplus_0_r num).
    apply Qplus_le_compat.
    - apply sumQ_bounds.
      + unfold dict_values. apply Forall_forall. intros q Hq.
        apply in_map_iff in Hq. destruct Hq as [kv [<- Hkv]].
        rewrite Forall_forall in Hone. eapply Qle_trans; [|apply (Hone _ Hkv)].
        discriminate.
      + unfold dict_values. now apply (in_map snd) in D.
    - change 0%Q with (inject_Z 0). rewrite <- Zle_Qle. lia. }
  assert (Hpos : (0 < num)%Q) by (eapply Qlt_le_trans; [|exact Hnum]; reflexivity).
  assert (Hdpos : (0 < den)%Q) by (eapply Qlt_le_trans; [exact Hpos | exact Hden]).
  split; [split|split; [reflexivity|split]].
  - apply Qlt_shift_div_l; [exact Hdpos|]. now rewrite Qmult_0_l.
  - apply Qle_shift_div_r; [exact Hdpos|]. now rewrite Qmult_1_l.
  - now exists sf.
  - apply Hkeys. unfold dict_keys. now apply (in_map fst) in D.
Qed.

Lemma normal_probability_inv (g : Globals)
    (train_set : list (dict fname fval * label)) :
  NoDup (dict_keys (normal_probability g train_set)) /\
  Forall (override_ok g train_set) (normal_probability g train_set).
Proof.
  unfold normal_probability.
  apply (fold_left_invariant
           (fun tbl => NoDup (dict_keys tbl) /\ Forall (override_ok g train_set) tbl)).
  - intros tbl [fs l] Hex Ht. cbn [fst snd].
    apply (fold_left_invariant
             (fun tbl => NoDup (dict_keys tbl) /\
                         Forall (override_ok g train_set) tbl)); [|exact Ht].
    intros tbl' fv Hfv [Hn Hf]. unfold store_override.
    rewrite override_entry_formula.
    destruct (override_formula g (fst (count g fs)) (snd (count g fs)) (fst fv))
      as [[p|]|e] eqn:E; try (split; assumption).
    split; [now apply dict_set_NoDup|].
    apply Forall_dict_set; [exact Hf|].
    destruct (override_formula_ok g fs (fst fv) p E) as [R [F [S K]]].
    unfold override_ok. cbn [fst snd]. repeat split; try tauto.
    exists fs. tauto.
  - split; constructor.
Qed.

(** Every override stored by [normal_probability] is positive and at most
    1, so [math.log] does not fail on it. *)
Theorem stored_overrides_are_probabilities `{Numerics} (g : Globals)
    (train_set : list (dict fname fval * label)) (l : label) (f : fname) (p : Q) :
  dict_get (normal_probability g train_set) (l, f) = Some p ->
  (0 < p)%Q /\ (p <= 1)%Q /\ math_log p = Ok (math_log2 p).
Proof.
  intros G. apply dict_get_Some_In in G.
  destruct (normal_probability_inv g train_set) as [_ Hf].
  rewrite Forall_forall in Hf. destruct (Hf _ G) as [[Hp Hle] _]. cbn [snd] in *.
  split; [exact Hp|]. split; [exact Hle|].
  unfold math_log. destruct (Qle_bool p 0) eqn:E; [|reflexivity].
  apply Qle_bool_iff in E. exfalso. apply (Qlt_not_le _ _ Hp E).
Qed.

(** An override is stored only for a feature name flagged frequent, under
    a label and a name that occur together in some example, and only when
    [spam_frequent] is bound; the keys of the table are distinct. *)
Theorem stored_overrides_come_from_examples (g : Globals)
    (train_set : list (dict fname fval * label)) (l : label) (f : fname) (p : Q) :
  dict_get (normal_probability g train_set) (l, f) = Some p ->
  global_item (is_frequent g) f = Ok true /\
  (exists sf, spam_frequent g = Some sf) /\
  (exists fs, In (fs, l) train_set /\ In f (dict_keys fs)) /\
  NoDup (dict_keys (normal_probability g train_set)).
Proof.
  intros G. apply dict_get_Some_In in G.
  destruct (normal_probability_inv g train_set) as [Hn Hf].
  rewrite Forall_forall in Hf. destruct (Hf _ G) as [_ [F [S E]]]. cbn [fst snd] in *.
  tauto.
Qed.

(** With [is_frequent] or [spam_frequent] unbound, as in a module that was
    imported and not run, [normal_probability] stores nothing. *)
Theorem normal_probability_without_flags (g : Globals)
    (train_set : list (dict fname fval * label)) :
  is_frequent g = None \/ spam_frequent g = None ->
  normal_probability g train_set = [].
Proof.
  intros Hu. destruct (normal_probability g train_set) as [|[[l f] p] tbl] eqn:E;
    [reflexivity|].
  destruct (normal_probability_inv g train_set) as [_ Hf].
  rewrite E in Hf. inversion Hf as [|? ? Hk _]; subst.
  destruct Hk as [_ [F [[sf S] _]]]. cbn [fst snd] in F.
  destruct Hu as [U|U].
  - rewrite U in F. discriminate.
  - rewrite U in S. discriminate.
Qed.

Section OverrideInUse.
Context `{Numerics}.

(** Once [normal_probability] has run, the amount added for a pair (label,
    feature name) that has a stored override and a distribution in the
    model is the logarithm of the override, whatever value the feature has
    in the document. *)
Theorem stored_override_replaces_estimate (g : Globals)
    (train_set : list (dict fname fval * label)) (self : NaiveBayesClassifier)
    (l : label) (f : fname) (p : Q) (pd : ProbDistI fval) (v : fval) :
  dict_get (normal_probability g train_set) (l, f) = Some p ->
  dict_get (_feature_probdist self) (l, f) = Some pd ->
  feature_term (after_normal_probability g train_set) self l f v = math_log2 p.
Proof.
  intros Gp Gm.
  destruct (normal_probability_inv g train_set) as [_ Hf].
  rewrite Forall_forall in Hf.
  destruct (Hf _ (dict_get_Some_In _ _ _ Gp)) as [[Hp _] [F _]]. cbn [fst snd] in *.
  assert (L : math_log p = Ok (math_log2 p)).
  { unfold math_log. destruct (Qle_bool p 0) eqn:E; [|reflexivity].
    apply Qle_bool_iff in E. exfalso. apply (Qlt_not_le _ _ Hp E). }
  unfold feature_term. rewrite Gm. unfold try_override.
  cbn [after_normal_probability is_frequent frequent_probdist].
  rewrite F. cbn [bind]. unfold global_item at 1. rewrite Gp. cbn [bind].
  now rewrite L.
Qed.
End OverrideInUse.

(** ** Training: more on the tables and on the fitted model *)

Lemma sumZ_cons (x : Z) (l : list Z) : sumZ (x :: l) = x + sumZ l.
Proof. reflexivity. Qed.

Lemma names_absent (fs : dict fname fval) (f : fname) :
  ~ In f (dict_keys fs) ->
  sumZ (map (fun fv => indicator (eqb (fst fv) f)) fs) = 0.
Proof.
  induction fs as [|[f1 v1] fs IH]; intros Hn; [reflexivity|].
  cbn [map fst]. rewrite sumZ_cons.
  rewrite IH by (intros Hin; apply Hn; unfold dict_keys; simpl; now right).
  destruct (eqb_spec f1 f) as [->|Hne]; [|reflexivity].
  exfalso. apply Hn. unfold dict_keys. simpl. now left.
Qed.

Lemma names_once (fs : dict fname fval) (f : fname) :
  NoDup (dict_keys fs) ->
  0 <= sumZ (map (fun fv => indicator (eqb (fst fv) f)) fs) <= 1.
Proof.
  induction fs as [|[f1 v1] fs IH]; intros Hn; [cbv; split; discriminate|].
  unfold dict_keys in Hn. cbn [map fst] in Hn. inversion Hn as [|? ? Hf1 Hn']; subst.
  cbn [map fst]. rewrite sumZ_cons.
  destruct (eqb_spec f1 f) as [->|Hne]; cbn [indicator].
  - rewrite names_absent by exact Hf1. lia.
  - specialize (IH Hn'). lia.
Qed.

Lemma features_at_most_examples (exs : list (dict fname fval * label)) l f :
  Forall (fun ex => NoDup (dict_keys (fst ex))) exs ->
  0 <= n_feature exs l f <= n_label exs l.
Proof.
  unfold n_feature, n_label.
  induction 1 as [|ex exs Hex _ IH]; [cbv; split; discriminate|].
  pose proof (names_once (fst ex) f Hex) as Ho.
  cbn [map]. rewrite !sumZ_cons.
  unfold dict in *.
  destruct (eqb (snd ex) l); cbn [indicator]; lia.
Qed.

Lemma n_label_nonneg (exs : list (dict fname fval * label)) l :
  0 <= n_label exs l.
Proof.
  unfold n_label. induction exs as [|e es IH]; [cbv; discriminate|].
  cbn [map]. rewrite sumZ_cons.
  destruct (eqb (snd e) l); cbn [indicator]; lia.
Qed.

Lemma labelled_positive (exs : list (dict fname fval * label)) l :
  labelled exs l = true -> 1 <= n_label exs l.
Proof.
  unfold labelled. induction exs as [|ex exs IH]; [discriminate|].
  cbn [existsb]. intros E. pose proof (n_label_nonneg exs l) as Hnn.
  unfold n_label in *. cbn [map]. rewrite sumZ_cons.
  destruct (eqb (snd ex) l); cbn [indicator]; [lia|].
  cbn [orb] in E. specialize (IH E). lia.
Qed.

Lemma final_total_lower (exs : list (dict fname fval * label)) l f :
  labelled exs l = true -> mentioned exs f = true ->
  n_label exs l <= final_total exs l f.
Proof.
  intros L M. unfold final_total, shortfall. rewrite L, M. cbn [andb].
  destruct (Z.ltb_spec 0 (n_label exs l - n_feature exs l f)); lia.
Qed.

Section MoreOnTraining.
Context `{SetOrder}.

(** After the two loops of [train], the label table counts the examples of
    each label and its keys are the labels that occur; the table of a pair
    counts the items of the examples of the label, plus, under [None], the
    examples of the label that lack the feature; there is a table for
    exactly the pairs of a label that occurs and a feature name that
    occurs. *)
Theorem tables_count_the_examples (exs : list (dict fname fval * label)) :
  (forall l, fd_count (label_freqdist (count_tables exs)) l = n_label exs l) /\
  fd_N (label_freqdist (count_tables exs)) = Z.of_nat (List.length exs) /\
  (forall l, In l (dict_keys (label_freqdist (count_tables exs))) <->
             labelled exs l = true) /\
  NoDup (dict_keys (label_freqdist (count_tables exs))) /\
  (forall l f v, freq (count_tables exs) l f v = final_freq exs l f v) /\
  (forall l f, total (count_tables exs) l f = final_total exs l f) /\
  (forall l f, In (l, f) (dict_keys (feature_freqdist (count_tables exs))) <->
               labelled exs l = true /\ mentioned exs f = true) /\
  NoDup (dict_keys (feature_freqdist (count_tables exs))).
Proof. exact (count_tables_spec exs). Qed.

(** When the names of every feature set are distinct, the table of each
    pair adds up to the number of examples of its label: imputation fills
    every table up to that number. *)
Theorem tables_add_up_to_label_count (exs : list (dict fname fval * label))
    (l : label) (f : fname) :
  Forall (fun ex => NoDup (dict_keys (fst ex))) exs ->
  In (l, f) (dict_keys (feature_freqdist (count_tables exs))) ->
  total (count_tables exs) l f = fd_count (label_freqdist (count_tables exs)) l.
Proof.
  intros Hn Hk.
  destruct (count_tables_spec exs) as [A1 [_ [_ [_ [_ [A6 [A7 _]]]]]]].
  apply A7 in Hk. destruct Hk as [L M].
  rewrite A6, A1. unfold final_total, shortfall. rewrite L, M. cbn [andb].
  pose proof (features_at_most_examples exs l f Hn).
  destruct (Z.ltb_spec 0 (n_label exs l - n_feature exs l f)); lia.
Qed.

(** The samples of every table fitted are distinct and are among the values
    recorded for its feature name, so the [bins] passed with it is at least
    its number of samples, which is at least 1. *)
Theorem bins_cover_the_samples (exs : list (dict fname fval * label))
    (k : label * fname) (fd : FreqDist fval) :
  In (k, fd) (feature_freqdist (count_tables exs)) ->
  NoDup (dict_keys fd) /\
  incl (dict_keys fd) (values_of (count_tables exs) (snd k)) /\
  1 <= fd_B fd <= bins_of (count_tables exs) (snd k).
Proof.
  intros Hin.
  destruct (count_tables_recorded exs _ _ Hin) as [Hnd Hincl].
  split; [exact Hnd|]. split; [exact Hincl|].
  destruct (count_tables_spec exs) as [_ [_ [_ [_ [_ [A6 [A7 A8]]]]]]].
  destruct k as [l f]. cbn [snd] in *.
  assert (Hk : In (l, f) (dict_keys (feature_freqdist (count_tables exs)))).
  { unfold dict_keys. now apply (in_map fst) in Hin. }
  apply A7 in Hk. destruct Hk as [L M].
  pose proof (dict_get_In_NoDup _ _ _ A8 Hin) as G.
  assert (HN : 1 <= fd_N fd).
  { specialize (A6 l f). unfold total, dict_get_default in A6. rewrite G in A6.
    rewrite A6. pose proof (final_total_lower exs l f L M).
    pose proof (labelled_positive exs l L). lia. }
  split.
  - unfold fd_B. destruct fd as [|x fd']; [cbv in HN; congruence|].
    simpl List.length. lia.
  - unfold fd_B, bins_of. fold (values_of (count_tables exs) f).
    apply Nat2Z.inj_le. unfold dict_keys in *.
    rewrite <- (length_map fst fd). now apply NoDup_incl_length.
Qed.

Section FittedModel.
Context `{Numerics}.

(** A model trained with the default estimator has distinct labels, the
    labels of the examples, and a conditional distribution for every pair
    of one of its labels and a feature name that scoring keeps: the branch
    of line 134 is not taken. *)
Theorem trained_model_has_every_pair (exs : list (dict fname fval * label))
    (m : NaiveBayesClassifier) (l : label) (f : fname) :
  train ELEProbDist exs = Ok m ->
  NoDup (labels m) /\
  (In l (labels m) <-> labelled exs l = true) /\
  (In l (labels m) -> unseen m f = false ->
   exists pd, dict_get (_feature_probdist m) (l, f) = Some pd /\
              forall g v, feature_term g m l f v =
                          match try_override g pd l f v with
                          | Ok x => x
                          | Raise _ => logprob pd v
                          end).
Proof.
  intros Ht. destruct (trained_model_spec exs m Ht) as [L [_ [K _]]].
  destruct (count_tables_spec exs) as [_ [_ [A3 [A4 [_ [_ [A7 _]]]]]]].
  unfold labels. rewrite L. split; [exact A4|]. split; [apply A3|].
  intros Hl Hu. apply A3 in Hl.
  assert (M : mentioned exs f = true).
  { unfold unseen in Hu. rewrite L in Hu.
    destruct (forallb _ _) eqn:E in Hu; [discriminate|]. clear Hu.
    assert (X : exists l', dict_in (_feature_probdist m) (l', f) = true).
    { revert E. generalize (dict_keys (label_freqdist (count_tables exs))).
      intros ls. induction ls as [|l0 ls IH]; [discriminate|].
      cbn [forallb]. intros E. apply andb_false_iff in E. destruct E as [E|E]; auto.
      apply negb_false_iff in E. now exists l0. }
    destruct X as [l' X]. apply dict_in_spec, K, A7 in X. tauto. }
  assert (Hk : In (l, f) (dict_keys (_feature_probdist m))).
  { apply K, A7. tauto. }
  destruct (dict_get (_feature_probdist m) (l, f)) as [pd|] eqn:G.
  - exists pd. split; [reflexivity|]. intros g v. unfold feature_term. now rewrite G.
  - apply dict_get_None in G. contradiction.
Qed.
End FittedModel.
End MoreOnTraining.

(** ** Ranking: what is returned, and what is shown *)

Lemma insert_by_key_perm {A} (x : Q * A) (l : list (Q * A)) :
  Permutation (insert_by_key x l) (x :: l).
Proof.
  induction l as [|y l IH]; simpl; [reflexivity|].
  destruct (Qle_bool (fst x) (fst y)); [reflexivity|].
  rewrite IH. apply perm_swap.
Qed.

Lemma sorted_by_key_perm {A} (l : list (Q * A)) :
  Permutation (sorted_by_key l) l.
Proof.
  induction l as [|x l IH]; simpl; [constructor|].
  rewrite insert_by_key_perm. now constructor.
Qed.

Lemma NoDup_prefix {A} (n : nat) (l : list A) : NoDup l -> NoDup (firstn n l).
Proof.
  intros Hn. revert n.
  induction Hn as [|x l Hx Hn IH]; intros [|n]; simpl; try constructor; auto.
  intros Hin. apply Hx. eapply In_firstn; eauto.
Qed.

Lemma slice_to_prefix {A} (l : list A) (n : Z) :
  exists k, slice_to l n = firstn k l.
Proof. unfold slice_to. destruct (n <? 0); eauto. Qed.

Lemma sequence_keyed {A} (r : A -> result Q) (l : list A) (keyed : list (Q * A)) :
  sequence (map (fun x => k <- r x ;; Ok (k, x)) l) = Ok keyed ->
  map snd keyed = l /\ forall x, In x keyed -> r (snd x) = Ok (fst x).
Proof.
  revert keyed. induction l as [|a l IH]; intros keyed; cbn [map sequence].
  - intros [= <-]. split; [reflexivity | intros x []].
  - destruct (r a) as [k|e] eqn:Ea; cbn [bind]; [|discriminate].
    destruct (sequence _) as [xs|e]; cbn [bind]; [|discriminate].
    intros [= <-]. destruct (IH xs eq_refl) as [E1 E2]. split.
    + simpl. now rewrite E1.
    + intros x [<-|Hx]; [exact Ea | now apply E2].
Qed.

Lemma last_cases {A} (l : list A) (a d : A) :
  last (a :: l) d = a \/ In (last (a :: l) d) l.
Proof.
  revert a. induction l as [|b l IH]; intros a; [now left|].
  right. change (last (a :: b :: l) d) with (last (b :: l) d).
  destruct (IH b) as [->|Hin]; [now left | now right].
Qed.

Lemma ratio_bounds (p0 p1 lo hi : Q) :
  (0 < lo)%Q -> (lo <= p0)%Q -> (p0 <= p1)%Q -> (p1 <= hi)%Q ->
  (1 <= p1 / p0 /\ p1 / p0 <= hi / lo)%Q.
Proof.
  intros Hlo H0 H01 H1.
  assert (P0 : (0 < p0)%Q) by (eapply Qlt_le_trans; eauto).
  assert (N0 : ~ (p0 == 0)%Q) by (intros E; rewrite E in P0; discriminate).
  assert (R : (0 <= p1 / p0)%Q).
  { apply Qle_shift_div_l; [exact P0|]. rewrite Qmult_0_l.
    eapply Qle_trans; [apply Qlt_le_weak, P0 | exact H01]. }
  split.
  - apply Qle_shift_div_l; [exact P0|]. now rewrite Qmult_1_l.
  - apply Qle_shift_div_l; [exact Hlo|].
    eapply Qle_trans; [|exact H1].
    rewrite (Qmult_comm (p1 / p0) lo).
    eapply Qle_trans; [apply Qmult_le_compat_r; [exact H0 | exact R] |].
    rewrite Qmult_div_r by exact N0. apply Qle_refl.
Qed.

Section RankingAndShow.
Context `{Numerics} `{SetOrder}.

Lemma scan_step_NoDup (st : Scan) (o : feature * Q) :
  NoDup (features st) -> NoDup (features (scan_step st o)).
Proof.
  intros Hn. unfold scan_step. cbn [features].
  destruct (Qeq_bool _ _).
  - unfold set_discard. apply NoDup_filter. now apply set_add_NoDup.
  - now apply set_add_NoDup.
Qed.

Lemma scan_NoDup (self : NaiveBayesClassifier) : NoDup (features (scan self)).
Proof.
  rewrite scan_flat. apply fold_left_invariant.
  - intros st o _. apply scan_step_NoDup.
  - constructor.
Qed.

Lemma most_informative_features_inv (self : NaiveBayesClassifier) (n : Z) out :
  most_informative_features self n = Ok out ->
  NoDup out /\
  (forall ft, In ft out -> In ft (features (scan self))) /\
  (0 <= n -> Z.of_nat (List.length out) <= n) /\
  (0 <= n -> Z.of_nat (List.length out) < n ->
   forall ft, In ft (features (scan self)) -> In ft out).
Proof.
  unfold most_informative_features.
  destruct (sequence _) as [keyed|e] eqn:E; cbn [bind]; [|discriminate].
  intros [= <-]. apply sequence_keyed in E. destruct E as [E _].
  assert (P : Permutation (map snd (sorted_by_key keyed)) (features (scan self))).
  { eapply Permutation_trans;
      [apply Permutation_map, sorted_by_key_perm|].
    rewrite E. apply set_iter_perm. }
  revert P. generalize (map snd (sorted_by_key keyed)). intros L P.
  assert (NL : NoDup L)
    by (apply (Permutation_NoDup (Permutation_sym P)), scan_NoDup).
  split; [|split; [|split]].
  - destruct (slice_to_prefix L n) as [k ->]. now apply NoDup_prefix.
  - intros ft Hin. destruct (slice_to_prefix L n) as [k Ek]. rewrite Ek in Hin.
    apply In_firstn in Hin. now apply (Permutation_in _ P).
  - intros Hpos. unfold slice_to. destruct (Z.ltb_spec n 0); [lia|].
    pose proof (firstn_le_length (Z.to_nat n) L). lia.
  - intros Hpos Hlt ft Hin. unfold slice_to in *.
    destruct (Z.ltb_spec n 0); [lia|].
    rewrite length_firstn in Hlt.
    rewrite firstn_all2 by lia.
    apply (Permutation_in _ (Permutation_sym P)), Hin.
Qed.

Lemma most_informative_features_defined (self : NaiveBayesClassifier) (n : Z) :
  Forall (fun o => 0 <= snd o)%Q (observations self) ->
  exists out, most_informative_features self n = Ok out.
Proof.
  intros Hn. unfold most_informative_features.
  rewrite (sequence_Ok _
             (fun ft => ((dict_get_default (minprob (scan self)) ft 1 /
                          dict_get_default (maxprob (scan self)) ft 0)%Q, ft))).
  - cbn [bind]. eauto.
  - intros ft Hft.
    apply (Permutation_in _ (set_iter_perm _ _)) in Hft. unfold rank_key.
    destruct (eligible_positive self ft Hn Hft) as [_ Pmx].
    destruct (scan_spec self ft) as [_ [Emx _]].
    destruct (Qeq_bool (dict_get_default (maxprob (scan self)) ft 0%Q) 0%Q) eqn:Z;
      [|reflexivity].
    apply Qeq_bool_iff in Z. rewrite Emx in Z. rewrite Z in Pmx. discriminate.
Qed.

(** Whenever [most_informative_features] returns, no pair occurs twice in
    the list, each pair of the list occurs in the table with a smallest
    probability other than 0, and a list shorter than [n] holds every
    such pair. *)
Theorem ranking_lists_each_pair_once (self : NaiveBayesClassifier) (n : Z)
    (out : list feature) :
  most_informative_features self n = Ok out ->
  NoDup out /\
  (forall ft, In ft out ->
     In ft (map fst (observations self)) /\ ~ (min_prob self ft == 0)%Q) /\
  (0 <= n -> Z.of_nat (List.length out) < n ->
   forall ft, In ft (map fst (observations self)) ->
              ~ (min_prob self ft == 0)%Q -> In ft out).
Proof.
  intros Hm. destruct (most_informative_features_inv self n out Hm)
    as [N [I [_ C]]].
  split; [exact N|]. split.
  - intros ft Hin. apply I in Hin. now apply scan_spec in Hin.
  - intros Hpos Hlt ft Hobs Hz. apply (C Hpos Hlt). apply scan_spec. tauto.
Qed.

(** *** The lines shown *)

Lemma labels_having_In (self : NaiveBayesClassifier) f v ls out :
  labels_having self f v ls = Ok out ->
  forall l, In l out <->
            In l ls /\ exists pd, dict_get (_feature_probdist self) (l, f) = Some pd /\
                                  In v (samples pd).
Proof.
  revert out. induction ls as [|l0 ls IH]; intros out; cbn [labels_having].
  - intros [= <-] l. simpl. split; [tauto | intros [[] _]].
  - unfold item. destruct (dict_get (_feature_probdist self) (l0, f)) as [pd0|] eqn:G;
      cbn [bind]; [|discriminate].
    destruct (labels_having self f v ls) as [rest|e]; cbn [bind]; [|discriminate].
    intros [= <-] l. specialize (IH rest eq_refl l).
    destruct (set_mem (samples pd0) v) eqn:M.
    + apply set_mem_spec in M. simpl. rewrite IH. split.
      * intros [<-|[Hl Hpd]]; [split; [now left | eauto] | tauto].
      * intros [[<-|Hl] Hpd]; [now left | tauto].
    + rewrite IH. simpl. split; [tauto|].
      intros [[<-|Hl] Hpd]; [|tauto].
      destruct Hpd as [pd [Hg Hv]]. rewrite G in Hg. injection Hg as <-.
      apply set_mem_spec in Hv. congruence.
Qed.

Lemma labels_having_defined (self : NaiveBayesClassifier) f v ls :
  (forall l, In l ls -> In (l, f) (dict_keys (_feature_probdist self))) ->
  exists out, labels_having self f v ls = Ok out.
Proof.
  induction ls as [|l0 ls IH]; intros Hk; cbn [labels_having]; [eauto|].
  unfold item. destruct (dict_get (_feature_probdist self) (l0, f)) as [pd0|] eqn:G.
  - cbn [bind]. destruct IH as [rest ->]; [intros; apply Hk; now right|].
    cbn [bind]. eauto.
  - apply dict_get_None in G. exfalso. apply G, Hk. now left.
Qed.

Lemma observed (self : NaiveBayesClassifier) l f pd v :
  dict_get (_feature_probdist self) (l, f) = Some pd -> In v (samples pd) ->
  In (prob pd v) (probs_of self (f, v)).
Proof.
  intros G Hv. unfold probs_of.
  apply in_map_iff. exists ((f, v), prob pd v). split; [reflexivity|].
  apply filter_In. split; [|apply eqb_refl].
  unfold observations. apply in_flat_map. exists ((l, f), pd).
  split; [now apply dict_get_Some_In|].
  cbn [fst snd]. apply in_map_iff. now exists v.
Qed.

Lemma sorted_labels_spec (self : NaiveBayesClassifier) f v labels :
  sorted_labels self f v = Ok labels ->
  StronglySorted (fun a b => fst a <= fst b)%Q labels /\
  (forall x, In x labels ->
     In (snd x) (_labels self) /\ In (fst x) (probs_of self (f, v))) /\
  (forall l pd, In l (_labels self) ->
     dict_get (_feature_probdist self) (l, f) = Some pd -> In v (samples pd) ->
     exists p, In (p, l) labels).
Proof.
  unfold sorted_labels.
  destruct (labels_having self f v (_labels self)) as [ls|e] eqn:L;
    cbn [bind]; [|discriminate].
  destruct (sequence _) as [keyed|e] eqn:S; cbn [bind]; [|discriminate].
  intros [= <-]. apply sequence_keyed in S. destruct S as [S1 S2].
  pose proof (labels_having_In self f v _ _ L) as HL.
  split; [apply sorted_by_key_sorted|]. split.
  - intros x Hx. rewrite sorted_by_key_In in Hx.
    assert (Hl : In (snd x) ls) by (rewrite <- S1; exact (in_map snd keyed x Hx)).
    apply HL in Hl. destruct Hl as [Hl [pd [G Hv]]].
    split; [exact Hl|]. specialize (S2 x Hx). unfold labelprob, item in S2.
    rewrite G in S2. cbn [bind] in S2. injection S2 as <-.
    eapply observed; eauto.
  - intros l pd Hl G Hv.
    assert (Hls : In l ls) by (apply HL; eauto).
    rewrite <- S1 in Hls. apply in_map_iff in Hls.
    destruct Hls as [[p l'] [E Hx]]. simpl in E. subst l'.
    exists p. rewrite sorted_by_key_In. exact Hx.
Qed.

Lemma sorted_labels_defined (self : NaiveBayesClassifier) f v :
  (forall l, In l (_labels self) ->
             In (l, f) (dict_keys (_feature_probdist self))) ->
  exists labels, sorted_labels self f v = Ok labels.
Proof.
  intros Hk. unfold sorted_labels.
  destruct (labels_having_defined self f v _ Hk) as [ls L]. rewrite L. cbn [bind].
  rewrite (sequence_Ok _
             (fun l => (match dict_get (_feature_probdist self) (l, f) with
                        | Some pd => prob pd v
                        | None => 0%Q
                        end, l))).
  - cbn [bind]. eauto.
  - intros l Hl. apply (labels_having_In self f v _ _ L) in Hl.
    destruct Hl as [_ [pd [G _]]]. unfold labelprob, item. now rewrite G.
Qed.

Lemma show_line_printed (self : NaiveBayesClassifier) (ft : feature) (ln : Line) :
  Forall (fun o => 0 <= snd o)%Q (observations self) ->
  In ft (features (scan self)) ->
  show_line self ft = Printed ln ->
  (line_fname ln, line_fval ln) = ft /\
  In (line_high ln) (_labels self) /\
  In (line_low ln) (_labels self) /\
  exists r, line_ratio ln = Some r /\
            (1 <= r)%Q /\ (r <= informativeness self ft)%Q.
Proof.
  intros Hn Hft. unfold show_line. destruct ft as [f v]. cbn [fst snd].
  destruct (sorted_labels self f v) as [labels|e] eqn:S; [|discriminate].
  destruct (Nat.eqb (List.length labels) 1); [discriminate|].
  destruct labels as [|first rest]; [discriminate|].
  destruct (sorted_labels_spec self f v _ S) as [Hs [Hin _]].
  assert (Hlast : In (last (first :: rest) first) (first :: rest)).
  { destruct (last_cases rest first first) as [->|Hl]; [now left | now right]. }
  destruct (Hin first (or_introl eq_refl)) as [L0 P0].
  destruct (Hin _ Hlast) as [L1 P1].
  destruct (eligible_positive self (f, v) Hn Hft) as [Pmin _].
  assert (Hlo : (min_prob self (f, v) <= fst first)%Q) by now apply fold_Qmin_le.
  assert (Hhi : (fst (last (first :: rest) first) <= max_prob self (f, v))%Q)
    by now apply fold_Qmax_ge.
  assert (H01 : (fst first <= fst (last (first :: rest) first))%Q).
  { destruct (last_cases rest first first) as [->|Hl]; [apply Qle_refl|].
    inversion Hs as [|? ? _ Hall]; subst. rewrite Forall_forall in Hall.
    now apply Hall. }
  destruct (ratio_bounds _ _ _ _ Pmin Hlo H01 Hhi) as [R1 R2].
  assert (Z : Qeq_bool (fst first) 0 = false).
  { destruct (Qeq_bool (fst first) 0) eqn:Z; [|reflexivity].
    apply Qeq_bool_iff in Z. rewrite Z in Hlo.
    exfalso. apply (Qlt_not_le _ _ Pmin Hlo). }
  rewrite Z. intros [= <-]. cbn [line_fname line_fval line_high line_low line_ratio].
  split; [reflexivity|]. split; [exact L1|]. split; [exact L0|].
  eexists. split; [reflexivity|]. split; [exact R1 | exact R2].
Qed.

Lemma show_lines_In (self : NaiveBayesClassifier) fts ln :
  In ln (fst (show_lines self fts)) ->
  exists ft, In ft fts /\ show_line self ft = Printed ln.
Proof.
  induction fts as [|ft fts IH]; cbn [show_lines]; [intros []|].
  destruct (show_line self ft) as [ln0| |e] eqn:E.
  - cbn [fst]. intros [<-|Hin].
    + exists ft. split; [now left | exact E].
    + destruct (IH Hin) as [ft' [H1 H2]]. exists ft'. split; [now right | exact H2].
  - intros Hin. destruct (IH Hin) as [ft' [H1 H2]].
    exists ft'. split; [now right | exact H2].
  - intros [].
Qed.

Lemma show_lines_length (self : NaiveBayesClassifier) fts :
  (List.length (fst (show_lines self fts)) <= List.length fts)%nat.
Proof.
  induction fts as [|ft fts IH]; cbn [show_lines]; [apply Nat.le_refl|].
  destruct (show_line self ft); cbn [fst List.length]; lia.
Qed.

Lemma show_lines_quiet (self : NaiveBayesClassifier) fts :
  (forall ft e, In ft fts -> show_line self ft <> Stopped e) ->
  snd (show_lines self fts) = None.
Proof.
  induction fts as [|ft fts IH]; intros Hq; cbn [show_lines]; [reflexivity|].
  destruct (show_line self ft) as [ln0| |e] eqn:E.
  - cbn [snd]. apply IH. intros ft' e' Hin. apply Hq. now right.
  - apply IH. intros ft' e' Hin. apply Hq. now right.
  - exfalso. apply (Hq ft e); [now left | exact E].
Qed.

(** On a model whose probabilities are not negative, every line shown is
    for a pair of the table and two labels of the model, and its ratio is
    a number, never [INF], between 1 and the ratio of the largest to the
    smallest probability of the pair; for [n] not negative at most [n]
    lines are shown. *)
Theorem shown_lines_carry_ratios (self : NaiveBayesClassifier) (n : Z) :
  Forall (fun o => 0 <= snd o)%Q (observations self) ->
  (0 <= n ->
   Z.of_nat (List.length (fst (show_most_informative_features self n))) <= n) /\
  forall ln, In ln (fst (show_most_informative_features self n)) ->
    In (line_fname ln, line_fval ln) (map fst (observations self)) /\
    In (line_high ln) (_labels self) /\
    In (line_low ln) (_labels self) /\
    exists r, line_ratio ln = Some r /\
              (1 <= r)%Q /\
              (r <= informativeness self (line_fname ln, line_fval ln))%Q.
Proof.
  intros Hn. unfold show_most_informative_features.
  destruct (most_informative_features self n) as [fts|e] eqn:M.
  - destruct (most_informative_features_inv self n fts M) as [_ [I [Len _]]].
    split.
    + intros Hpos. specialize (Len Hpos).
      pose proof (show_lines_length self fts). lia.
    + intros ln Hin. apply show_lines_In in Hin. destruct Hin as [ft [Hft Hp]].
      apply I in Hft.
      destruct (show_line_printed self ft ln Hn Hft Hp) as [E [Lh [Ll R]]].
      rewrite E. split; [|tauto]. now apply scan_spec in Hft.
  - cbn [fst]. split; [intros; simpl; lia | intros ln []].
Qed.

Lemma show_line_quiet (self : NaiveBayesClassifier) (ft : feature) e :
  NoDup (dict_keys (_feature_probdist self)) ->
  (forall l f, In (l, f) (dict_keys (_feature_probdist self)) ->
               In l (_labels self)) ->
  (forall l l' f, In l (_labels self) ->
                  In (l', f) (dict_keys (_feature_probdist self)) ->
                  In (l, f) (dict_keys (_feature_probdist self))) ->
  In ft (map fst (observations self)) ->
  show_line self ft <> Stopped e.
Proof.
  intros Hnd Hlab Hall Hobs.
  apply in_map_iff in Hobs. destruct Hobs as [o [<- Ho]].
  unfold observations in Ho. apply in_flat_map in Ho.
  destruct Ho as [[[l' f] pd] [Hin Ho]]. cbn [fst snd] in Ho.
  apply in_map_iff in Ho. destruct Ho as [v [<- Hv]]. cbn [fst].
  assert (Hk : In (l', f) (dict_keys (_feature_probdist self))).
  { unfold dict_keys. now apply (in_map fst) in Hin. }
  destruct (sorted_labels_defined self f v) as [labels S].
  { intros l Hl. now apply (Hall l l' f). }
  destruct (sorted_labels_spec self f v _ S) as [_ [_ Hne]].
  destruct (Hne l' pd (Hlab _ _ Hk) (dict_get_In_NoDup _ _ _ Hnd Hin) Hv)
    as [p Hp].
  unfold show_line. cbn [fst snd]. rewrite S.
  destruct (Nat.eqb (List.length labels) 1); [discriminate|].
  destruct labels; [destruct Hp | discriminate].
Qed.

Lemma fit_NoDup (estimator : Estimator) (t : Tables) its fp0 fp :
  fold_left
    (fun acc item =>
       feature_probdist <- acc ;;
       probdist <- estimator fval _ (snd item)
                     (Some (bins_of t (snd (fst item)))) ;;
       Ok (dict_set feature_probdist (fst item) probdist))
    its (Ok fp0) = Ok fp ->
  NoDup (dict_keys fp0) -> NoDup (dict_keys fp).
Proof.
  revert fp0. induction its as [|[k1 fd1] its IH]; intros fp0 Hfold Hnd.
  - simpl in Hfold. now injection Hfold as <-.
  - cbn [fold_left bind fst snd] in Hfold.
    destruct (estimator fval _ fd1 (Some (bins_of t (snd k1)))) as [pd1|e].
    + cbn [bind] in Hfold. apply (IH _ Hfold). now apply dict_set_NoDup.
    + cbn [bind] in Hfold. rewrite fit_raise in Hfold. discriminate.
Qed.

(** On a model trained with the default estimator,
    [show_most_informative_features] raises nothing: the ranking is
    defined, every lookup of lines 143 and 146 finds its distribution, and
    no pair is left without a label. *)
Theorem show_of_trained_model_raises_nothing
    (exs : list (dict fname fval * label)) (m : NaiveBayesClassifier) (n : Z) :
  train ELEProbDist exs = Ok m ->
  snd (show_most_informative_features m n) = None.
Proof.
  intros Ht.
  pose proof (trained_observations_nonneg exs m Ht) as Hn.
  destruct (trained_model_spec exs m Ht) as [L [_ [K _]]].
  destruct (count_tables_spec exs) as [_ [_ [A3 [_ [_ [_ [A7 _]]]]]]].
  assert (Hnd : NoDup (dict_keys (_feature_probdist m))).
  { destruct (train_inv _ _ _ Ht) as [lp [fp [_ [Hfit ->]]]].
    cbn [init _feature_probdist]. unfold fit_features in Hfit.
    apply (fit_NoDup _ _ _ _ _ Hfit). constructor. }
  unfold show_most_informative_features.
  destruct (most_informative_features_defined m n Hn) as [fts M]. rewrite M.
  apply show_lines_quiet. intros ft e Hin.
  destruct (most_informative_features_inv m n fts M) as [_ [I _]].
  apply I, scan_spec in Hin. destruct Hin as [Hobs _].
  apply show_line_quiet; try assumption.
  - intros l f Hk. rewrite L. apply A3. apply K, A7 in Hk. tauto.
  - intros l l' f Hl Hk. rewrite L in Hl. apply A3 in Hl.
    apply K, A7 in Hk. apply K, A7. tauto.
Qed.
End RankingAndShow.

(** ** The override table: which example decides *)

Lemma count_denominator_positive (g : Globals) (fs : dict fname fval)
    (f : fname) (num : Q) (sf : list (list fname)) :
  dict_get (snd (count g fs)) f = Some num ->
  (0 < fst (count g fs) + inject_Z (Z.of_nat (List.length sf)))%Q.
Proof.
  intros D. destruct (count_spec g fs) as [Hs [_ [Hone _]]].
  apply dict_get_Some_In in D.
  assert (Hnum : (1 <= num)%Q).
  { rewrite Forall_forall in Hone. apply (Hone _ D). }
  eapply Qlt_le_trans; [|eapply Qle_trans; [exact Hnum|]]; [reflexivity|].
  rewrite Hs, <- (Qplus_0_r num). apply Qplus_le_compat.
  - apply sumQ_bounds.
    + unfold dict_values. apply Forall_forall. intros q Hq.
      apply in_map_iff in Hq. destruct Hq as [kv [<- Hkv]].
      rewrite Forall_forall in Hone. eapply Qle_trans; [|apply (Hone _ Hkv)].
      discriminate.
    + unfold dict_values. now apply (in_map snd) in D.
  - change 0%Q with (inject_Z 0). rewrite <- Zle_Qle. lia.
Qed.

Lemma override_formula_defined (g : Globals) (fs : dict fname fval)
    (f : fname) (sf : list (list fname)) :
  global_item (is_frequent g) f = Ok true ->
  spam_frequent g = Some sf ->
  In f (dict_keys fs) ->
  override_formula g (fst (count g fs)) (snd (count g fs)) f =
  Ok (Some (dict_get_default (snd (count g fs)) f 0 /
            (fst (count g fs) + inject_Z (Z.of_nat (List.length sf))))%Q).
Proof.
  intros F S K. destruct (count_spec g fs) as [_ [_ [_ Hkeys]]].
  assert (Hk : In f (dict_keys (snd (count g fs)))) by (apply Hkeys; tauto).
  unfold override_formula. rewrite F. cbn [bind].
  unfold item, dict_get_default.
  destruct (dict_get (snd (count g fs)) f) as [num|] eqn:D.
  - cbn [bind]. rewrite S. cbn [bound bind]. unfold divide.
    pose proof (count_denominator_positive g fs f num sf D) as P.
    destruct (Qeq_bool _ 0) eqn:Z; [|reflexivity].
    apply Qeq_bool_iff in Z. rewrite Z in P. discriminate.
  - apply dict_get_None in D. contradiction.
Qed.

Lemma store_override_keeps (g : Globals) (cf : Q) (cn : dict fname Q)
    (l : label) (f : fname) (p : Q) (fs : dict fname fval)
    (tbl : dict (label * fname) Q) :
  override_formula g cf cn f = Ok (Some p) ->
  dict_get tbl (l, f) = Some p ->
  dict_get (fold_left (store_override g cf cn l) fs tbl) (l, f) = Some p.
Proof.
  intros E. revert tbl. induction fs as [|[f1 v1] fs IH]; intros tbl G;
    cbn [fold_left]; [exact G|].
  apply IH. unfold store_override. cbn [fst]. rewrite override_entry_formula.
  destruct (eqb_spec f1 f) as [->|Hne].
  - rewrite E. apply dict_get_set_same.
  - destruct (override_formula g cf cn f1) as [[q|]|e]; try exact G.
    rewrite dict_get_set_other; [exact G | congruence].
Qed.

Lemma store_override_sets (g : Globals) (cf : Q) (cn : dict fname Q)
    (l : label) (f : fname) (p : Q) (fs : dict fname fval)
    (tbl : dict (label * fname) Q) :
  override_formula g cf cn f = Ok (Some p) ->
  In f (dict_keys fs) ->
  dict_get (fold_left (store_override g cf cn l) fs tbl) (l, f) = Some p.
Proof.
  intros E. revert tbl. induction fs as [|[f1 v1] fs IH]; intros tbl K;
    [destruct K|]. cbn [fold_left].
  destruct (eqb_spec f1 f) as [->|Hne].
  - apply store_override_keeps; [exact E|].
    unfold store_override. cbn [fst]. rewrite override_entry_formula, E.
    apply dict_get_set_same.
  - apply IH. unfold dict_keys in K. simpl in K. destruct K as [K|K]; [congruence|].
    exact K.
Qed.

(** The override of a pair is decided by the last example that has the
    label and the feature name: when the name is flagged frequent and
    [spam_frequent] is bound, the entry left by [normal_probability] is the
    count of the name in that example divided by the number of flagged
    items of the example plus [len(spam_frequent)], whatever the examples
    before it held. *)
Theorem last_example_decides_override (g : Globals)
    (before : list (dict fname fval * label)) (fs : dict fname fval)
    (l : label) (f : fname) (sf : list (list fname)) :
  global_item (is_frequent g) f = Ok true ->
  spam_frequent g = Some sf ->
  In f (dict_keys fs) ->
  dict_get (normal_probability g (before ++ [(fs, l)])) (l, f) =
  Some (dict_get_default (snd (count g fs)) f 0 /
        (fst (count g fs) + inject_Z (Z.of_nat (List.length sf))))%Q.
Proof.
  intros F S K. unfold normal_probability. rewrite fold_left_app.
  cbn [fold_left fst snd].
  apply store_override_sets; [|exact K].
  now apply override_formula_defined.
Qed.

(** ** Scoring: the closed form of the table *)

Section ScoreClosedForm.
Context `{Numerics}.

(** On a model with distinct labels, the table handed to the normaliser has
    the labels of the model as its keys, in their order, and under each
    label the prior log-probability to which the amount of each item of
    the feature set is added in turn, the items of unseen feature names
    left out. *)
Theorem score_is_prior_plus_feature_terms (g : Globals)
    (self : NaiveBayesClassifier) (fs : dict fname fval) :
  NoDup (_labels self) ->
  dict_keys (score_table g self fs) = _labels self /\
  forall l, In l (_labels self) ->
    dict_get (score_table g self fs) l =
    Some (label_score (feature_term g self) self
            (filter (fun kv => negb (unseen self (fst kv))) fs) l).
Proof.
  intros Hnd. split.
  - unfold score_table, score_table_with. rewrite accumulate_keys.
    now apply prior_table_keys_eq.
  - intros l Hl. unfold score_table.
    rewrite score_table_with_get by exact Hnd.
    rewrite discard_unseen_filter.
    apply set_mem_spec in Hl. now rewrite Hl.
Qed.

(** Discarding the unseen names keeps exactly the items whose name has a
    distribution under some label, in their order, and doing it twice
    changes nothing more. *)
Theorem discard_unseen_keeps_seen_items (self : NaiveBayesClassifier)
    (fs : dict fname fval) :
  discard_unseen self fs = filter (fun kv => negb (unseen self (fst kv))) fs /\
  discard_unseen self (discard_unseen self fs) = discard_unseen self fs /\
  forall f v, In (f, v) (discard_unseen self fs) <->
              In (f, v) fs /\
              exists l, In l (_labels self) /\
                        In (l, f) (dict_keys (_feature_probdist self)).
Proof.
  split; [apply discard_unseen_filter|]. split.
  - rewrite !discard_unseen_filter.
    induction fs as [|kv fs IH]; [reflexivity|]. cbn [filter].
    destruct (negb (unseen self (fst kv))) eqn:U; [|exact IH].
    cbn [filter]. rewrite U. now rewrite IH.
  - intros f v. rewrite discard_unseen_filter, filter_In. cbn [fst].
    rewrite negb_true_iff. unfold unseen.
    assert (X : forallb (fun l => negb (dict_in (_feature_probdist self) (l, f)))
                        (_labels self) = false <->
                exists l, In l (_labels self) /\
                          In (l, f) (dict_keys (_feature_probdist self))).
    { generalize (_labels self). intros ls.
      induction ls as [|l0 ls IH]; cbn [forallb].
      - split; [discriminate | intros [l [[] _]]].
      - rewrite andb_false_iff, negb_false_iff, dict_in_spec, IH. split.
        + intros [Hk|[l [Hl Hk]]]; [exists l0 | exists l]; simpl; tauto.
        + intros [l [[<-|Hl] Hk]]; [now left | right; eauto]. }
    rewrite X. tauto.
Qed.
End ScoreClosedForm.

(** ** Assembling the data *)

Lemma In_skipn {A} (n : nat) (l : list A) (x : A) :
  In x (skipn n l) -> In x l.
Proof.
  intros Hx. rewrite <- (firstn_skipn n l). apply in_or_app. now right.
Qed.

Lemma filter_none {A} (p : A -> bool) (l : list A) :
  (forall x, In x l -> p x = false) -> filter p l = [].
Proof.
  induction l as [|x l IH]; intros Hp; [reflexivity|]. cbn [filter].
  rewrite (Hp x) by now left. apply IH. intros; apply Hp; now right.
Qed.

Lemma filter_all {A} (p : A -> bool) (l : list A) :
  (forall x, In x l -> p x = true) -> filter p l = l.
Proof.
  induction l as [|x l IH]; intros Hp; [reflexivity|]. cbn [filter].
  rewrite (Hp x) by now left. f_equal. apply IH. intros; apply Hp; now right.
Qed.

(** [append_ham_and_spam] puts every spam email before every ham email;
    selecting by label gives back the two lists, in their order. *)
Theorem appended_emails_split_by_label {E} (ham spam : list E) :
  map snd (append_ham_and_spam ham spam) =
    repeat "spam" (List.length spam) ++ repeat "ham" (List.length ham) /\
  map fst (filter (fun el => eqb (snd el) "spam") (append_ham_and_spam ham spam))
    = spam /\
  map fst (filter (fun el => eqb (snd el) "ham") (append_ham_and_spam ham spam))
    = ham.
Proof.
  unfold append_ham_and_spam. split; [|split].
  - rewrite map_app, !map_map. cbn [snd]. f_equal.
    + induction spam as [|x l IH]; simpl; [reflexivity | f_equal; exact IH].
    + induction ham as [|x l IH]; simpl; [reflexivity | f_equal; exact IH].
  - rewrite filter_app, map_app.
    rewrite filter_all by (intros x Hx; apply in_map_iff in Hx;
                           destruct Hx as [y [<- _]]; reflexivity).
    rewrite filter_none by (intros x Hx; apply in_map_iff in Hx;
                            destruct Hx as [y [<- _]]; reflexivity).
    rewrite map_map, app_nil_r. cbn [fst]. apply map_id.
  - rewrite filter_app, map_app.
    rewrite filter_none by (intros x Hx; apply in_map_iff in Hx;
                            destruct Hx as [y [<- _]]; reflexivity).
    rewrite filter_all by (intros x Hx; apply in_map_iff in Hx;
                           destruct Hx as [y [<- _]]; reflexivity).
    rewrite map_map. cbn [fst app]. apply map_id.
Qed.

(** The two parts of the split of line 293 make up the whole list, in
    order, for every split point, also a negative one. *)
Theorem split_parts_make_the_whole {A} (all_features : list A) (train_size : Z) :
  fst (train_test_split all_features train_size) ++
  snd (train_test_split all_features train_size) = all_features.
Proof.
  unfold train_test_split, slice_to, slice_from. cbn [fst snd].
  destruct (train_size <? 0); apply firstn_skipn.
Qed.

(** The list assembled by lines 290-291 is not shuffled: with a split
    point at or after the number of spam emails, the test part holds ham
    only; with a split point at or before it, the training part holds spam
    only. *)
Theorem unshuffled_split_separates_labels {E}
    (get_features : E -> dict fname fval) (ham spam : list E) (train_size : Z) :
  0 <= train_size ->
  (Z.of_nat (List.length spam) <= train_size ->
   Forall (fun ex => snd ex = "ham")
     (snd (train_test_split
             (featurize get_features (append_ham_and_spam ham spam)) train_size))) /\
  (train_size <= Z.of_nat (List.length spam) ->
   Forall (fun ex => snd ex = "spam")
     (fst (train_test_split
             (featurize get_features (append_ham_and_spam ham spam)) train_size))).
Proof.
  intros Hpos.
  unfold train_test_split, slice_to, slice_from, featurize, append_ham_and_spam.
  cbn [fst snd]. destruct (Z.ltb_spec train_size 0) as [|_]; [lia|].
  rewrite map_app, !map_map. cbn [fst snd]. split; intros Hk.
  - rewrite skipn_app, length_map.
    rewrite skipn_all2 by (rewrite length_map; lia). cbn [app].
    apply Forall_forall. intros ex Hex. apply In_skipn in Hex.
    apply in_map_iff in Hex. now destruct Hex as [y [<- _]].
  - rewrite firstn_app, length_map.
    replace (Z.to_nat train_size - List.length spam)%nat with 0%nat by lia.
    cbn [firstn]. rewrite app_nil_r.
    apply Forall_forall. intros ex Hex. apply In_firstn in Hex.
    apply in_map_iff in Hex. now destruct Hex as [y [<- _]].
Qed.

(** ** The running example, continued *)

Section RunningExampleContinued.
Local Existing Instance Exact.
Local Existing Instance InsertionOrder.

Lemma count_of_distinct_names_witness :
Forall (fun kv => snd kv == 1)%Q (snd (count zero_override [("w", Some "buy")])) /\
(fst (count zero_override [("w", Some "buy")]) ==
 inject_Z (Z.of_nat (List.length (snd (count zero_override [("w", Some "buy")])))))%Q.
Proof.
apply (count_of_distinct_names zero_override [("w", Some "buy")]).
constructor; [simpl; tauto | constructor].
Defined.

Lemma stored_overrides_are_probabilities_witness :
(0 < 1 # 2)%Q /\ (1 # 2 <= 1)%Q /\ math_log (1 # 2) = Ok (math_log2 (1 # 2)).
Proof.
apply (stored_overrides_are_probabilities zero_override demo_examples "spam" "w").
vm_compute. reflexivity.
Defined.

Lemma stored_overrides_come_from_examples_witness :
global_item (is_frequent zero_override) "w" = Ok true /\
(exists sf, spam_frequent zero_override = Some sf) /\
(exists fs, In (fs, "ham") demo_examples /\ In "w" (dict_keys fs)) /\
NoDup (dict_keys (normal_probability zero_override demo_examples)).
Proof.
apply (stored_overrides_come_from_examples zero_override demo_examples
         "ham" "w" (1 # 2)).
vm_compute. reflexivity.
Defined.

Lemma normal_probability_without_flags_witness :
normal_probability unbound demo_examples = [].
Proof.
apply (normal_probability_without_flags unbound demo_examples).
left. reflexivity.
Defined.

Lemma stored_override_replaces_estimate_witness :
feature_term (after_normal_probability zero_override demo_examples)
             demo_model "spam" "w" (Some "buy") = math_log2 (1 # 2).
Proof.
destruct (dict_get (_feature_probdist demo_model) ("spam", "w")) as [pd|] eqn:E.
- apply (stored_override_replaces_estimate zero_override demo_examples
           demo_model "spam" "w" (1 # 2) pd (Some "buy")).
  + vm_compute. reflexivity.
  + exact E.
- vm_compute in E. discriminate.
Defined.

Lemma last_example_decides_override_witness :
dict_get (normal_probability zero_override
            ([([("w", Some "hello"); ("x", Some "bye")], "spam")] ++
             [([("w", Some "buy")], "spam")]))
         ("spam", "w") =
Some (dict_get_default (snd (count zero_override [("w", Some "buy")])) "w" 0 /
      (fst (count zero_override [("w", Some "buy")]) +
       inject_Z (Z.of_nat (List.length [["w"]]))))%Q.
Proof.
apply (last_example_decides_override zero_override
         [([("w", Some "hello"); ("x", Some "bye")], "spam")]
         [("w", Some "buy")] "spam" "w" [["w"]]).
- reflexivity.
- reflexivity.
- simpl. now left.
Defined.

Lemma tables_add_up_to_label_count_witness :
total (count_tables demo_examples) "spam" "w" =
fd_count (label_freqdist (count_tables demo_examples)) "spam".
Proof.
apply (tables_add_up_to_label_count demo_examples "spam" "w").
- repeat (constructor; [constructor; [simpl; tauto | constructor] |]).
  constructor.
- vm_compute. now left.
Defined.

Lemma bins_cover_the_samples_witness :
NoDup (dict_keys [(Some "buy", 1); (Some "hello", 2)]) /\
incl (dict_keys [(Some "buy", 1); (Some "hello", 2)])
     (values_of (count_tables demo_examples) (snd ("ham", "w"))) /\
1 <= fd_B [(Some "buy", 1); (Some "hello", 2)]
  <= bins_of (count_tables demo_examples) (snd ("ham", "w")).
Proof.
apply (bins_cover_the_samples demo_examples ("ham", "w")
         [(Some "buy", 1); (Some "hello", 2)]).
vm_compute. right. now left.
Defined.

Lemma trained_model_has_every_pair_witness :
NoDup (labels demo_model) /\
(In "spam" (labels demo_model) <-> labelled demo_examples "spam" = true) /\
(In "spam" (labels demo_model) -> unseen demo_model "w" = false ->
 exists pd, dict_get (_feature_probdist demo_model) ("spam", "w") = Some pd /\
            forall g v, feature_term g demo_model "spam" "w" v =
                        match try_override g pd "spam" "w" v with
                        | Ok x => x
                        | Raise _ => logprob pd v
                        end).
Proof.
exact (trained_model_has_every_pair demo_examples demo_model "spam" "w"
         demo_model_trained).
Defined.

Lemma ranking_lists_each_pair_once_witness :
NoDup [("w", Some "buy"); ("w", Some "hello")] /\
(forall ft, In ft [("w", Some "buy"); ("w", Some "hello")] ->
   In ft (map fst (observations demo_model)) /\
   ~ (min_prob demo_model ft == 0)%Q) /\
(0 <= 5 ->
 Z.of_nat (List.length [("w", Some "buy"); ("w", Some "hello")]) < 5 ->
 forall ft, In ft (map fst (observations demo_model)) ->
            ~ (min_prob demo_model ft == 0)%Q ->
            In ft [("w", Some "buy"); ("w", Some "hello")]).
Proof.
apply (ranking_lists_each_pair_once demo_model 5
         [("w", Some "buy"); ("w", Some "hello")]).
vm_compute. reflexivity.
Defined.

Lemma shown_lines_carry_ratios_witness :
(0 <= 5 ->
 Z.of_nat (List.length (fst (show_most_informative_features demo_model 5))) <= 5) /\
forall ln, In ln (fst (show_most_informative_features demo_model 5)) ->
  In (line_fname ln, line_fval ln) (map fst (observations demo_model)) /\
  In (line_high ln) (_labels demo_model) /\
  In (line_low ln) (_labels demo_model) /\
  exists r, line_ratio ln = Some r /\
            (1 <= r)%Q /\
            (r <= informativeness demo_model (line_fname ln, line_fval ln))%Q.
Proof.
apply (shown_lines_carry_ratios demo_model 5).
exact (trained_observations_nonneg demo_examples demo_model demo_model_trained).
Defined.

Lemma show_of_trained_model_raises_nothing_witness :
snd (show_most_informative_features demo_model 5) = None.
Proof.
exact (show_of_trained_model_raises_nothing demo_examples demo_model 5
         demo_model_trained).
Defined.

Lemma score_is_prior_plus_feature_terms_witness :
dict_keys (score_table unbound demo_model [("w", Some "buy")]) =
  _labels demo_model /\
forall l, In l (_labels demo_model) ->
  dict_get (score_table unbound demo_model [("w", Some "buy")]) l =
  Some (label_score (feature_term unbound demo_model) demo_model
          (filter (fun kv => negb (unseen demo_model (fst kv)))
                  [("w", Some "buy")]) l).
Proof.
apply (score_is_prior_plus_feature_terms unbound demo_model [("w", Some "buy")]).
change (NoDup ["spam"; "ham"]).
constructor; [simpl; intuition discriminate|].
constructor; [simpl; tauto | constructor].
Defined.

Lemma unshuffled_split_separates_labels_witness :
(Z.of_nat (List.length ["buy now"; "buy more"]) <= 2 ->
 Forall (fun ex => snd ex = "ham")
   (snd (train_test_split
           (featurize (fun email : string => [("w", Some email)])
                      (append_ham_and_spam ["hello"] ["buy now"; "buy more"]))
           2))) /\
(2 <= Z.of_nat (List.length ["buy now"; "buy more"]) ->
 Forall (fun ex => snd ex = "spam")
   (fst (train_test_split
           (featurize (fun email : string => [("w", Some email)])
                      (append_ham_and_spam ["hello"] ["buy now"; "buy more"]))
           2))).
Proof.
apply (unshuffled_split_separates_labels
         (fun email : string => [("w", Some email)])
         ["hello"] ["buy now"; "buy more"] 2).
lia.
Defined.

(** What the example shows: one line, for the value that both labels
    have. *)
Example demo_show :
  show_most_informative_features demo_model 5 =
    ([ {| line_fname := "w"; line_fval := Some "buy";
          line_high := "spam"; line_low := "ham";
          line_ratio := Some (224 # 96) |} ], None).
Proof. vm_compute. reflexivity. Qed.

(** The override table of the example. *)
Example demo_overrides :
  normal_probability zero_override demo_examples =
    [(("spam", "w"), 1 # 2); (("ham", "w"), 1 # 2)].
Proof. vm_compute. reflexivity. Qed.
End RunningExampleContinued.

(** ** The whole ranking *)

Lemma slice_to_length {A} (l : list A) (n : Z) :
  Z.of_nat (List.length (slice_to l n)) =
  if n <? 0 then Z.max 0 (Z.of_nat (List.length l) + n)
  else Z.min n (Z.of_nat (List.length l)).
Proof.
  unfold slice_to. destruct (Z.ltb_spec n 0); rewrite length_firstn; lia.
Qed.

Section WholeRanking.
Context `{Numerics} `{SetOrder}.

(** One list holds the whole ranking, and every call returns a slice of
    it. *)
Lemma full_ranking (self : NaiveBayesClassifier) :
  Forall (fun o => 0 <= snd o)%Q (observations self) ->
  exists full,
    NoDup full /\
    (forall ft, In ft full <-> ranked self ft) /\
    StronglySorted
      (fun a b => informativeness self b <= informativeness self a)%Q full /\
    forall n, most_informative_features self n = Ok (slice_to full n).
Proof.
  intros Hn.
  set (st := scan self).
  set (K := fun ft : feature =>
              (dict_get_default (minprob st) ft 1 /
               dict_get_default (maxprob st) ft 0)%Q).
  set (keyed := map (fun ft => (K ft, ft)) (set_iter _ (features st))).
  assert (Hkey : sequence (map (fun ft => k <- rank_key st ft ;; Ok (k, ft))
                               (set_iter _ (features st))) = Ok keyed).
  { apply sequence_Ok. intros ft Hft.
    apply (Permutation_in _ (set_iter_perm _ _)) in Hft. unfold rank_key.
    destruct (eligible_positive self ft Hn Hft) as [_ Pmx].
    destruct (scan_spec self ft) as [_ [Emx _]]. fold st in Emx.
    destruct (Qeq_bool (dict_get_default (maxprob st) ft 0%Q) 0%Q) eqn:Z;
      [|reflexivity].
    apply Qeq_bool_iff in Z. rewrite Emx in Z. rewrite Z in Pmx. discriminate. }
  assert (Hkeyed : forall x, In x (sorted_by_key keyed) ->
                   In (snd x) (features st) /\ fst x = K (snd x)).
  { intros x Hx. rewrite sorted_by_key_In in Hx. unfold keyed in Hx.
    apply in_map_iff in Hx. destruct Hx as [ft [<- Hft]].
    apply (Permutation_in _ (set_iter_perm _ _)) in Hft. simpl. tauto. }
  assert (P : Permutation (map snd (sorted_by_key keyed)) (features st)).
  { eapply Permutation_trans; [apply Permutation_map, sorted_by_key_perm|].
    unfold keyed. rewrite map_map. cbn [snd]. rewrite map_id.
    apply set_iter_perm. }
  exists (map snd (sorted_by_key keyed)).
  split; [|split; [|split]].
  - apply (Permutation_NoDup (Permutation_sym P)), scan_NoDup.
  - intros ft. unfold ranked. rewrite <- (proj2 (proj2 (scan_spec self ft))).
    fold st. split; apply Permutation_in; [exact P | exact (Permutation_sym P)].
  - apply StronglySorted_map
      with (R := fun a b => (fst a <= fst b)%Q)
           (P := fun x => In (snd x) (features st) /\ fst x = K (snd x)).
    + intros x y [Fx Ex] [Fy Ey] L. rewrite Ex, Ey in L. unfold K in L.
      destruct (eligible_positive self _ Hn Fx) as [mnx mxx].
      destruct (eligible_positive self _ Hn Fy) as [mny mxy].
      destruct (scan_spec self (snd x)) as [Enx [Exx _]].
      destruct (scan_spec self (snd y)) as [Eny [Exy _]].
      fold st in Enx, Exx, Eny, Exy.
      rewrite Enx, Exx, Eny, Exy in L.
      unfold informativeness. now apply ratio_antitone.
    + apply Forall_forall. exact Hkeyed.
    + apply sorted_by_key_sorted.
  - intros n. unfold most_informative_features. fold st. rewrite Hkey.
    reflexivity.
Qed.

(** C8, as the code has it: on a model whose probabilities are not
    negative, as those of every trained model, one list [full] holds the
    whole ranking.  It lists, once each, the pairs (feature name, value) of
    the table whose smallest probability is not 0, in descending order of
    the ratio of the largest to the smallest probability of the pair, both
    taken over the distributions that list the value among their samples.
    For every integer [n], [most_informative_features(n)] returns the
    slice [full[:n]]: the first [n] pairs, or all of them if there are
    fewer, when [n] is not negative, and all but the last [-n] when it
    is. *)
Theorem most_informative_features_ranked (self : NaiveBayesClassifier) :
  Forall (fun o => 0 <= snd o)%Q (observations self) ->
  exists full,
    NoDup full /\
    (forall ft, In ft full <->
                In ft (map fst (observations self)) /\
                ~ (min_prob self ft == 0)%Q) /\
    StronglySorted
      (fun a b => informativeness self b <= informativeness self a)%Q full /\
    forall n,
      most_informative_features self n = Ok (slice_to full n) /\
      (0 <= n ->
       slice_to full n = firstn (Z.to_nat n) full /\
       Z.of_nat (List.length (slice_to full n)) =
         Z.min n (Z.of_nat (List.length full))) /\
      (n < 0 ->
       slice_to full n =
         firstn (List.length full - Z.to_nat (- n)) full /\
       Z.of_nat (List.length (slice_to full n)) =
         Z.max 0 (Z.of_nat (List.length full) + n)).
Proof.
  intros Hn. destruct (full_ranking self Hn) as [full [N [I [S M]]]].
  exists full. split; [exact N|]. split; [exact I|]. split; [exact S|].
  intros n. split; [apply M|].
  pose proof (slice_to_length full n) as L. unfold slice_to in *.
  destruct (Z.ltb_spec n 0); split; intros Hs; try lia.
  - split; [|exact L]. f_equal. lia.
  - split; [reflexivity | exact L].
Qed.
End WholeRanking.

(** ** Failure without labels, shared bins, and overrides of 0 *)

Section ClosingStatements.
Context `{SetOrder}.

Section AnyNumerics.
Context `{Numerics}.


Lemma fitted_table_bins (exs : list (dict fname fval * label))
    (l : label) (f : fname) :
  In (l, f) (dict_keys (feature_freqdist (count_tables exs))) ->
  1 <= bins_of (count_tables exs) f /\
  n_label exs l <= total (count_tables exs) l f /\
  (Forall (fun ex => NoDup (dict_keys (fst ex))) exs ->
   total (count_tables exs) l f = n_label exs l).
Proof.
  intros Hk.
  destruct (count_tables_spec exs) as [_ [_ [_ [_ [_ [A6 [A7 A8]]]]]]].
  pose proof Hk as Hk'. apply A7 in Hk'. destruct Hk' as [L M].
  pose proof (final_total_lower exs l f L M) as Hlow.
  pose proof (labelled_positive exs l L) as Hpos.
  split; [|split].
  - unfold dict_keys in Hk. apply in_map_iff in Hk.
    destruct Hk as [[k fd] [Ek Hin]]. cbn [fst] in Ek. subst k.
    destruct (count_tables_recorded exs _ _ Hin) as [Hnd Hincl].
    cbn [snd] in Hincl.
    pose proof (dict_get_In_NoDup _ _ _ A8 Hin) as G.
    assert (HN : 1 <= fd_N fd).
    { specialize (A6 l f). unfold total, dict_get_default in A6. rewrite G in A6.
      rewrite A6. lia. }
    assert (HB : (1 <= List.length (dict_keys fd))%nat).
    { destruct fd as [|x fd']; [cbv in HN; congruence | simpl; lia]. }
    unfold bins_of. fold (values_of (count_tables exs) f).
    pose proof (NoDup_incl_length Hnd Hincl). lia.
  - rewrite A6. exact Hlow.
  - intros Hn. rewrite A6. unfold final_total, shortfall. rewrite L, M. cbn [andb].
    pose proof (features_at_most_examples exs l f Hn).
    destruct (Z.ltb_spec 0 (n_label exs l - n_feature exs l f)); lia.
Qed.

(** C7, as the code has it: every conditional distribution of a trained
    model was fitted with [bins] equal to the number of values recorded
    for its feature name, the same for every label; the values recorded
    are, without repetition, the values with a positive frequency under
    some label, [None] included when imputation counted it.  The
    denominator is another matter: with the default estimator the
    probability of a value is its count plus a half over the total of the
    pair's own table plus half the bins, and that total is at least the
    number of examples of the label, and equal to it when the names of
    every feature set are distinct. *)
Theorem conditional_distributions_share_bins (estimator : Estimator)
    (exs : list (dict fname fval * label)) (m : NaiveBayesClassifier)
    (l : label) (f : fname) (pd : ProbDistI fval) :
  train estimator exs = Ok m ->
  dict_get (_feature_probdist m) (l, f) = Some pd ->
  (exists fd,
      In ((l, f), fd) (feature_freqdist (count_tables exs)) /\
      estimator fval _ fd
        (Some (Z.of_nat (List.length (values_of (count_tables exs) f)))) = Ok pd) /\
  NoDup (values_of (count_tables exs) f) /\
  (forall v, In v (values_of (count_tables exs) f) <->
             exists l', 0 < freq (count_tables exs) l' f v) /\
  1 <= bins_of (count_tables exs) f /\
  n_label exs l <= total (count_tables exs) l f /\
  (Forall (fun ex => NoDup (dict_keys (fst ex))) exs ->
   total (count_tables exs) l f = n_label exs l) /\
  (forall m0 pd0,
      train ELEProbDist exs = Ok m0 ->
      dict_get (_feature_probdist m0) (l, f) = Some pd0 ->
      forall v,
        prob pd0 v =
        ((inject_Z (freq (count_tables exs) l f v) + (1 # 2)) /
         (inject_Z (total (count_tables exs) l f) +
          (1 # 2) * inject_Z (bins_of (count_tables exs) f)))%Q).
Proof.
  intros Ht Hget.
  destruct (fitted_with_shared_bins estimator exs m l f pd Ht Hget)
    as [[fd [Hin Hest]] [Hnd Hval]].
  assert (Hk : In (l, f) (dict_keys (feature_freqdist (count_tables exs)))).
  { unfold dict_keys. now apply (in_map fst) in Hin. }
  destruct (fitted_table_bins exs l f Hk) as [B1 [B2 B3]].
  split; [exists fd; split; assumption|].
  split; [exact Hnd|]. split; [exact Hval|].
  split; [exact B1|]. split; [exact B2|]. split; [exact B3|].
  intros m0 pd0 Ht0 G0 v.
  destruct (trained_model_spec exs m0 Ht0) as [_ [_ [_ C]]].
  rewrite (proj1 (C l f pd0 G0 v)). unfold ele_prob.
  destruct (Z.eqb_spec (bins_of (count_tables exs) f) 0); [lia | reflexivity].
Qed.

Lemma trained_score_keys (exs : list (dict fname fval * label))
    (m : NaiveBayesClassifier) :
  train ELEProbDist exs = Ok m ->
  NoDup (_labels m) /\
  (exs <> [] -> _labels m <> []) /\
  forall g fs, dict_keys (score_table g m fs) = _labels m.
Proof.
  intros Ht. destruct (trained_model_spec exs m Ht) as [L _].
  destruct (count_tables_spec exs) as [_ [_ [Hin [Hnd _]]]].
  split; [now rewrite L|]. split.
  - intros Hne E. destruct exs as [|ex exs0]; [congruence|].
    assert (Hl : In (snd ex) (_labels m)).
    { rewrite L. apply Hin. unfold labelled. cbn [existsb].
      now rewrite eqb_refl. }
    rewrite E in Hl. exact Hl.
  - intros g fs. unfold score_table, score_table_with. rewrite accumulate_keys.
    rewrite prior_table_keys_eq; [reflexivity|]. simpl. now rewrite L.
Qed.
End AnyNumerics.

Section InExactArithmetic.
Local Existing Instance Exact.

Lemma trained_scoring_defined (g : Globals)
    (exs : list (dict fname fval * label)) (m : NaiveBayesClassifier)
    (fs : dict fname fval) :
  exs <> [] ->
  train ELEProbDist exs = Ok m ->
  exists d,
    exact_normalize (score_table g m fs) = Ok d /\
    dict_keys d = _labels m /\
    Forall (fun kv => 0 <= snd kv /\ snd kv <= 1)%Q d /\
    (sumQ (dict_values d) == 1)%Q.
Proof.
  intros Hne Ht.
  destruct (trained_logprobs_nonneg exs m Ht) as [Hp Hc].
  destruct (trained_score_keys exs m Ht) as [_ [Hl Hk]].
  assert (Hnz : score_table g m fs <> []).
  { intros E. apply (Hl Hne). rewrite <- (Hk g fs), E. reflexivity. }
  assert (Hpos : Forall (fun kv => 0 <= snd kv)%Q (score_table g m fs)).
  { unfold score_table.
    apply (@score_table_with_Forall Exact (fun x => Qle 0 x)).
    - intros x y Hx Hy. simpl. now apply Qmult_le_0_compat.
    - exact Hp.
    - intros l f v. now apply exact_term_nonneg. }
  destruct (exact_normalize_distribution _ Hnz Hpos) as [d [E [K [B S]]]].
  exists d. split; [exact E|]. split; [|split; assumption].
  rewrite K. apply Hk.
Qed.
End InExactArithmetic.

(** C2, as the code has it: an override of 0 registered for a feature
    flagged frequent is not validated anywhere.  For every model the
    failure of [math.log] is caught like any other, the amount added for
    the pair is the model's own conditional log-probability, and the table
    of scores and the outcome of scoring are those computed with the
    override of that pair switched off.  On a model trained on at least
    one example scoring therefore raises nothing: in exact arithmetic it
    returns a distribution over the labels, and [classify] a label. *)
Theorem zero_override_falls_back (g : Globals) (l0 : label) (f0 : fname) (p : Q) :
  global_item (is_frequent g) f0 = Ok true ->
  global_item (frequent_probdist g) (l0, f0) = Ok p ->
  (p == 0)%Q ->
  (forall (N : Numerics) (self : @NaiveBayesClassifier N) (fs : dict fname fval),
      (forall v, feature_term g self l0 f0 v = own_term self l0 f0 v) /\
      score_table g self fs =
        score_table_with (without_override g self l0 f0) self
                         (discard_unseen self fs) /\
      prob_classify g self fs =
        DictionaryProbDist
          (score_table_with (without_override g self l0 f0) self
                            (discard_unseen self fs))) /\
  (forall (exs : list (dict fname fval * label))
          (m : @NaiveBayesClassifier Exact) (fs : dict fname fval),
      exs <> [] ->
      @train Exact _ ELEProbDist exs = Ok m ->
      exists d c,
        @prob_classify Exact g m fs = Ok d /\
        dict_keys d = @labels Exact m /\
        (sumQ (dict_values d) == 1)%Q /\
        @classify Exact g m fs = Ok c).
Proof.
  intros E1 E2 Hp. split.
  - intros N self fs. now apply (zero_override_caught g self l0 f0 p fs).
  - intros exs m fs Hne Ht.
    destruct (trained_scoring_defined g exs m fs Hne Ht) as [d [E [K [_ S]]]].
    exists d, (exact_max d).
    split; [exact E|]. split; [exact K|]. split; [exact S|].
    unfold classify, prob_classify. cbn [DictionaryProbDist Exact].
    rewrite E. reflexivity.
Qed.
End ClosingStatements.

(** ** Reordering the examples: samples, labels and ranking *)

Lemma positive_inc {S} `{Hashable S} (fd : FreqDist S) (s : S) (n : Z) :
  positive_table fd -> 0 < n -> positive_table (fd_inc fd s n).
Proof.
  intros Hfd Hn. unfold fd_inc. apply Forall_dict_set; [assumption|]. simpl.
  assert (0 <= fd_count fd s); [|lia].
  unfold fd_count. apply (Forall_get_default (fun c => 0 <= c)); [|lia].
  eapply Forall_impl; [|exact Hfd]. simpl. intros; lia.
Qed.

Lemma positive_default (t : Tables) (k : label * fname) :
  counts_positive t -> positive_table (dict_get_default (feature_freqdist t) k []).
Proof.
  intros Hf. apply (Forall_get_default (fun fd => positive_table fd)); [assumption|].
  constructor.
Qed.

Lemma sample_iff_counted {S} `{Hashable S} (fd : FreqDist S) (s : S) :
  positive_table fd -> (In s (dict_keys fd) <-> 0 < fd_count fd s).
Proof.
  intros Hp. unfold fd_count, dict_get_default.
  destruct (dict_get fd s) as [c|] eqn:G.
  - split; intros _.
    + apply dict_get_Some_In in G. unfold positive_table in Hp.
      rewrite Forall_forall in Hp. apply (Hp _ G).
    + apply dict_get_Some_In in G. unfold dict_keys.
      now apply (in_map fst) in G.
  - apply dict_get_None in G. split; [contradiction | lia].
Qed.

Lemma count_feature_positive (l : label) (t : Tables) (fv : fname * fval) :
  counts_positive t -> counts_positive (count_feature l t fv).
Proof.
  intros Hc. unfold count_feature, counts_positive. cbn [feature_freqdist].
  apply Forall_dict_set; [exact Hc|]. cbn [snd].
  apply positive_inc; [now apply positive_default | lia].
Qed.

Lemma count_example_positive (t : Tables) (ex : dict fname fval * label) :
  counts_positive t -> counts_positive (count_example t ex).
Proof.
  intros Hc. unfold count_example. apply fold_left_invariant.
  - intros a x _. apply count_feature_positive.
  - exact Hc.
Qed.

Lemma impute_feature_positive (l : label) (ns : Z) (t : Tables) (f : fname) :
  counts_positive t -> counts_positive (impute_feature l ns t f).
Proof.
  intros Hc. unfold impute_feature.
  destruct (Z.ltb_spec 0 (ns - fd_N (dict_get_default (feature_freqdist t) (l, f) [])));
    unfold counts_positive; cbn [feature_freqdist];
    (apply Forall_dict_set; [exact Hc|]); cbn [snd].
  - apply positive_inc; [now apply positive_default | assumption].
  - now apply positive_default.
Qed.

Lemma dict_keys_fd_inc {S} `{Hashable S} (fd : FreqDist S) (s : S) (n : Z) :
  dict_keys (fd_inc fd s n) = set_add (dict_keys fd) s.
Proof.
  unfold fd_inc, set_add. destruct (set_mem (dict_keys fd) s) eqn:M.
  - apply set_mem_spec in M. now apply dict_keys_set_present.
  - assert (Hn : ~ In s (dict_keys fd)).
    { intros Hin. apply set_mem_spec in Hin. congruence. }
    rewrite dict_keys_set_absent by exact Hn.
    unfold dict_keys. now rewrite map_app.
Qed.

Lemma counted_labels_first_seen (exs : list (dict fname fval * label)) (t : Tables) :
  dict_keys (label_freqdist (fold_left count_example exs t)) =
  fold_left set_add (map snd exs) (dict_keys (label_freqdist t)).
Proof.
  revert t. induction exs as [|ex exs IH]; intros t; [reflexivity|].
  cbn [fold_left map]. rewrite IH, count_example_labels. f_equal.
  apply dict_keys_fd_inc.
Qed.

Section ReorderedSamples.
Context `{SetOrder}.

Lemma impute_label_positive (t : Tables) (l : label) :
  counts_positive t -> counts_positive (impute_label t l).
Proof.
  intros Hc. unfold impute_label. apply fold_left_invariant.
  - intros a x _. apply impute_feature_positive.
  - exact Hc.
Qed.

Lemma count_tables_positive (exs : list (dict fname fval * label)) :
  counts_positive (count_tables exs).
Proof.
  unfold count_tables. apply fold_left_invariant.
  - intros a x _. apply impute_label_positive.
  - apply fold_left_invariant.
    + intros a x _. apply count_example_positive.
    + constructor.
Qed.

Lemma count_tables_labels (exs : list (dict fname fval * label)) :
  dict_keys (label_freqdist (count_tables exs)) = first_seen (map snd exs).
Proof.
  unfold count_tables, first_seen.
  rewrite (impute_labels_pairs _ _ _ _ eq_refl eq_refl).
  rewrite (proj1 (impute_pairs_frame _ _ _)).
  now rewrite counted_labels_first_seen.
Qed.
End ReorderedSamples.

Lemma fold_Qmin_base_le (ps : list Q) (b : Q) : (fold_right Qmin b ps <= b)%Q.
Proof.
  induction ps as [|x ps IH]; simpl; [apply Qle_refl|].
  eapply Qle_trans; [apply Q.le_min_r | exact IH].
Qed.

Lemma fold_Qmin_glb (ps : list Q) (b x : Q) :
  (x <= b)%Q -> (forall p, In p ps -> (x <= p)%Q) ->
  (x <= fold_right Qmin b ps)%Q.
Proof.
  intros Hb. induction ps as [|y ps IH]; intros Hp; simpl; [exact Hb|].
  apply Q.min_glb; [apply Hp; now left | apply IH; intros; apply Hp; now right].
Qed.

Lemma fold_Qmin_same (ps ps' : list Q) (b : Q) :
  (forall p, In p ps <-> In p ps') ->
  (fold_right Qmin b ps == fold_right Qmin b ps')%Q.
Proof.
  intros E. apply Qle_antisym; apply fold_Qmin_glb;
    try apply fold_Qmin_base_le; intros p Hp; apply fold_Qmin_le; now apply E.
Qed.

Lemma fold_Qmax_base_ge (ps : list Q) (b : Q) : (b <= fold_right Qmax b ps)%Q.
Proof.
  induction ps as [|x ps IH]; simpl; [apply Qle_refl|].
  eapply Qle_trans; [exact IH | apply Q.le_max_r].
Qed.

Lemma fold_Qmax_lub (ps : list Q) (b x : Q) :
  (b <= x)%Q -> (forall p, In p ps -> (p <= x)%Q) ->
  (fold_right Qmax b ps <= x)%Q.
Proof.
  intros Hb. induction ps as [|y ps IH]; intros Hp; simpl; [exact Hb|].
  apply Q.max_lub; [apply Hp; now left | apply IH; intros; apply Hp; now right].
Qed.

Lemma fold_Qmax_same (ps ps' : list Q) (b : Q) :
  (forall p, In p ps <-> In p ps') ->
  (fold_right Qmax b ps == fold_right Qmax b ps')%Q.
Proof.
  intros E. apply Qle_antisym; apply fold_Qmax_lub;
    try apply fold_Qmax_base_ge; intros p Hp; apply fold_Qmax_ge; now apply E.
Qed.

Lemma StronglySorted_weaken {A} (R R' : A -> A -> Prop) (l : list A) :
  (forall x y, R x y -> R' x y) -> StronglySorted R l -> StronglySorted R' l.
Proof.
  intros HR. induction 1 as [|x l Hs IH Hx]; constructor; [exact IH|].
  eapply Forall_impl; [|exact Hx]. intros y. apply HR.
Qed.

(** Two sorted arrangements of the same elements are the same list when
    no two distinct elements are ranked alike. *)
Lemma sorted_unique {A} (R : A -> A -> Prop) (l l' : list A) :
  StronglySorted R l -> StronglySorted R l' -> Permutation l l' ->
  (forall a b, In a l -> In b l -> R a b -> R b a -> a = b) ->
  l = l'.
Proof.
  intros Hs. revert l'. induction Hs as [|a l Hs IH Ha]; intros l' Hs' P Hu.
  - apply Permutation_nil in P. now subst.
  - destruct l' as [|b l'].
    { apply Permutation_sym, Permutation_nil in P. discriminate. }
    inversion Hs' as [|? ? Hs'' Hb]; subst.
    rewrite Forall_forall in Ha, Hb.
    assert (Eab : a = b).
    { assert (Ia : In a (b :: l')) by (apply (Permutation_in _ P); now left).
      assert (Ib : In b (a :: l))
        by (apply (Permutation_in _ (Permutation_sym P)); now left).
      destruct Ia as [->|Ia]; [reflexivity|].
      destruct Ib as [->|Ib]; [reflexivity|].
      apply Hu; [now left | now right | now apply Ha | now apply Hb]. }
    subst b. f_equal. apply IH.
    + exact Hs''.
    + now apply Permutation_cons_inv in P.
    + intros x y Hx Hy. apply Hu; now right.
Qed.

Lemma slice_to_same_length {A} (l l' : list A) (n : Z) :
  List.length l = List.length l' ->
  List.length (slice_to l n) = List.length (slice_to l' n).
Proof.
  intros E. apply Nat2Z.inj. rewrite !slice_to_length, E. reflexivity.
Qed.

Section ReorderedRanking.
Context `{Numerics} `{SetOrder}.

Lemma probs_of_In (self : NaiveBayesClassifier) (ft : feature) (p : Q) :
  In p (probs_of self ft) <-> In (ft, p) (observations self).
Proof.
  unfold probs_of. rewrite in_map_iff. split.
  - intros [[ft' p'] [E Hin]]. cbn [snd] in E. subst p'.
    apply filter_In in Hin. destruct Hin as [Hin Ef]. cbn [fst] in Ef.
    apply eqb_eq in Ef. now subst ft'.
  - intros Hin. exists (ft, p). split; [reflexivity|].
    apply filter_In. split; [exact Hin | apply eqb_refl].
Qed.

(** The observations of a trained model, read off the tables. *)
Lemma trained_observation (exs : list (dict fname fval * label))
    (m : NaiveBayesClassifier) (f : fname) (v : fval) (p : Q) :
  train ELEProbDist exs = Ok m ->
  (In ((f, v), p) (observations m) <->
   exists l,
     In (l, f) (dict_keys (feature_freqdist (count_tables exs))) /\
     0 < freq (count_tables exs) l f v /\
     p = ele_prob (freq (count_tables exs) l f v)
                  (total (count_tables exs) l f)
                  (bins_of (count_tables exs) f)).
Proof.
  intros Ht.
  destruct (trained_model_spec exs m Ht) as [_ [_ [K C]]].
  destruct (count_tables_spec exs) as [_ [_ [_ [_ [_ [_ [_ A8]]]]]]].
  pose proof (count_tables_positive exs) as Hpos.
  assert (Hnd : NoDup (dict_keys (_feature_probdist m))).
  { destruct (train_inv _ _ _ Ht) as [lp [fp [_ [Hfit ->]]]].
    cbn [init _feature_probdist]. unfold fit_features in Hfit.
    apply (fit_NoDup _ _ _ _ _ Hfit). constructor. }
  assert (Hs : forall l pd, dict_get (_feature_probdist m) (l, f) = Some pd ->
                            (In v (samples pd) <-> 0 < freq (count_tables exs) l f v)).
  { intros l pd G.
    destruct (train_inv _ _ _ Ht) as [lp [fp [_ [Hfit Em]]]]. subst m.
    cbn [init _feature_probdist] in G. unfold fit_features in Hfit.
    destruct (fit_fold _ _ _ _ _ _ _ Hfit G) as [G0 | [fd [Hin Hest]]];
      [discriminate|].
    apply ELEProbDist_inv in Hest. destruct Hest as [Es _]. rewrite Es.
    unfold freq, dict_get_default.
    rewrite (dict_get_In_NoDup _ _ _ A8 Hin).
    apply sample_iff_counted.
    unfold counts_positive in Hpos. rewrite Forall_forall in Hpos.
    apply (Hpos _ Hin). }
  unfold observations. rewrite in_flat_map. split.
  - intros [[[l f'] pd] [Hin Ho]]. cbn [fst snd] in Ho.
    apply in_map_iff in Ho. destruct Ho as [v0 [E Hv]].
    injection E as -> -> <-.
    pose proof (dict_get_In_NoDup _ _ _ Hnd Hin) as G.
    exists l. split; [|split].
    + apply K. unfold dict_keys. now apply (in_map fst) in Hin.
    + now apply (Hs l pd G).
    + apply (proj1 (C l f pd G v)).
  - intros [l [Hk [Hf Ep]]]. apply K in Hk.
    destruct (dict_get (_feature_probdist m) (l, f)) as [pd|] eqn:G;
      [|apply dict_get_None in G; contradiction].
    exists ((l, f), pd). split; [now apply dict_get_Some_In|].
    cbn [fst snd]. apply in_map_iff. exists v. split.
    + now rewrite Ep, (proj1 (C l f pd G v)).
    + now apply (Hs l pd G).
Qed.

Lemma reordered_observations (exs exs' : list (dict fname fval * label))
    (m m' : NaiveBayesClassifier) :
  Permutation exs exs' ->
  train ELEProbDist exs = Ok m ->
  train ELEProbDist exs' = Ok m' ->
  forall o, In o (observations m) <-> In o (observations m').
Proof.
  intros P Ht Ht' [[f v] p].
  rewrite (trained_observation exs m f v p Ht).
  rewrite (trained_observation exs' m' f v p Ht').
  destruct (count_tables_perm exs exs' P) as [_ [_ [_ [T4 [T5 [T6 T7]]]]]].
  assert (B : bins_of (count_tables exs) f = bins_of (count_tables exs') f).
  { unfold bins_of. fold (values_of (count_tables exs) f).
    fold (values_of (count_tables exs') f).
    now rewrite (Permutation_length (T7 f)). }
  split; intros [l [Hk [Hf Ep]]]; exists l.
  - rewrite <- T5, <- T6, <- B. split; [|tauto].
    now apply (Permutation_in _ T4).
  - rewrite T5, T6, B. split; [|tauto].
    now apply (Permutation_in _ (Permutation_sym T4)).
Qed.

Lemma reordered_extremes (exs exs' : list (dict fname fval * label))
    (m m' : NaiveBayesClassifier) :
  Permutation exs exs' ->
  train ELEProbDist exs = Ok m ->
  train ELEProbDist exs' = Ok m' ->
  forall ft,
    (min_prob m ft == min_prob m' ft)%Q /\
    (max_prob m ft == max_prob m' ft)%Q /\
    (informativeness m ft == informativeness m' ft)%Q /\
    (ranked m ft <-> ranked m' ft).
Proof.
  intros P Ht Ht' ft.
  pose proof (reordered_observations exs exs' m m' P Ht Ht') as O.
  assert (E : forall p, In p (probs_of m ft) <-> In p (probs_of m' ft)).
  { intros p. now rewrite !probs_of_In, O. }
  assert (Emin : (min_prob m ft == min_prob m' ft)%Q)
    by (unfold min_prob; now apply fold_Qmin_same).
  assert (Emax : (max_prob m ft == max_prob m' ft)%Q)
    by (unfold max_prob; now apply fold_Qmax_same).
  split; [exact Emin|]. split; [exact Emax|]. split.
  - unfold informativeness. now rewrite Emin, Emax.
  - unfold ranked. rewrite Emin.
    assert (I : In ft (map fst (observations m)) <->
                In ft (map fst (observations m'))).
    { rewrite !in_map_iff. split; intros [o [Eo Ho]]; exists o;
        (split; [exact Eo | now apply O]). }
    now rewrite I.
Qed.

(** The rankings of two models trained on the same examples in different
    orders. *)
Lemma reordered_ranking (exs exs' : list (dict fname fval * label))
    (m m' : NaiveBayesClassifier) (n : Z) :
  Permutation exs exs' ->
  train ELEProbDist exs = Ok m ->
  train ELEProbDist exs' = Ok m' ->
  exists out out',
    most_informative_features m n = Ok out /\
    most_informative_features m' n = Ok out' /\
    List.length out = List.length out' /\
    (0 <= n -> Z.of_nat (List.length out) < n -> Permutation out out') /\
    ((forall a b, ranked m a -> ranked m b ->
                  (informativeness m a == informativeness m b)%Q -> a = b) ->
     out = out').
Proof.
  intros P Ht Ht'.
  pose proof (reordered_extremes exs exs' m m' P Ht Ht') as X.
  destruct (full_ranking m (trained_observations_nonneg exs m Ht))
    as [full [N [I [S M]]]].
  destruct (full_ranking m' (trained_observations_nonneg exs' m' Ht'))
    as [full' [N' [I' [S' M']]]].
  assert (PF : Permutation full full').
  { apply NoDup_Permutation; [exact N | exact N' |].
    intros ft. rewrite I, I'. apply X. }
  exists (slice_to full n), (slice_to full' n).
  split; [apply M|]. split; [apply M'|]. split; [|split].
  - apply slice_to_same_length. now apply Permutation_length.
  - intros Hpos Hlt. unfold slice_to in *.
    destruct (Z.ltb_spec n 0); [lia|].
    rewrite length_firstn in Hlt.
    pose proof (Permutation_length PF).
    rewrite !firstn_all2 by lia. exact PF.
  - intros Hu. f_equal.
    apply (sorted_unique
             (fun a b => informativeness m b <= informativeness m a)%Q);
      [exact S | | exact PF |].
    + eapply StronglySorted_weaken; [|exact S']. cbn beta. intros x y L.
      now rewrite (proj1 (proj2 (proj2 (X x)))), (proj1 (proj2 (proj2 (X y)))).
    + intros a b Ha Hb L1 L2. apply Hu; [now apply I | now apply I |].
      now apply Qle_antisym.
Qed.
End ReorderedRanking.

(** ** Reordering the examples: the distribution and the label returned *)

Lemma ascii_compare_refl (a : Ascii.ascii) : Ascii.compare a a = Eq.
Proof. unfold Ascii.compare. apply N.compare_refl. Qed.

Lemma ascii_compare_trans (a b c : Ascii.ascii) :
  Ascii.compare a b = Lt -> Ascii.compare b c = Lt -> Ascii.compare a c = Lt.
Proof.
  unfold Ascii.compare. rewrite !N.compare_lt_iff. apply N.lt_trans.
Qed.

Lemma string_compare_refl (s : string) : String.compare s s = Eq.
Proof.
  induction s as [|a s IH]; simpl; [reflexivity|].
  now rewrite ascii_compare_refl.
Qed.

Lemma string_compare_trans (s1 s2 s3 : string) :
  String.compare s1 s2 = Lt -> String.compare s2 s3 = Lt ->
  String.compare s1 s3 = Lt.
Proof.
  revert s2 s3. induction s1 as [|a s1 IH]; intros [|b s2] [|c s3]; simpl;
    try discriminate; try reflexivity.
  destruct (Ascii.compare a b) eqn:Eab; try discriminate.
  - apply Ascii.compare_eq_iff in Eab. subst b.
    destruct (Ascii.compare a c) eqn:Eac; try discriminate; try reflexivity.
    apply IH.
  - intros _. destruct (Ascii.compare b c) eqn:Ebc; try discriminate.
    + apply Ascii.compare_eq_iff in Ebc. subst c. now rewrite Eab.
    + now rewrite (ascii_compare_trans a b c Eab Ebc).
Qed.

Lemma string_ltb_trans (s1 s2 s3 : string) :
  String.ltb s1 s2 = true -> String.ltb s2 s3 = true -> String.ltb s1 s3 = true.
Proof.
  unfold String.ltb. intros H1 H2.
  destruct (String.compare s1 s2) eqn:E1; try discriminate.
  destruct (String.compare s2 s3) eqn:E2; try discriminate.
  now rewrite (string_compare_trans _ _ _ E1 E2).
Qed.

Lemma string_ltb_total (s1 s2 : string) :
  String.ltb s1 s2 = false -> String.ltb s2 s1 = false -> s1 = s2.
Proof.
  unfold String.ltb. rewrite (String.compare_antisym s2 s1).
  destruct (String.compare s1 s2) eqn:E; simpl; try discriminate.
  intros _ _. now apply String.compare_eq_iff.
Qed.

Lemma pair_ltb_irrefl (a : Q * label) : pair_ltb a a = false.
Proof.
  unfold pair_ltb. rewrite (proj1 (Qeq_alt _ _) (Qeq_refl (fst a))).
  unfold String.ltb. now rewrite string_compare_refl.
Qed.

Lemma pair_ltb_compat (a a' b b' : Q * label) :
  (fst a == fst a')%Q -> snd a = snd a' ->
  (fst b == fst b')%Q -> snd b = snd b' ->
  pair_ltb a b = pair_ltb a' b'.
Proof.
  intros Ea Sa Eb Sb. unfold pair_ltb.
  now rewrite (Qcompare_comp _ _ Ea _ _ Eb), Sa, Sb.
Qed.

Lemma pair_ltb_trans (a b c : Q * label) :
  pair_ltb a b = true -> pair_ltb b c = true -> pair_ltb a c = true.
Proof.
  unfold pair_ltb.
  destruct (Qcompare_spec (fst a) (fst b)) as [Eab|Lab|Gab]; try discriminate;
    destruct (Qcompare_spec (fst b) (fst c)) as [Ebc|Lbc|Gbc]; try discriminate;
    intros H1 H2.
  - rewrite (proj1 (Qeq_alt _ _) (Qeq_trans _ _ _ Eab Ebc)).
    now apply (string_ltb_trans _ (snd b)).
  - assert (L : (fst a < fst c)%Q) by now rewrite Eab.
    now rewrite (proj1 (Qlt_alt _ _) L).
  - assert (L : (fst a < fst c)%Q) by now rewrite <- Ebc.
    now rewrite (proj1 (Qlt_alt _ _) L).
  - now rewrite (proj1 (Qlt_alt _ _) (Qlt_trans _ _ _ Lab Lbc)).
Qed.

Lemma pair_ltb_total (a b : Q * label) :
  pair_ltb a b = false -> pair_ltb b a = false ->
  (fst a == fst b)%Q /\ snd a = snd b.
Proof.
  unfold pair_ltb. rewrite <- (Qcompare_antisym (fst a) (fst b)).
  destruct (Qcompare_spec (fst a) (fst b)) as [E|L|G]; simpl; try discriminate.
  intros H1 H2. split; [exact E | now apply string_ltb_total].
Qed.

(** Not being below is transitive as well. *)
Lemma pair_ltb_negtrans (a b c : Q * label) :
  pair_ltb a b = false -> pair_ltb b c = false -> pair_ltb a c = false.
Proof.
  intros H1 H2. destruct (pair_ltb a c) eqn:H3; [|reflexivity]. exfalso.
  destruct (pair_ltb b a) eqn:H4.
  - rewrite (pair_ltb_trans b a c H4 H3) in H2. discriminate.
  - destruct (pair_ltb_total a b H1 H4) as [E S].
    rewrite (pair_ltb_compat a b c c E S (Qeq_refl _) eq_refl) in H3.
    congruence.
Qed.

Lemma fold_max_spec (rest : dict label Q) (best : Q * label) :
  let step := fun (best : Q * label) (kv : label * Q) =>
                if pair_ltb best (snd kv, fst kv) then (snd kv, fst kv) else best in
  let r := fold_left step rest best in
  (r = best \/ exists kv, In kv rest /\ r = (snd kv, fst kv)) /\
  pair_ltb r best = false /\
  forall kv, In kv rest -> pair_ltb r (snd kv, fst kv) = false.
Proof.
  cbv zeta. revert best. induction rest as [|x rest IH]; intros best.
  - cbn [fold_left]. split; [now left|]. split; [apply pair_ltb_irrefl|].
    intros kv [].
  - cbn [fold_left]. destruct (pair_ltb best (snd x, fst x)) eqn:L.
    + destruct (IH (snd x, fst x)) as [A [B C]]. split; [|split].
      * right. destruct A as [A|[kv [Hkv A]]].
        -- exists x. split; [now left | exact A].
        -- exists kv. split; [now right | exact A].
      * match goal with |- pair_ltb ?r _ = _ => destruct (pair_ltb r best) eqn:R end;
          [|reflexivity].
        rewrite (pair_ltb_trans _ _ _ R L) in B. discriminate.
      * intros kv [<-|Hkv]; [exact B | now apply C].
    + destruct (IH best) as [A [B C]]. split; [|split].
      * destruct A as [A|[kv [Hkv A]]]; [now left|].
        right. exists kv. split; [now right | exact A].
      * exact B.
      * intros kv [<-|Hkv]; [|now apply C].
        now apply (pair_ltb_negtrans _ best).
Qed.

(** The label [exact_max] returns belongs to an entry that no entry
    exceeds. *)
Lemma exact_max_spec (d : dict label Q) :
  d <> [] ->
  exists p, In (exact_max d, p) d /\
            forall kv, In kv d -> pair_ltb (p, exact_max d) (snd kv, fst kv) = false.
Proof.
  destruct d as [|kv rest]; [congruence|]. intros _. unfold exact_max.
  destruct (fold_max_spec rest (snd kv, fst kv)) as [A [B C]]. cbv zeta in *.
  set (r := fold_left _ rest (snd kv, fst kv)) in *.
  exists (fst r). split.
  - destruct A as [A|[kv0 [Hkv0 A]]]; rewrite A; cbn [fst snd].
    + left. now destruct kv.
    + right. now destruct kv0.
  - intros kv1 [<-|Hkv1].
    + now rewrite <- surjective_pairing.
    + rewrite <- surjective_pairing. now apply C.
Qed.

Lemma exact_max_same (d d' : dict label Q) :
  NoDup (dict_keys d) -> NoDup (dict_keys d') ->
  (forall l, opt_Qeq (dict_get d l) (dict_get d' l)) ->
  exact_max d = exact_max d'.
Proof.
  intros N N' E.
  destruct d as [|kv rest] eqn:Ed; destruct d' as [|kv' rest'] eqn:Ed'.
  - reflexivity.
  - specialize (E (fst kv')). destruct kv' as [k v]. cbn in E.
    rewrite String.eqb_refl in E. contradiction.
  - specialize (E (fst kv)). destruct kv as [k v]. cbn in E.
    rewrite String.eqb_refl in E. contradiction.
  - rewrite <- Ed, <- Ed' in *.
    assert (Hne : d <> []) by (rewrite Ed; discriminate).
    assert (Hne' : d' <> []) by (rewrite Ed'; discriminate).
    destruct (exact_max_spec d Hne) as [p [Hin Hmax]].
    destruct (exact_max_spec d' Hne') as [p' [Hin' Hmax']].
    pose proof (dict_get_In_NoDup _ _ _ N Hin) as G.
    pose proof (dict_get_In_NoDup _ _ _ N' Hin') as G'.
    assert (X : pair_ltb (p', exact_max d') (p, exact_max d) = false).
    { pose proof (E (exact_max d)) as E1. rewrite G in E1.
      destruct (dict_get d' (exact_max d)) as [q|] eqn:G1; [|contradiction].
      cbn in E1. apply dict_get_Some_In in G1.
      rewrite <- (Hmax' _ G1). cbn [fst snd].
      apply pair_ltb_compat; cbn [fst snd]; auto using Qeq_refl. }
    assert (Y : pair_ltb (p, exact_max d) (p', exact_max d') = false).
    { pose proof (E (exact_max d')) as E1. rewrite G' in E1.
      destruct (dict_get d (exact_max d')) as [q|] eqn:G1; [|contradiction].
      cbn in E1. apply dict_get_Some_In in G1.
      rewrite <- (Hmax _ G1). cbn [fst snd].
      apply pair_ltb_compat; cbn [fst snd]; auto using Qeq_refl.
      now symmetry. }
    apply (pair_ltb_total _ _ Y X).
Qed.

Lemma sumQ_perm (l l' : list Q) : Permutation l l' -> (sumQ l == sumQ l')%Q.
Proof.
  induction 1 as [|x l l' _ IH|x y l|l l' l'' _ IH1 _ IH2]; simpl.
  - reflexivity.
  - fold (sumQ l) (sumQ l'). now rewrite IH.
  - fold (sumQ l). ring.
  - now rewrite IH1.
Qed.

Lemma dict_perm {K V} `{Hashable K} (d d' : dict K V) :
  NoDup (dict_keys d) -> NoDup (dict_keys d') ->
  (forall k, dict_get d k = dict_get d' k) ->
  Permutation d d'.
Proof.
  intros N N' E. apply NoDup_Permutation.
  - unfold dict_keys in N. now apply NoDup_map_inv in N.
  - unfold dict_keys in N'. now apply NoDup_map_inv in N'.
  - intros [k v]. split; intros Hin.
    + apply (dict_get_In_NoDup _ _ _ N) in Hin. rewrite E in Hin.
      now apply dict_get_Some_In.
    + apply (dict_get_In_NoDup _ _ _ N') in Hin. rewrite <- E in Hin.
      now apply dict_get_Some_In.
Qed.

Lemma dict_get_map_values {K V W} `{Hashable K} (h : V -> W) (d : dict K V) (k : K) :
  dict_get (map (fun kv => (fst kv, h (snd kv))) d) k = option_map h (dict_get d k).
Proof.
  induction d as [|[k0 v0] d IH]; [reflexivity|]. cbn [map dict_get fst snd].
  destruct (eqb k0 k); [reflexivity | exact IH].
Qed.

Lemma dict_keys_map_values {K V W} (h : K * V -> W) (d : dict K V) :
  dict_keys (map (fun kv => (fst kv, h kv)) d) = dict_keys d.
Proof. unfold dict_keys. rewrite map_map. reflexivity. Qed.

(** Normalising two tables that hold the same scores under the same
    labels, in whatever order, gives the same mapping. *)
Lemma exact_normalize_same (tbl tbl' : dict label Q) :
  NoDup (dict_keys tbl) -> NoDup (dict_keys tbl') ->
  (forall l, dict_get tbl l = dict_get tbl' l) ->
  match exact_normalize tbl, exact_normalize tbl' with
  | Ok d, Ok d' =>
      NoDup (dict_keys d) /\ NoDup (dict_keys d') /\
      forall l, opt_Qeq (dict_get d l) (dict_get d' l)
  | Raise e, Raise e' => e = e'
  | _, _ => False
  end.
Proof.
  intros N N' E. pose proof (dict_perm tbl tbl' N N' E) as P.
  assert (S : (sumQ (dict_values tbl) == sumQ (dict_values tbl'))%Q).
  { apply sumQ_perm. unfold dict_values. now apply Permutation_map. }
  assert (L : List.length tbl = List.length tbl') by now apply Permutation_length.
  unfold exact_normalize.
  destruct tbl as [|kv tbl0] eqn:Et; destruct tbl' as [|kv' tbl0'] eqn:Et';
    try discriminate; [reflexivity|].
  rewrite <- Et, <- Et' in *.
  assert (B : Qle_bool (sumQ (dict_values tbl)) 0 =
              Qle_bool (sumQ (dict_values tbl')) 0).
  { apply Bool.eq_iff_eq_true. now rewrite !Qle_bool_iff, S. }
  rewrite <- B. destruct (Qle_bool (sumQ (dict_values tbl)) 0).
  - split; [now rewrite dict_keys_map_values|].
    split; [now rewrite dict_keys_map_values|]. intros l.
    rewrite (dict_get_map_values
               (fun _ => (1 / inject_Z (Z.of_nat (List.length tbl)))%Q) tbl l).
    rewrite (dict_get_map_values
               (fun _ => (1 / inject_Z (Z.of_nat (List.length tbl')))%Q) tbl' l).
    rewrite <- E, L. destruct (dict_get tbl l); cbn; [reflexivity | exact I].
  - split; [now rewrite (dict_keys_map_values (fun kv => (snd kv / _)%Q))|].
    split; [now rewrite (dict_keys_map_values (fun kv => (snd kv / _)%Q))|].
    intros l.
    rewrite (dict_get_map_values
               (fun v => (v / sumQ (dict_values tbl))%Q) tbl l).
    rewrite (dict_get_map_values
               (fun v => (v / sumQ (dict_values tbl'))%Q) tbl' l).
    rewrite <- E. destruct (dict_get tbl l); cbn; [now rewrite S | exact I].
Qed.

Section ReorderedClassification.
Context `{SetOrder}.
Local Existing Instance Exact.

Lemma reordered_classification (exs exs' : list (dict fname fval * label))
    (m m' : NaiveBayesClassifier) :
  Permutation exs exs' ->
  train ELEProbDist exs = Ok m ->
  train ELEProbDist exs' = Ok m' ->
  forall g fs,
    same_distribution (prob_classify g m fs) (prob_classify g m' fs) /\
    classify g m fs = classify g m' fs.
Proof.
  intros P Ht Ht' g fs.
  destruct (reordered_training_same_tables exs exs' m P Ht)
    as [m'' [Ht'' [_ [_ [_ [_ Hs]]]]]].
  assert (m'' = m') by congruence. subst m''.
  destruct (trained_score_keys exs m Ht) as [N [_ K]].
  destruct (trained_score_keys exs' m' Ht') as [N' [_ K']].
  pose proof (exact_normalize_same (score_table g m fs) (score_table g m' fs)) as X.
  rewrite K, K' in X. specialize (X N N' (fun l => proj2 (Hs g fs l))).
  unfold classify, prob_classify, same_distribution.
  cbn [DictionaryProbDist dist_max Exact].
  destruct (exact_normalize (score_table g m fs)) as [d|e];
    destruct (exact_normalize (score_table g m' fs)) as [d'|e'];
    try contradiction.
  - destruct X as [Nd [Nd' Ed]]. split; [exact Ed|]. cbn [bind].
    f_equal. now apply exact_max_same.
  - split; [exact X|]. cbn [bind]. now rewrite X.
Qed.
End ReorderedClassification.

Section ReorderedTraining.
Context `{SetOrder}.

(** C5, as the code has it: training with the default estimator on a
    reordered list of examples.  [labels()] lists the labels in the order
    of their first occurrence in the list, so the two models have the same
    labels up to their order only.  They have the same prior probability
    for every label, conditional distributions under the same keys with
    the same probabilities and log-probabilities, and hence, for every
    feature set and override state, the same features kept and the same
    score for every label.  Every pair (feature name, value) has the same
    ratio of largest to smallest probability in both, both rank the same
    pairs, [most_informative_features(n)] returns lists of the same length,
    the same pairs when the list is shorter than [n], and the same list
    when no two ranked pairs have the same ratio; the order among pairs of
    equal ratio is that of the iteration over a set.  In exact arithmetic
    [prob_classify] gives every label the same probability in both and
    [classify] returns the same label, ties included. *)
Theorem training_is_order_independent
    (exs exs' : list (dict fname fval * label)) :
  Permutation exs exs' ->
  (forall (N : Numerics) (m : @NaiveBayesClassifier N),
      train ELEProbDist exs = Ok m ->
      exists m',
        train ELEProbDist exs' = Ok m' /\
        labels m = first_seen (map snd exs) /\
        labels m' = first_seen (map snd exs') /\
        Permutation (labels m) (labels m') /\
        (forall l, prob (_label_probdist m) l = prob (_label_probdist m') l) /\
        (forall k, In k (dict_keys (_feature_probdist m)) <->
                   In k (dict_keys (_feature_probdist m'))) /\
        (forall k pd pd',
            dict_get (_feature_probdist m) k = Some pd ->
            dict_get (_feature_probdist m') k = Some pd' ->
            forall v, prob pd v = prob pd' v /\ logprob pd v = logprob pd' v) /\
        (forall g fs l,
            discard_unseen m fs = discard_unseen m' fs /\
            dict_get (score_table g m fs) l = dict_get (score_table g m' fs) l) /\
        (forall ft,
            (informativeness m ft == informativeness m' ft)%Q /\
            (ranked m ft <-> ranked m' ft)) /\
        (forall n, exists out out',
            most_informative_features m n = Ok out /\
            most_informative_features m' n = Ok out' /\
            List.length out = List.length out' /\
            (0 <= n -> Z.of_nat (List.length out) < n -> Permutation out out') /\
            ((forall a b, ranked m a -> ranked m b ->
                          (informativeness m a == informativeness m b)%Q ->
                          a = b) ->
             out = out'))) /\
  (forall m : @NaiveBayesClassifier Exact,
      @train Exact _ ELEProbDist exs = Ok m ->
      exists m',
        @train Exact _ ELEProbDist exs' = Ok m' /\
        forall g fs,
          same_distribution (@prob_classify Exact g m fs)
                            (@prob_classify Exact g m' fs) /\
          @classify Exact g m fs = @classify Exact g m' fs).
Proof.
  intros P. split.
  - intros N m Ht.
    destruct (reordered_training_same_tables exs exs' m P Ht)
      as [m' [Ht' [A [B [C [D E]]]]]].
    exists m'. split; [exact Ht'|].
    destruct (trained_model_spec exs m Ht) as [L _].
    destruct (trained_model_spec exs' m' Ht') as [L' _].
    split; [unfold labels; now rewrite L, count_tables_labels|].
    split; [unfold labels; now rewrite L', count_tables_labels|].
    split; [exact A|]. split; [exact B|]. split; [exact C|].
    split; [exact D|]. split; [exact E|]. split.
    + intros ft.
      destruct (reordered_extremes exs exs' m m' P Ht Ht' ft) as [_ [_ [I R]]].
      split; assumption.
    + intros n. apply (reordered_ranking exs exs' m m' n P Ht Ht').
  - intros m Ht. destruct (train_total (H0 := Exact) exs') as [m' Ht'].
    exists m'. split; [exact Ht'|].
    apply (reordered_classification exs exs' m m' P Ht Ht').
Qed.
End ReorderedTraining.

(** ** The running example and the statements above *)

Section RunningExampleClosing.
Local Existing Instance Exact.
Local Existing Instance InsertionOrder.

Lemma zero_override_falls_back_witness :
(forall (N : Numerics) (self : @NaiveBayesClassifier N) (fs : dict fname fval),
    (forall v, feature_term zero_override self "spam" "w" v =
               own_term self "spam" "w" v) /\
    score_table zero_override self fs =
      score_table_with (without_override zero_override self "spam" "w") self
                       (discard_unseen self fs) /\
    prob_classify zero_override self fs =
      DictionaryProbDist
        (score_table_with (without_override zero_override self "spam" "w") self
                          (discard_unseen self fs))) /\
(forall (exs : list (dict fname fval * label))
        (m : @NaiveBayesClassifier Exact) (fs : dict fname fval),
    exs <> [] ->
    @train Exact _ ELEProbDist exs = Ok m ->
    exists d c,
      @prob_classify Exact zero_override m fs = Ok d /\
      dict_keys d = @labels Exact m /\
      (sumQ (dict_values d) == 1)%Q /\
      @classify Exact zero_override m fs = Ok c).
Proof.
apply (zero_override_falls_back zero_override "spam" "w" 0%Q); reflexivity.
Defined.

Lemma training_is_order_independent_witness :
(forall (N : Numerics) (m : @NaiveBayesClassifier N),
    train ELEProbDist demo_examples = Ok m ->
    exists m',
      train ELEProbDist (rev demo_examples) = Ok m' /\
      labels m = first_seen (map snd demo_examples) /\
      labels m' = first_seen (map snd (rev demo_examples)) /\
      Permutation (labels m) (labels m') /\
      (forall l, prob (_label_probdist m) l = prob (_label_probdist m') l) /\
      (forall k, In k (dict_keys (_feature_probdist m)) <->
                 In k (dict_keys (_feature_probdist m'))) /\
      (forall k pd pd',
          dict_get (_feature_probdist m) k = Some pd ->
          dict_get (_feature_probdist m') k = Some pd' ->
          forall v, prob pd v = prob pd' v /\ logprob pd v = logprob pd' v) /\
      (forall g fs l,
          discard_unseen m fs = discard_unseen m' fs /\
          dict_get (score_table g m fs) l = dict_get (score_table g m' fs) l) /\
      (forall ft,
          (informativeness m ft == informativeness m' ft)%Q /\
          (ranked m ft <-> ranked m' ft)) /\
      (forall n, exists out out',
          most_informative_features m n = Ok out /\
          most_informative_features m' n = Ok out' /\
          List.length out = List.length out' /\
          (0 <= n -> Z.of_nat (List.length out) < n -> Permutation out out') /\
          ((forall a b, ranked m a -> ranked m b ->
                        (informativeness m a == informativeness m b)%Q ->
                        a = b) ->
           out = out'))) /\
(forall m : @NaiveBayesClassifier Exact,
    @train Exact _ ELEProbDist demo_examples = Ok m ->
    exists m',
      @train Exact _ ELEProbDist (rev demo_examples) = Ok m' /\
      forall g fs,
        same_distribution (@prob_classify Exact g m fs)
                          (@prob_classify Exact g m' fs) /\
        @classify Exact g m fs = @classify Exact g m' fs).
Proof.
apply (training_is_order_independent demo_examples (rev demo_examples)).
apply Permutation_rev.
Defined.


Lemma conditional_distributions_share_bins_witness :
(exists fd,
    In (("spam", "w"), fd) (feature_freqdist (count_tables demo_examples)) /\
    ELEProbDist fval _ fd
      (Some (Z.of_nat (List.length (values_of (count_tables demo_examples) "w"))))
    = Ok demo_spam_w) /\
NoDup (values_of (count_tables demo_examples) "w") /\
(forall v, In v (values_of (count_tables demo_examples) "w") <->
           exists l', 0 < freq (count_tables demo_examples) l' "w" v) /\
1 <= bins_of (count_tables demo_examples) "w" /\
n_label demo_examples "spam" <= total (count_tables demo_examples) "spam" "w" /\
(Forall (fun ex => NoDup (dict_keys (fst ex))) demo_examples ->
 total (count_tables demo_examples) "spam" "w" = n_label demo_examples "spam") /\
(forall m0 pd0,
    train ELEProbDist demo_examples = Ok m0 ->
    dict_get (_feature_probdist m0) ("spam", "w") = Some pd0 ->
    forall v,
      prob pd0 v =
      ((inject_Z (freq (count_tables demo_examples) "spam" "w" v) + (1 # 2)) /
       (inject_Z (total (count_tables demo_examples) "spam" "w") +
        (1 # 2) * inject_Z (bins_of (count_tables demo_examples) "w")))%Q).
Proof.
apply (conditional_distributions_share_bins ELEProbDist
         demo_examples demo_model "spam" "w" demo_spam_w).
- exact demo_model_trained.
- exact demo_spam_w_found.
Defined.

(** The sample-space size is shared by the labels of a feature, the
    denominator is not.  Spam has one example and ham two; both
    distributions of ["w"] are fitted with two bins, the denominators are
    2 and 3, and the value ["a"], counted once under each label, has
    probability 3/4 under spam and 1/2 under ham. *)
Lemma smoothing_denominators_differ :
train ELEProbDist uneven_examples = Ok uneven_model /\
bins_of (count_tables uneven_examples) "w" = 2 /\
total (count_tables uneven_examples) "spam" "w" = 1 /\
total (count_tables uneven_examples) "ham" "w" = 2 /\
freq (count_tables uneven_examples) "spam" "w" (Some "a") = 1 /\
freq (count_tables uneven_examples) "ham" "w" (Some "a") = 1 /\
(inject_Z (total (count_tables uneven_examples) "spam" "w") +
 (1 # 2) * inject_Z (bins_of (count_tables uneven_examples) "w") == 2)%Q /\
(inject_Z (total (count_tables uneven_examples) "ham" "w") +
 (1 # 2) * inject_Z (bins_of (count_tables uneven_examples) "w") == 3)%Q /\
opt_Qeq (cond_prob uneven_model "spam" "w" (Some "a")) (Some (3 # 4)) /\
opt_Qeq (cond_prob uneven_model "ham" "w" (Some "a")) (Some (1 # 2)) /\
~ opt_Qeq (cond_prob uneven_model "spam" "w" (Some "a"))
          (cond_prob uneven_model "ham" "w" (Some "a")).
Proof.
split.
{ unfold uneven_model. destruct (train_total uneven_examples) as [m E].
  now rewrite E. }
repeat (split; [vm_compute; reflexivity|]).
vm_compute. discriminate.
Qed.

Lemma most_informative_features_ranked_witness :
exists full,
  NoDup full /\
  (forall ft, In ft full <->
              In ft (map fst (observations demo_model)) /\
              ~ (min_prob demo_model ft == 0)%Q) /\
  StronglySorted
    (fun a b => informativeness demo_model b <= informativeness demo_model a)%Q
    full /\
  forall n,
    most_informative_features demo_model n = Ok (slice_to full n) /\
    (0 <= n ->
     slice_to full n = firstn (Z.to_nat n) full /\
     Z.of_nat (List.length (slice_to full n)) =
       Z.min n (Z.of_nat (List.length full))) /\
    (n < 0 ->
     slice_to full n =
       firstn (List.length full - Z.to_nat (- n)) full /\
     Z.of_nat (List.length (slice_to full n)) =
       Z.max 0 (Z.of_nat (List.length full) + n)).
Proof.
apply (most_informative_features_ranked demo_model).
exact (trained_observations_nonneg demo_examples demo_model demo_model_trained).
Defined.

(** Two ways in which the ranking is not the one of the claim.  For
    [n = -1] one pair is returned.  And the ratio is taken over the
    distributions that list the value: the spam distribution gives
    ["hello"] probability 1/8 without listing it, so that over all labels
    ["hello"] has ratio 5 and ["buy"] ratio 7/3, and the list returned,
    ["buy"] before ["hello"], ascends in that ratio. *)
Lemma ranking_is_not_over_all_labels :
most_informative_features demo_model (-1) = Ok [("w", Some "buy")] /\
~ Z.of_nat (List.length [("w", Some "buy")]) <= -1 /\
most_informative_features demo_model 5 =
  Ok [("w", Some "buy"); ("w", Some "hello")] /\
samples demo_spam_w = [Some "buy"] /\
(prob demo_spam_w (Some "hello") == 1 # 8)%Q /\
opt_Qeq (cond_prob demo_model "ham" "w" (Some "hello")) (Some (5 # 8)) /\
(ratio_over_labels demo_model ("w", Some "buy") == 7 # 3)%Q /\
(ratio_over_labels demo_model ("w", Some "hello") == 5)%Q /\
(ratio_over_labels demo_model ("w", Some "buy") <
 ratio_over_labels demo_model ("w", Some "hello"))%Q /\
(informativeness demo_model ("w", Some "buy") == 7 # 3)%Q /\
(informativeness demo_model ("w", Some "hello") == 1)%Q.
Proof.
split; [vm_compute; reflexivity|].
split; [simpl; lia|].
repeat (split; [vm_compute; reflexivity|]).
vm_compute. reflexivity.
Qed.

(** Reordering can change the order among pairs of equal ratio only; here
    all ratios differ and the two rankings are the same list. *)
Example demo_ranking_reordered :
  @most_informative_features Exact InsertionOrder
    (match @train Exact InsertionOrder ELEProbDist (rev demo_examples) with
     | Ok m => m
     | Raise _ => empty_model
     end) 5 =
  most_informative_features demo_model 5.
Proof. vm_compute. reflexivity. Qed.
End RunningExampleClosing.
